(** * The KOSPI listing widget (docs/kospi-widget.js)

    A shallow embedding of the widget controller: the module-scope
    variables, the named page regions it reads and writes, the load
    step, the header builder, the filter-sort-render pipeline and the
    event handlers; followed by the properties of the specification.

    - JavaScript strings are sequences of UTF-16 code units
      ([JsString]) and JavaScript numbers are IEEE 754 binary64 values
      ([Number]), with the built-ins the widget calls: [parseFloat],
      [isNaN], [toFixed], [toLocaleString], the conversions between
      numbers and strings, [trim], [indexOf], [sort].
    - Case mapping and collation come from the host's locale data:
      they are an interface ([Locale]) the widget is parametric in.
      [toLocaleString] uses the separators of the ko-KR locale.
    - A row has the fields of the dataset with their types; the
      sector, EPS and BPS may be absent.
    - The page is a record of the named regions; the request is an
      event whose outcome ([FetchResult]) resumes [init]. *)

From Stdlib Require Import NArith ZArith Bool Lia String Ascii List.
From Stdlib Require Import Permutation Sorted Setoid Morphisms SpecFloat.
Import ListNotations.

Set Implicit Arguments.

(* ================================================================== *)
(** ** Strings: sequences of UTF-16 code units *)

Module JsString.

Definition t := list N.

(** Source text is UTF-8; [utf16] turns a literal into its code units. *)
Fixpoint decode (pending acc : N) (bytes : list N) : list N :=
  match bytes with
  | [] => []
  | b :: rest =>
      if (pending =? 0)%N then
        if (b <? 128)%N then b :: decode 0%N 0%N rest
        else if (b <? 224)%N then decode 1%N (N.land b 31) rest
        else if (b <? 240)%N then decode 2%N (N.land b 15) rest
        else decode 3%N (N.land b 7) rest
      else
        let acc' := (acc * 64 + N.land b 63)%N in
        if (pending =? 1)%N then acc' :: decode 0%N 0%N rest
        else decode (pending - 1)%N acc' rest
  end.

Definition units (cp : N) : list N :=
  if (cp <? 65536)%N then [cp]
  else [(55296 + N.shiftr (cp - 65536) 10)%N;
        (56320 + N.land (cp - 65536) 1023)%N].

Definition utf16 (s : string) : t :=
  flat_map units
    (decode 0%N 0%N (map (fun c => N.of_nat (nat_of_ascii c)) (list_ascii_of_string s))).

Definition eqb (s1 s2 : t) : bool :=
  if list_eq_dec N.eq_dec s1 s2 then true else false.

(** A string is truthy when it is not empty. *)
Definition truthy (s : t) : bool :=
  match s with [] => false | _ :: _ => true end.

(** [s.slice(i, j)] for [0 <= i <= j]. *)
Definition slice (i j : nat) (s : t) : t := firstn (j - i) (skipn i s).

(** *** indexOf *)

Fixpoint starts_with (p s : t) : bool :=
  match p, s with
  | [], _ => true
  | _ :: _, [] => false
  | a :: p', b :: s' => (a =? b)%N && starts_with p' s'
  end.

(** [s.indexOf(p)]: the least position at which [p] occurs in [s],
    or -1. *)
Fixpoint indexOf (s p : t) : Z :=
  if starts_with p s then 0%Z
  else match s with
       | [] => (-1)%Z
       | _ :: s' => let i := indexOf s' p in
                    if (i =? -1)%Z then (-1)%Z else (i + 1)%Z
       end.

(** *** trim *)

(** WhiteSpace and LineTerminator code units (ECMAScript TrimString). *)
Definition is_white (c : N) : bool :=
  ((9 <=? c) && (c <=? 13) || (c =? 32) || (c =? 160) || (c =? 5760)
   || (8192 <=? c) && (c <=? 8202) || (c =? 8232) || (c =? 8233)
   || (c =? 8239) || (c =? 8287) || (c =? 12288) || (c =? 65279))%N.

Fixpoint trimStart (s : t) : t :=
  match s with
  | c :: s' => if is_white c then trimStart s' else s
  | [] => []
  end.

Definition trimEnd (s : t) : t := rev (trimStart (rev s)).

Definition trim (s : t) : t := trimEnd (trimStart s).

(** *** Decimal numerals *)

(** The decimal digits of a natural number, most significant first
    ("0" for zero): the digits of n / 10, when there are any, and then
    the digit n mod 10. *)
Fixpoint decimal_digits (fuel : nat) (n : N) : t :=
  match fuel with
  | O => []
  | S fuel' =>
      (if (n <? 10)%N then [] else decimal_digits fuel' (n / 10)%N)
      ++ [(48 + n mod 10)%N]
  end.

Definition decimal (n : N) : t :=
  decimal_digits (S (N.to_nat (N.log2 n))) n.

(** [n] copies of the digit zero. *)
Definition zeros (n : nat) : t := repeat 48%N n.

(** The code-unit order of the default [Array.prototype.sort]. *)
Fixpoint compare (s1 s2 : t) : comparison :=
  match s1, s2 with
  | [], [] => Eq
  | [], _ :: _ => Lt
  | _ :: _, [] => Gt
  | a :: s1', b :: s2' =>
      match (a ?= b)%N with
      | Eq => compare s1' s2'
      | c => c
      end
  end.

(** [p] occurs in [s] as a contiguous run of code units. *)
Definition occurs_in (p s : t) : Prop := exists pre post, s = pre ++ p ++ post.

(** A decimal digit. *)
Definition digit (c : N) : Prop := (48 <= c <= 57)%N.

End JsString.

Abbreviation jsstring := JsString.t.
Abbreviation utf16 := JsString.utf16.

(* ================================================================== *)
(** ** Numbers: IEEE 754 binary64 *)

Module Number.

(** Every finite binary64 value is an integer multiple of the least
    subnormal, 2^-1074.  [Fin neg k] is the value (-1)^neg * k * 2^-1074;
    both zeros are present ([Fin false 0] and [Fin true 0]). *)
Inductive t : Type :=
| NaN
| Inf (neg : bool)
| Fin (neg : bool) (k : N).

(** 1 in units of 2^-1074. *)
Definition scale : N := 2 ^ 1074.

(** 2^1024 in units of 2^-1074: the first magnitude that is not finite. *)
Definition overflow : N := 2 ^ 2098.

(** [round_ratio neg a b] is the binary64 value nearest to
    (-1)^neg * (a / b) * 2^-1074, ties to even, for [b > 0]: the
    quotient keeps its 53 leading bits, [d] low bits are rounded off. *)
Definition round_ratio (neg : bool) (a b : N) : t :=
  let d := (N.log2 (a / b) + 1 - 53)%N in
  let den := (b * 2 ^ d)%N in
  let q := (a / den)%N in
  let r := (a mod den)%N in
  let q' := match (2 * r ?= den)%N with
            | Lt => q
            | Gt => (q + 1)%N
            | Eq => if N.even q then q else (q + 1)%N
            end in
  let k := (q' * 2 ^ d)%N in
  if (overflow <=? k)%N then Inf neg else Fin neg k.

Definition of_N (n : N) : t := round_ratio false (n * scale) 1.

Definition of_Z (z : Z) : t := round_ratio (z <? 0)%Z (Z.abs_N z * scale) 1.

(** The value m * 10^e, for a decimal numeral with digits [m]. *)
Definition of_decimal (neg : bool) (m : N) (e : Z) : t :=
  if (m =? 0)%N then Fin neg 0
  else if (400 <? e)%Z then Inf neg
  else if (e <? - 400 - Z.of_N (N.log2 m))%Z then Fin neg 0
  else if (0 <=? e)%Z then round_ratio neg (m * 10 ^ Z.to_N e * scale) 1
  else round_ratio neg (m * scale) (10 ^ Z.to_N (- e)).

Definition zero : t := Fin false 0.

(** *** Comparison *)

Definition signed (neg : bool) (k : N) : Z :=
  if neg then (- Z.of_N k)%Z else Z.of_N k.

(** IEEE comparison; [None] when an operand is NaN (unordered). *)
Definition compare (x y : t) : option comparison :=
  match x, y with
  | NaN, _ | _, NaN => None
  | Inf nx, Inf ny =>
      Some (match nx, ny with
            | true, false => Lt
            | false, true => Gt
            | _, _ => Eq
            end)
  | Inf nx, Fin _ _ => Some (if nx then Lt else Gt)
  | Fin _ _, Inf ny => Some (if ny then Gt else Lt)
  | Fin nx kx, Fin ny ky => Some (signed nx kx ?= signed ny ky)%Z
  end.

(** [x < y], [x > y], [x >= y], [x <= y]: false when unordered. *)
Definition ltb (x y : t) : bool :=
  match compare x y with Some Lt => true | _ => false end.
Definition gtb (x y : t) : bool :=
  match compare x y with Some Gt => true | _ => false end.
Definition geb (x y : t) : bool :=
  match compare x y with Some Gt | Some Eq => true | _ => false end.
Definition leb (x y : t) : bool :=
  match compare x y with Some Lt | Some Eq => true | _ => false end.

Definition isNaN (x : t) : bool :=
  match x with NaN => true | _ => false end.

Definition isFinite (x : t) : bool :=
  match x with Fin _ _ => true | _ => false end.

(** *** Arithmetic *)

Definition opp (x : t) : t :=
  match x with
  | NaN => NaN
  | Inf n => Inf (negb n)
  | Fin n k => Fin (negb n) k
  end.

Definition add (x y : t) : t :=
  match x, y with
  | NaN, _ | _, NaN => NaN
  | Inf nx, Inf ny => if Bool.eqb nx ny then Inf nx else NaN
  | Inf nx, Fin _ _ => Inf nx
  | Fin _ _, Inf ny => Inf ny
  | Fin nx kx, Fin ny ky =>
      let z := (signed nx kx + signed ny ky)%Z in
      if (z =? 0)%Z then Fin (nx && ny) 0
      else round_ratio (z <? 0)%Z (Z.abs_N z) 1
  end.

Definition sub (x y : t) : t := add x (opp y).

Definition mul (x y : t) : t :=
  match x, y with
  | NaN, _ | _, NaN => NaN
  | Inf nx, Inf ny => Inf (xorb nx ny)
  | Inf nx, Fin ny k | Fin ny k, Inf nx =>
      if (k =? 0)%N then NaN else Inf (xorb nx ny)
  | Fin nx kx, Fin ny ky => round_ratio (xorb nx ny) (kx * ky) scale
  end.

Definition div (x y : t) : t :=
  match x, y with
  | NaN, _ | _, NaN => NaN
  | Inf _, Inf _ => NaN
  | Inf nx, Fin ny _ => Inf (xorb nx ny)
  | Fin nx _, Inf ny => Fin (xorb nx ny) 0
  | Fin nx kx, Fin ny ky =>
      if (ky =? 0)%N then
        if (kx =? 0)%N then NaN else Inf (xorb nx ny)
      else round_ratio (xorb nx ny) (kx * scale) ky
  end.

(** *** Number::toString: the shortest decimal numeral that reads back *)

(** [below_pow10 k e]: k * 2^-1074 < 10^e. *)
Definition below_pow10 (k : N) (e : Z) : bool :=
  if (0 <=? e)%Z then (k <? 10 ^ Z.to_N e * scale)%N
  else (k * 10 ^ Z.to_N (- e) <? scale)%N.

Fixpoint first_pow10_above (fuel : nat) (k : N) (e : Z) : Z :=
  match fuel with
  | O => e
  | S fuel' =>
      if below_pow10 k e then e else first_pow10_above fuel' k (e + 1)%Z
  end.

(** The [n] with 10^(n-1) <= k * 2^-1074 < 10^n, for [k > 0]; the
    search starts from an under-estimate taken from the binary
    logarithm. *)
Definition decimal_exponent (k : N) : Z :=
  first_pow10_above 4 k
    ((Z.of_N (N.log2 k) - 1074) * 30103 / 100000 - 1)%Z.

(** k * 2^-1074 * 10^p as a ratio. *)
Definition scaled (k : N) (p : Z) : N * N :=
  if (0 <=? p)%Z then (k * 10 ^ Z.to_N p, scale)%N
  else (k, scale * 10 ^ Z.to_N (- p))%N.

Definition reads_back (k s : N) (e : Z) : bool :=
  match of_decimal false s e with
  | Fin _ k' => (k' =? k)%N
  | _ => false
  end.

(** With [digits] digits, the candidates are the two numerals that
    enclose the value; the nearer one that reads back is taken (the even
    one on a tie), and without one the search goes on with one more
    digit. *)
Fixpoint shortest (fuel : nat) (k : N) (n digits : Z) : N * Z :=
  let '(a, b) := scaled k (digits - n) in
  let lo := (a / b)%N in
  let hi := (lo + 1)%N in
  let e := (n - digits)%Z in
  let pick :=
    match reads_back k lo e, reads_back k hi e with
    | true, true =>
        Some (match (2 * (a mod b) ?= b)%N with
              | Lt => lo
              | Gt => hi
              | Eq => if N.even lo then lo else hi
              end)
    | true, false => Some lo
    | false, true => Some hi
    | false, false => None
    end in
  match pick, fuel with
  | Some s, _ => (s, e)
  | None, O => (lo, e)
  | None, S fuel' => shortest fuel' k n (digits + 1)%Z
  end.

Fixpoint strip_zeros (fuel : nat) (s : N) (e : Z) : N * Z :=
  match fuel with
  | O => (s, e)
  | S fuel' =>
      if (s mod 10 =? 0)%N then strip_zeros fuel' (s / 10)%N (e + 1)%Z
      else (s, e)
  end.

(** Digits [s] and exponent [e] with k * 2^-1074 printed as s * 10^e. *)
Definition shortest_digits (k : N) : N * Z :=
  let '(s, e) := shortest 17 k (decimal_exponent k) 1 in
  strip_zeros 20 s e.

Definition minus (neg : bool) : jsstring :=
  if neg then utf16 "-" else [].

Definition toString (x : t) : jsstring :=
  match x with
  | NaN => utf16 "NaN"
  | Inf neg => minus neg ++ utf16 "Infinity"
  | Fin neg k =>
      if (k =? 0)%N then utf16 "0"
      else
        let '(s, e) := shortest_digits k in
        let ds := JsString.decimal s in
        let kd := Z.of_nat (length ds) in
        let n := (e + kd)%Z in
        minus neg ++
        (if (kd <=? n)%Z && (n <=? 21)%Z then
           ds ++ JsString.zeros (Z.to_nat (n - kd))
         else if (0 <? n)%Z && (n <=? 21)%Z then
           firstn (Z.to_nat n) ds ++ utf16 "." ++ skipn (Z.to_nat n) ds
         else if (-6 <? n)%Z && (n <=? 0)%Z then
           utf16 "0." ++ JsString.zeros (Z.to_nat (- n)) ++ ds
         else
           let ex := (n - 1)%Z in
           let exps := (if (ex <? 0)%Z then utf16 "-" else utf16 "+")
                       ++ JsString.decimal (Z.abs_N ex) in
           match ds with
           | [] => []
           | [d] => [d] ++ utf16 "e" ++ exps
           | d :: rest => [d] ++ utf16 "." ++ rest ++ utf16 "e" ++ exps
           end)
  end.

(** *** Number.prototype.toFixed *)

(** The integer nearest to a / b, the larger one on a tie. *)
Definition round_half_up (a b : N) : N := ((2 * a + b) / (2 * b))%N.

(** n / 10^f in fixed notation with [f] fraction digits. *)
Definition fixed (n : N) (f : nat) : jsstring :=
  let m := JsString.decimal n in
  if (f =? 0)%nat then m
  else
    let m := JsString.zeros (f + 1 - length m) ++ m in
    let k := length m in
    firstn (k - f) m ++ utf16 "." ++ skipn (k - f) m.

Definition toFixed (f : nat) (x : t) : jsstring :=
  match x with
  | Fin neg k =>
      let s := minus (neg && negb (k =? 0)%N) in
      if (10 ^ 21 * scale <=? k)%N then s ++ toString (Fin false k)
      else s ++ fixed (round_half_up (k * 10 ^ N.of_nat f) scale) f
  | _ => toString x
  end.

(** *** Number.prototype.toLocaleString

    With no arguments this is the decimal style of the host's default
    locale.  The widget is a Korean page and the examples of the
    specification ("9,999억") are in the format of ko-KR, which is
    also that of en-US; that format is the one modelled: a comma
    between groups of three digits, a point before the fraction.

    The engines format the digits of [Number::toString], that is the
    shortest decimal numeral that reads back as the value, not the
    exact binary value: 1.0005 is shown as "1.001" although the
    binary64 value lies below 1.0005, and 2^60 as
    "1,152,921,504,606,847,000".  These digits are rounded to at most
    three fraction digits, half away from zero; trailing zeros of the
    fraction are not shown. *)

Fixpoint group3_rev (ds : list N) : list N :=
  match ds with
  | a :: b :: c :: rest =>
      match rest with
      | [] => ds
      | _ :: _ => a :: b :: c :: 44%N :: group3_rev rest
      end
  | _ => ds
  end.

(** Commas between groups of three digits, counted from the right. *)
Definition group3 (ds : jsstring) : jsstring := rev (group3_rev (rev ds)).

Fixpoint drop_zeros (ds : list N) : list N :=
  match ds with
  | c :: ds' => if (c =? 48)%N then drop_zeros ds' else ds
  | [] => []
  end.

Definition fraction3 (frac : N) : jsstring :=
  let ds := JsString.decimal frac in
  rev (drop_zeros (rev (JsString.zeros (3 - length ds) ++ ds))).

(** The magnitude in thousandths, rounded: for the digits [s] and the
    exponent [e] of the shortest numeral, s * 10^(e + 3). *)
Definition thousandths (k : N) : N :=
  if (k =? 0)%N then 0%N
  else
    let '(s, e) := shortest_digits k in
    if (0 <=? e + 3)%Z then (s * 10 ^ Z.to_N (e + 3))%N
    else round_half_up s (10 ^ Z.to_N (- (e + 3))).

Definition toLocaleString (x : t) : jsstring :=
  match x with
  | NaN => utf16 "NaN"
  | Inf neg => minus neg ++ utf16 "∞"
  | Fin neg k =>
      let n := thousandths k in
      let fs := fraction3 (n mod 1000) in
      minus neg ++ group3 (JsString.decimal (n / 1000))
      ++ (match fs with [] => [] | _ :: _ => utf16 "." ++ fs end)
  end.

(** *** Reading numerals: StrDecimalLiteral *)

Definition is_digit (c : N) : bool := ((48 <=? c) && (c <=? 57))%N.

Fixpoint span_digits (s : jsstring) : jsstring * jsstring :=
  match s with
  | c :: s' =>
      if is_digit c then let '(ds, r) := span_digits s' in (c :: ds, r)
      else ([], s)
  | [] => ([], [])
  end.

Definition digits_value (ds : jsstring) : N :=
  fold_left (fun acc c => (acc * 10 + (c - 48))%N) ds 0%N.

(** An ExponentPart at the head of [s], when there is one. *)
Definition scan_exponent (s : jsstring) : Z * jsstring :=
  match s with
  | c :: s1 =>
      if ((c =? 101) || (c =? 69))%N then
        let '(neg, s2) :=
          match s1 with
          | 43%N :: r => (false, r)
          | 45%N :: r => (true, r)
          | _ => (false, s1)
          end in
        let '(ds, r) := span_digits s2 in
        match ds with
        | [] => (0%Z, s)
        | _ :: _ =>
            let v := Z.of_N (digits_value ds) in
            ((if neg then - v else v)%Z, r)
        end
      else (0%Z, s)
  | [] => (0%Z, s)
  end.

(** The longest prefix of [s] that is a StrUnsignedDecimalLiteral, as
    its value and the rest of [s]. *)
Definition scan_unsigned (neg : bool) (s : jsstring) : option (t * jsstring) :=
  if JsString.starts_with (utf16 "Infinity") s then Some (Inf neg, skipn 8 s)
  else
    let '(ip, r1) := span_digits s in
    let '(fp, r2) :=
      match r1 with
      | 46%N :: r => span_digits r
      | _ => ([], r1)
      end in
    match ip, fp with
    | [], [] => None
    | _, _ =>
        let '(e, r3) := scan_exponent r2 in
        Some (of_decimal neg (digits_value (ip ++ fp))
                (e - Z.of_nat (length fp))%Z, r3)
    end.

Definition scan_decimal (s : jsstring) : option (t * jsstring) :=
  match s with
  | 43%N :: r => scan_unsigned false r
  | 45%N :: r => scan_unsigned true r
  | _ => scan_unsigned false s
  end.

(** *** StringToNumber (the ToNumber conversion of a string) *)

Definition digit_of (radix c : N) : option N :=
  let v := if is_digit c then Some (c - 48)%N
           else if ((97 <=? c) && (c <=? 102))%N then Some (c - 87)%N
           else if ((65 <=? c) && (c <=? 70))%N then Some (c - 55)%N
           else None in
  match v with
  | Some d => if (d <? radix)%N then Some d else None
  | None => None
  end.

Fixpoint radix_value (radix : N) (acc : N) (s : jsstring) : option N :=
  match s with
  | [] => Some acc
  | c :: s' =>
      match digit_of radix c with
      | Some d => radix_value radix (acc * radix + d)%N s'
      | None => None
      end
  end.

Definition of_radix (radix : N) (s : jsstring) : t :=
  match s with
  | [] => NaN
  | _ :: _ =>
      match radix_value radix 0 s with
      | Some n => of_N n
      | None => NaN
      end
  end.

Definition of_string (s : jsstring) : t :=
  let s' := JsString.trim s in
  let decimal_literal :=
    match scan_decimal s' with
    | Some (x, []) => x
    | _ => NaN
    end in
  match s' with
  | [] => zero
  | 48%N :: c :: r =>
      if ((c =? 120) || (c =? 88))%N then of_radix 16 r
      else if ((c =? 111) || (c =? 79))%N then of_radix 8 r
      else if ((c =? 98) || (c =? 66))%N then of_radix 2 r
      else decimal_literal
  | _ => decimal_literal
  end.

End Number.

Abbreviation number := Number.t.


(** The global function [parseFloat]: the value of the longest numeral
    that starts the string, leading white space skipped; NaN without
    one. *)
Definition parseFloat (s : jsstring) : number :=
  match Number.scan_decimal (JsString.trimStart s) with
  | Some (x, _) => x
  | None => Number.NaN
  end.

(** The global function [isNaN], on a number. *)
Definition isNaN (x : number) : bool := Number.isNaN x.

(* ================================================================== *)
(** ** Array.prototype.sort

    ECMAScript fixes the result of [sort] for a consistent comparator
    only: it is then the sorted permutation that keeps equal elements
    in their order, the same in every engine, and it is what the
    insertion sort below returns ([sort_perm], [sort_sorted],
    [sort_filter]): each element moves left past the elements [y] with
    [comparefn(y, x) > 0], and a NaN returned by the comparator counts
    as 0.

    For a comparator that is not consistent the order is left to the
    engine, and an engine's differs from the one computed here (its
    sort looks for an ascending or descending run and inserts by
    binary search).  Nothing below is stated about the order in that
    case: what is proved about the order of the rows has the
    hypothesis that the sort column is of one kind, which makes the
    comparator of [render] consistent, and everything else uses only
    that the result is a permutation. *)

Section Sort.

Variable A : Type.
Variable comparefn : A -> A -> number.

(** [order > 0] for [order = comparefn(y, x)]. *)
Definition after (y x : A) : bool := Number.gtb (comparefn y x) Number.zero.

(** The sorted prefix is held last element first. *)
Fixpoint insert (x : A) (prefix_rev : list A) : list A :=
  match prefix_rev with
  | [] => [x]
  | y :: ys => if after y x then y :: insert x ys else x :: y :: ys
  end.

Definition sort (l : list A) : list A :=
  rev (fold_left (fun prefix_rev x => insert x prefix_rev) l []).

End Sort.

(** The comparator of a [sort()] call without arguments: the order of
    the code units. *)
Definition of_comparison (c : comparison) : number :=
  match c with
  | Lt => Number.of_Z (-1)
  | Eq => Number.zero
  | Gt => Number.of_Z 1
  end.

Definition default_compare (x y : jsstring) : number :=
  of_comparison (JsString.compare x y).

(** [[...new Set(l)]]: the first occurrence of each element, in order. *)
Fixpoint distinct (l : list jsstring) : list jsstring :=
  match l with
  | [] => []
  | x :: l' => x :: remove (list_eq_dec N.eq_dec) x (distinct l')
  end.

(* ================================================================== *)
(** ** The host's locale services *)

Class Locale : Type := {
  (** [s.toLowerCase()]; the empty string has no unit to map. *)
  toLowerCase : jsstring -> jsstring;
  toLowerCase_empty : toLowerCase [] = [];
  (** the sign of [s.localeCompare(t, "ko")] *)
  localeCompare : jsstring -> jsstring -> comparison
}.

(** A collation is a total preorder on strings. *)
Class Collation (L : Locale) : Prop := {
  collate_refl : forall s, localeCompare s s = Eq;
  collate_sym : forall s t, localeCompare t s = CompOpp (localeCompare s t);
  collate_trans : forall s t u,
    localeCompare s t <> Gt -> localeCompare t u <> Gt ->
    localeCompare s u <> Gt
}.

(* ================================================================== *)
(** ** Data model *)

(** A row of the dataset.  The sector, EPS and BPS properties may be
    absent. *)
Record Row : Type := {
  ticker : jsstring;
  name : jsstring;
  sector : option jsstring;
  marketCap : number;
  PER : number;
  PBR : number;
  EPS : option number;
  BPS : option number
}.

(** What a property access on a row yields. *)
Inductive value : Type :=
| VUndefined
| VNumber (x : number)
| VString (s : jsstring).

Definition of_option_number (o : option number) : value :=
  match o with Some x => VNumber x | None => VUndefined end.

Definition of_option_string (o : option jsstring) : value :=
  match o with Some s => VString s | None => VUndefined end.

(** [r[key]] *)
Definition get (r : Row) (key : jsstring) : value :=
  if JsString.eqb key (utf16 "티커") then VString (ticker r)
  else if JsString.eqb key (utf16 "종목명") then VString (name r)
  else if JsString.eqb key (utf16 "섹터") then of_option_string (sector r)
  else if JsString.eqb key (utf16 "시가총액(억)") then VNumber (marketCap r)
  else if JsString.eqb key (utf16 "PER") then VNumber (PER r)
  else if JsString.eqb key (utf16 "PBR") then VNumber (PBR r)
  else if JsString.eqb key (utf16 "EPS") then of_option_number (EPS r)
  else if JsString.eqb key (utf16 "BPS") then of_option_number (BPS r)
  else VUndefined.

(** [String(v)] and the ToNumber conversion of [v]. *)
Definition ToString (v : value) : jsstring :=
  match v with
  | VUndefined => utf16 "undefined"
  | VNumber x => Number.toString x
  | VString s => s
  end.

Definition ToNumber (v : value) : number :=
  match v with
  | VUndefined => Number.NaN
  | VNumber x => x
  | VString s => Number.of_string s
  end.

Record Col : Type := {
  key : jsstring;
  label : jsstring;
  align : jsstring;
  sortable : bool
}.

Definition COLS : list Col := [
  {| key := utf16 "#"; label := utf16 "#"; align := utf16 "right"; sortable := false |};
  {| key := utf16 "티커"; label := utf16 "티커"; align := utf16 "left"; sortable := true |};
  {| key := utf16 "종목명"; label := utf16 "종목명"; align := utf16 "left"; sortable := true |};
  {| key := utf16 "섹터"; label := utf16 "섹터"; align := utf16 "left"; sortable := true |};
  {| key := utf16 "시가총액(억)"; label := utf16 "시가총액"; align := utf16 "right"; sortable := true |};
  {| key := utf16 "PER"; label := utf16 "PER"; align := utf16 "right"; sortable := true |};
  {| key := utf16 "PBR"; label := utf16 "PBR"; align := utf16 "right"; sortable := true |};
  {| key := utf16 "EPS"; label := utf16 "EPS"; align := utf16 "right"; sortable := true |};
  {| key := utf16 "BPS"; label := utf16 "BPS"; align := utf16 "right"; sortable := true |}
].

Definition DATA_URL : jsstring :=
  utf16 "https://seokleejh.github.io/etf_search/kospi.json".

(* ================================================================== *)
(** ** State: the module-scope variables and the page *)

(** The [value] of the seven filter controls. *)
Record Controls : Type := {
  kw_sector : jsstring;
  kw_search : jsstring;
  kw_per_min : jsstring;
  kw_per_max : jsstring;
  kw_pbr_min : jsstring;
  kw_pbr_max : jsstring;
  kw_cap_min : jsstring
}.

(** A cell of the header row. *)
Record Th : Type := {
  th_left : bool;               (* class kw-left *)
  th_label : jsstring;
  th_arrow : option jsstring;   (* the text of its kw-arrow span, if any *)
  th_click : option Col;        (* the column its click listener closes over *)
  th_sorted : bool              (* class kw-sorted *)
}.

(** The other regions of the page the widget writes to. *)
Record Page : Type := {
  kw_date : jsstring;
  kw_status_class : jsstring;
  kw_status_text : jsstring;
  kw_status_display : jsstring;
  kw_table_wrap_display : jsstring;
  kw_sector_options : list jsstring;  (* the options of the sector dropdown *)
  kw_count : jsstring;
  kw_thead : list Th;
  kw_tbody : list jsstring            (* the innerHTML of each body row *)
}.

Record Widget : Type := {
  allRows : list Row;
  sortKey : jsstring;
  sortAsc : bool;
  controls : Controls;
  page : Page;
  requests : list jsstring;     (* the URLs fetched so far *)
  pending : bool                (* [init] is suspended at its await *)
}.

Definition with_controls (c : Controls) (w : Widget) : Widget :=
  {| allRows := allRows w; sortKey := sortKey w; sortAsc := sortAsc w;
     controls := c; page := page w;
     requests := requests w; pending := pending w |}.

Definition with_page (p : Page) (w : Widget) : Widget :=
  {| allRows := allRows w; sortKey := sortKey w; sortAsc := sortAsc w;
     controls := controls w; page := p;
     requests := requests w; pending := pending w |}.

Definition with_sort (k : jsstring) (asc : bool) (w : Widget) : Widget :=
  {| allRows := allRows w; sortKey := k; sortAsc := asc;
     controls := controls w; page := page w;
     requests := requests w; pending := pending w |}.

Definition with_allRows (rows : list Row) (w : Widget) : Widget :=
  {| allRows := rows; sortKey := sortKey w; sortAsc := sortAsc w;
     controls := controls w; page := page w;
     requests := requests w; pending := pending w |}.

Definition settled (w : Widget) : Widget :=
  {| allRows := allRows w; sortKey := sortKey w; sortAsc := sortAsc w;
     controls := controls w; page := page w;
     requests := requests w; pending := false |}.

(* ================================================================== *)
(** ** The widget *)

Definition quote : jsstring := [34%N].

(** [<td class="cls">content</td>] and [<td>content</td>] *)
Definition td_class (cls content : jsstring) : jsstring :=
  utf16 "<td class=" ++ quote ++ cls ++ quote ++ utf16 ">"
  ++ content ++ utf16 "</td>".

Definition td (content : jsstring) : jsstring :=
  utf16 "<td>" ++ content ++ utf16 "</td>".

Fixpoint mapi_from {A B : Type} (i : nat) (f : nat -> A -> B) (l : list A) : list B :=
  match l with
  | [] => []
  | x :: l' => f i x :: mapi_from (S i) f l'
  end.

(** [l.forEach((x, i) => ...)], collecting what each call builds. *)
Definition mapi {A B : Type} (f : nat -> A -> B) (l : list A) : list B :=
  mapi_from 0 f l.

(** [v !== s] for a string [s]. *)
Definition differs (v : value) (s : jsstring) : bool :=
  match v with
  | VString s' => negb (JsString.eqb s' s)
  | _ => true
  end.

(** The capitalization cell. *)
Definition capStr (cap : number) : jsstring :=
  if Number.geb cap (Number.of_N 10000) then
    Number.toFixed 1 (Number.div cap (Number.of_N 10000)) ++ utf16 "조"
  else Number.toLocaleString cap ++ utf16 "억".

Definition perCls (per : number) : jsstring :=
  if Number.ltb per (Number.of_N 10) then utf16 "per-low"
  else if Number.ltb per (Number.of_N 25) then utf16 "per-mid"
  else utf16 "per-high".

(** The EPS and BPS cells:
    [Number.isFinite(v) ? v.toLocaleString() : "-"], where
    [Number.isFinite] is false for everything that is not a number. *)
Definition finiteStr (v : value) : jsstring :=
  match v with
  | VNumber x => if Number.isFinite x then Number.toLocaleString x else utf16 "-"
  | _ => utf16 "-"
  end.

(** The innerHTML of the body row of [r], the [i]-th row (from 0). *)
Definition tr (i : nat) (r : Row) : jsstring :=
  let cap := marketCap r in
  let per := PER r in
  let epsStr := finiteStr (get r (utf16 "EPS")) in
  let bpsStr := finiteStr (get r (utf16 "BPS")) in
  td_class (utf16 "kw-left kw-rank") (JsString.decimal (N.of_nat (i + 1)))
  ++ td_class (utf16 "kw-left kw-ticker") (ticker r)
  ++ td_class (utf16 "kw-left kw-name") (name r)
  ++ td_class (utf16 "kw-left kw-sector") (ToString (get r (utf16 "섹터")))
  ++ td (capStr cap)
  ++ td_class (utf16 "kw-per " ++ perCls per) (Number.toFixed 2 per)
  ++ td (Number.toFixed 2 (PBR r))
  ++ td epsStr
  ++ td bpsStr.

(** The header cell [buildHeader] makes for a column. *)
Definition build_th (sortKey : jsstring) (col : Col) : Th :=
  {| th_left := JsString.eqb (align col) (utf16 "left");
     th_label := label col;
     th_arrow := if sortable col then Some [] else None;
     th_click := if sortable col then Some col else None;
     th_sorted := JsString.eqb (key col) sortKey |}.

Definition buildHeader (w : Widget) : Widget :=
  let p := page w in
  with_page
    {| kw_date := kw_date p; kw_status_class := kw_status_class p;
       kw_status_text := kw_status_text p;
       kw_status_display := kw_status_display p;
       kw_table_wrap_display := kw_table_wrap_display p;
       kw_sector_options := kw_sector_options p;
       kw_count := kw_count p;
       kw_thead := kw_thead p ++ map (build_th (sortKey w)) COLS;
       kw_tbody := kw_tbody p |} w.

(** The header reflow of [render] for the cell of column [col]. *)
Definition reflow (sortKey : jsstring) (sortAsc : bool) (th : Th) (col : Col) : Th :=
  if negb (sortable col) then th
  else
    let current := JsString.eqb (key col) sortKey in
    {| th_left := th_left th;
       th_label := th_label th;
       th_arrow :=
         match th_arrow th with
         | Some _ =>
             Some (if current then
                     if sortAsc then utf16 " ▲" else utf16 " ▼"
                   else utf16 " ▲▼")
         | None => None
         end;
       th_click := th_click th;
       th_sorted := current |}.

(** The header row is filled by [buildHeader] alone, one cell per
    column, so that [COLS[i]] is the column of the [i]-th cell. *)
Fixpoint reflow_all (sortKey : jsstring) (sortAsc : bool)
    (ths : list Th) (cols : list Col) : list Th :=
  match ths, cols with
  | th :: ths', col :: cols' =>
      reflow sortKey sortAsc th col :: reflow_all sortKey sortAsc ths' cols'
  | _, _ => ths
  end.

(** The sector options [init] appends:
    [[...new Set(allRows.map(r => r["섹터"]).filter(Boolean))].sort()] *)
Definition present (o : option jsstring) : list jsstring :=
  match o with
  | Some s => if JsString.truthy s then [s] else []
  | None => []
  end.

Definition sectors (rows : list Row) : list jsstring :=
  sort default_compare (distinct (flat_map (fun r => present (sector r)) rows)).

Section Widget.

Context {L : Locale}.

(** The predicate of [allRows.filter] in [render]. *)
Definition keep (c : Controls) (r : Row) : bool :=
  let sector := kw_sector c in
  let search := toLowerCase (JsString.trim (kw_search c)) in
  let perMin := parseFloat (kw_per_min c) in
  let perMax := parseFloat (kw_per_max c) in
  let pbrMin := parseFloat (kw_pbr_min c) in
  let pbrMax := parseFloat (kw_pbr_max c) in
  let capMin := Number.mul (parseFloat (kw_cap_min c)) (Number.of_N 10000) in
  if JsString.truthy sector && differs (get r (utf16 "섹터")) sector then false
  else if JsString.truthy search
          && (JsString.indexOf (toLowerCase (name r)) search =? -1)%Z then false
  else if negb (isNaN perMin) && Number.ltb (PER r) perMin then false
  else if negb (isNaN perMax) && Number.gtb (PER r) perMax then false
  else if negb (isNaN pbrMin) && Number.ltb (PBR r) pbrMin then false
  else if negb (isNaN pbrMax) && Number.gtb (PBR r) pbrMax then false
  else if negb (isNaN capMin) && Number.ltb (marketCap r) capMin then false
  else true.

(** The comparator of [rows.slice().sort] in [render]. *)
Definition compareRows (sortKey : jsstring) (sortAsc : bool) (a b : Row) : number :=
  let av := get a sortKey in
  let bv := get b sortKey in
  match av with
  | VNumber x =>
      if sortAsc then Number.sub x (ToNumber bv)
      else Number.sub (ToNumber bv) x
  | _ =>
      if sortAsc then of_comparison (localeCompare (ToString av) (ToString bv))
      else of_comparison (localeCompare (ToString bv) (ToString av))
  end.

(** The rows [render] shows, in order: filtered, then a sorted copy. *)
Definition visible_rows (w : Widget) : list Row :=
  let rows := filter (keep (controls w)) (allRows w) in
  if JsString.truthy (sortKey w)
     && negb (JsString.eqb (sortKey w) (utf16 "#"))
  then sort (compareRows (sortKey w) (sortAsc w)) rows
  else rows.

Definition render (w : Widget) : Widget :=
  let rows := visible_rows w in
  let p := page w in
  with_page
    {| kw_date := kw_date p; kw_status_class := kw_status_class p;
       kw_status_text := kw_status_text p;
       kw_status_display := kw_status_display p;
       kw_table_wrap_display := kw_table_wrap_display p;
       kw_sector_options := kw_sector_options p;
       kw_count := JsString.decimal (N.of_nat (length rows)) ++ utf16 "개 종목";
       kw_thead := reflow_all (sortKey w) (sortAsc w) (kw_thead p) COLS;
       kw_tbody := mapi tr rows |} w.

(** The click listener of the header cell of [col]. *)
Definition on_click (col : Col) (w : Widget) : Widget :=
  render
    (if JsString.eqb (sortKey w) (key col) then
       with_sort (sortKey w) (negb (sortAsc w)) w
     else
       with_sort (key col)
         (negb (JsString.eqb (key col) (utf16 "시가총액(억)"))) w).

(** The click listener of the reset control. *)
Definition on_reset (w : Widget) : Widget :=
  render
    (with_controls
       {| kw_sector := []; kw_search := []; kw_per_min := [];
          kw_per_max := []; kw_pbr_min := []; kw_pbr_max := [];
          kw_cap_min := [] |} w).

(** *** Loading *)

(** How the one request ends: [fetch] rejects, or it resolves to a
    response with a status and a body.  [res.json()] rejects
    ([Malformed]) or gives the object [fund].  Its [data] is an array
    of rows, as the Dataset of the specification has it.  Its [date]
    is a string ([Parsed]) or a value without a [slice] method, such as
    an absent one, a null or a number, on which [d.slice] throws a
    TypeError with the message given ([Undated]). *)
Inductive Body : Type :=
| Malformed (message : jsstring)
| Parsed (date : jsstring) (data : list Row)
| Undated (message : jsstring) (data : list Row).

Inductive FetchResult : Type :=
| NetworkError (message : jsstring)
| Response (status : N) (body : Body).

(** [res.ok] *)
Definition ok (status : N) : bool := ((200 <=? status) && (status <=? 299))%N.

(** Lines 22-24 of [init]: the message of what was thrown, or the
    object [fund]: its date (a string, or the message [d.slice] will
    throw) and its data. *)
Definition load (res : FetchResult)
    : jsstring + (jsstring + jsstring) * list Row :=
  match res with
  | NetworkError message => inl message
  | Response status body =>
      if negb (ok status) then
        inl (utf16 "HTTP error: " ++ JsString.decimal status)
      else
        match body with
        | Malformed message => inl message
        | Parsed d rows => inr (inl d, rows)
        | Undated message rows => inr (inr message, rows)
        end
  end.

(** The catch block of [init]. *)
Definition catch (message : jsstring) (w : Widget) : Widget :=
  let p := page w in
  with_page
    {| kw_date := kw_date p;
       kw_status_class := utf16 "kw-error";
       kw_status_text :=
         utf16 "데이터를 불러오지 못했습니다. (" ++ message ++ utf16 ")";
       kw_status_display := kw_status_display p;
       kw_table_wrap_display := kw_table_wrap_display p;
       kw_sector_options := kw_sector_options p;
       kw_count := kw_count p;
       kw_thead := kw_thead p;
       kw_tbody := kw_tbody p |} w.

(** [init] from its await on.  The dataset is assigned (line 26)
    before the date is sliced (line 30): when that throws, the rows
    stay in [allRows]. *)
Definition init_resume (res : FetchResult) (w : Widget) : Widget :=
  match load res with
  | inl message => catch message w
  | inr (date, rows) =>
      let w1 := with_allRows rows w in
      match date with
      | inr message => catch message w1
      | inl d =>
          let p := page w1 in
          let w2 :=
            with_page
              {| kw_date := utf16 "기준일: " ++ JsString.slice 0 4 d ++ utf16 "-"
                            ++ JsString.slice 4 6 d ++ utf16 "-"
                            ++ JsString.slice 6 8 d;
                 kw_status_class := kw_status_class p;
                 kw_status_text := kw_status_text p;
                 kw_status_display := kw_status_display p;
                 kw_table_wrap_display := kw_table_wrap_display p;
                 kw_sector_options := kw_sector_options p ++ sectors rows;
                 kw_count := kw_count p;
                 kw_thead := kw_thead p;
                 kw_tbody := kw_tbody p |} w1 in
          let w3 := buildHeader w2 in
          let p3 := page w3 in
          let w4 :=
            with_page
              {| kw_date := kw_date p3;
                 kw_status_class := kw_status_class p3;
                 kw_status_text := kw_status_text p3;
                 kw_status_display := utf16 "none";
                 kw_table_wrap_display := [];
                 kw_sector_options := kw_sector_options p3;
                 kw_count := kw_count p3;
                 kw_thead := kw_thead p3;
                 kw_tbody := kw_tbody p3 |} w3 in
          render w4
      end
  end.

(** The state once the script has run: the listeners are registered and
    [init] has issued its request.  The page is the one of the
    template, with an empty header row. *)
Definition boot (c : Controls) (p : Page) : Widget :=
  {| allRows := [];
     sortKey := utf16 "시가총액(억)";
     sortAsc := false;
     controls := c;
     page :=
       {| kw_date := kw_date p; kw_status_class := kw_status_class p;
          kw_status_text := kw_status_text p;
          kw_status_display := kw_status_display p;
          kw_table_wrap_display := kw_table_wrap_display p;
          kw_sector_options := kw_sector_options p;
          kw_count := kw_count p;
          kw_thead := [];
          kw_tbody := kw_tbody p |};
     requests := [DATA_URL];
     pending := true |}.

(** *** Events *)

Inductive Event : Type :=
| SectorChange (v : jsstring)
| SearchInput (v : jsstring)
| PerMinInput (v : jsstring)
| PerMaxInput (v : jsstring)
| PbrMinInput (v : jsstring)
| PbrMaxInput (v : jsstring)
| CapMinInput (v : jsstring)
| HeaderClick (i : nat)
| ResetClick
| FetchSettled (res : FetchResult).

(** What the user's edit leaves in the controls before the listener
    runs. *)
Definition edit (e : Event) (c : Controls) : Controls :=
  match e with
  | SectorChange v =>
      {| kw_sector := v; kw_search := kw_search c;
         kw_per_min := kw_per_min c; kw_per_max := kw_per_max c;
         kw_pbr_min := kw_pbr_min c; kw_pbr_max := kw_pbr_max c;
         kw_cap_min := kw_cap_min c |}
  | SearchInput v =>
      {| kw_sector := kw_sector c; kw_search := v;
         kw_per_min := kw_per_min c; kw_per_max := kw_per_max c;
         kw_pbr_min := kw_pbr_min c; kw_pbr_max := kw_pbr_max c;
         kw_cap_min := kw_cap_min c |}
  | PerMinInput v =>
      {| kw_sector := kw_sector c; kw_search := kw_search c;
         kw_per_min := v; kw_per_max := kw_per_max c;
         kw_pbr_min := kw_pbr_min c; kw_pbr_max := kw_pbr_max c;
         kw_cap_min := kw_cap_min c |}
  | PerMaxInput v =>
      {| kw_sector := kw_sector c; kw_search := kw_search c;
         kw_per_min := kw_per_min c; kw_per_max := v;
         kw_pbr_min := kw_pbr_min c; kw_pbr_max := kw_pbr_max c;
         kw_cap_min := kw_cap_min c |}
  | PbrMinInput v =>
      {| kw_sector := kw_sector c; kw_search := kw_search c;
         kw_per_min := kw_per_min c; kw_per_max := kw_per_max c;
         kw_pbr_min := v; kw_pbr_max := kw_pbr_max c;
         kw_cap_min := kw_cap_min c |}
  | PbrMaxInput v =>
      {| kw_sector := kw_sector c; kw_search := kw_search c;
         kw_per_min := kw_per_min c; kw_per_max := kw_per_max c;
         kw_pbr_min := kw_pbr_min c; kw_pbr_max := v;
         kw_cap_min := kw_cap_min c |}
  | CapMinInput v =>
      {| kw_sector := kw_sector c; kw_search := kw_search c;
         kw_per_min := kw_per_min c; kw_per_max := kw_per_max c;
         kw_pbr_min := kw_pbr_min c; kw_pbr_max := kw_pbr_max c;
         kw_cap_min := v |}
  | _ => c
  end.

(** One event, run to completion. *)
Definition handle (e : Event) (w : Widget) : Widget :=
  match e with
  | HeaderClick i =>
      match nth_error (kw_thead (page w)) i with
      | Some th =>
          match th_click th with
          | Some col => on_click col w
          | None => w
          end
      | None => w
      end
  | ResetClick => on_reset w
  | FetchSettled res =>
      if pending w then init_resume res (settled w) else w
  | _ => render (with_controls (edit e (controls w)) w)
  end.

Definition run (w : Widget) (es : list Event) : Widget :=
  fold_left (fun w e => handle e w) es w.

End Widget.

(* ================================================================== *)
(** ** A reference host

    Case mapping and collation as every CLDR locale has them on ASCII
    letters and digits: strings compare by their letters without regard
    to case first, and a lower-case letter sorts before its upper-case
    one; other code units keep their case and compare by code unit.
    The collation compares sort keys: the case-folded units (shifted by
    one, so that the terminator 0 sorts first), then one case weight
    per unit. *)

Definition ascii_lower (c : N) : N :=
  if ((65 <=? c) && (c <=? 90))%N then (c + 32)%N else c.

Definition case_weight (c : N) : N :=
  if ((65 <=? c) && (c <=? 90))%N then 1%N else 0%N.

Definition sort_key (s : jsstring) : jsstring :=
  map (fun c => (ascii_lower c + 1)%N) s ++ [0%N] ++ map case_weight s.

#[export] Instance ascii_locale : Locale := {|
  toLowerCase := map ascii_lower;
  toLowerCase_empty := eq_refl;
  localeCompare := fun s t => JsString.compare (sort_key s) (sort_key t)
|}.

(* ================================================================== *)
(** * Vocabulary of the specification *)

(** ** The filter *)

(** The bound a numeric control holds: none when its text does not
    start with a numeral. *)
Definition bound (s : jsstring) : option number :=
  match parseFloat s with
  | Number.NaN => None
  | x => Some x
  end.

(** [x] is not below [lo], and not above [hi]: in range, or NaN. *)
Definition at_least (lo x : number) : Prop :=
  Number.isNaN x = true \/ Number.leb lo x = true.

Definition at_most (hi x : number) : Prop :=
  Number.isNaN x = true \/ Number.leb x hi = true.

Section FilterVocabulary.

Context {L : Locale}.

(** The search text the filter works with. *)
Definition search_text (c : Controls) : jsstring :=
  toLowerCase (JsString.trim (kw_search c)).

Definition sector_ok (c : Controls) (r : Row) : Prop :=
  kw_sector c <> [] -> sector r = Some (kw_sector c).

Definition search_ok (c : Controls) (r : Row) : Prop :=
  search_text c <> [] ->
  JsString.occurs_in (search_text c) (toLowerCase (name r)).

Definition per_ok (c : Controls) (r : Row) : Prop :=
  (forall lo, bound (kw_per_min c) = Some lo -> at_least lo (PER r)) /\
  (forall hi, bound (kw_per_max c) = Some hi -> at_most hi (PER r)).

Definition pbr_ok (c : Controls) (r : Row) : Prop :=
  (forall lo, bound (kw_pbr_min c) = Some lo -> at_least lo (PBR r)) /\
  (forall hi, bound (kw_pbr_max c) = Some hi -> at_most hi (PBR r)).

Definition cap_ok (c : Controls) (r : Row) : Prop :=
  forall m, bound (kw_cap_min c) = Some m ->
  at_least (Number.mul m (Number.of_N 10000)) (marketCap r).

(** A row passes when every active constraint holds. *)
Definition passes (c : Controls) (r : Row) : Prop :=
  sector_ok c r /\ search_ok c r /\ per_ok c r /\ pbr_ok c r /\ cap_ok c r.

(** The constraints as the specification words them: the search text
    as entered, and every bounded value inside its bounds. *)
Definition passes_as_stated (c : Controls) (r : Row) : Prop :=
  sector_ok c r /\
  (kw_search c <> [] ->
   JsString.occurs_in (toLowerCase (kw_search c)) (toLowerCase (name r))) /\
  (forall lo, bound (kw_per_min c) = Some lo -> Number.leb lo (PER r) = true) /\
  (forall hi, bound (kw_per_max c) = Some hi -> Number.leb (PER r) hi = true) /\
  (forall lo, bound (kw_pbr_min c) = Some lo -> Number.leb lo (PBR r) = true) /\
  (forall hi, bound (kw_pbr_max c) = Some hi -> Number.leb (PBR r) hi = true) /\
  (forall m, bound (kw_cap_min c) = Some m ->
   Number.leb (Number.mul m (Number.of_N 10000)) (marketCap r) = true).

End FilterVocabulary.

Definition with_per_bounds (lo hi : jsstring) (c : Controls) : Controls :=
  {| kw_sector := kw_sector c; kw_search := kw_search c;
     kw_per_min := lo; kw_per_max := hi;
     kw_pbr_min := kw_pbr_min c; kw_pbr_max := kw_pbr_max c;
     kw_cap_min := kw_cap_min c |}.

Definition with_pbr_bounds (lo hi : jsstring) (c : Controls) : Controls :=
  {| kw_sector := kw_sector c; kw_search := kw_search c;
     kw_per_min := kw_per_min c; kw_per_max := kw_per_max c;
     kw_pbr_min := lo; kw_pbr_max := hi;
     kw_cap_min := kw_cap_min c |}.

(** ** Header and sort key *)

(** The keys of the sortable columns. *)
Definition sortable_keys : list jsstring := map key (filter sortable COLS).

(** The listener of each header cell: the one [buildHeader] registers
    for its column. *)
Definition listener (col : Col) : option Col :=
  if sortable col then Some col else None.

Definition header_built (w : Widget) : Prop :=
  map th_click (kw_thead (page w)) = map listener COLS.

(** The states the widget goes through. *)
Inductive reachable `{L : Locale} : Widget -> Prop :=
| reach_boot c p : reachable (boot c p)
| reach_step w e : reachable w -> reachable (handle e w).

(** Every listener of the header row belongs to a sortable column. *)
Definition listeners_sortable (ls : list (option Col)) : Prop :=
  forall col, In (Some col) ls -> In col COLS /\ sortable col = true.

(** The invariant: the sort key is a sortable column, and so is the
    column of every listener; the header row is empty until the load
    has succeeded, and complete from then on. *)
Definition invariant (w : Widget) : Prop :=
  In (sortKey w) sortable_keys
  /\ listeners_sortable (map th_click (kw_thead (page w)))
  /\ (pending w = true -> kw_thead (page w) = [])
  /\ (kw_thead (page w) = [] \/ header_built w).

(** ** Loading *)

(** The failures of the load, each with its reason: the fetch is
    rejected with a message; the status of the response is not from
    200 to 299, the reason being "HTTP error: " and the status; the
    body of a response with such a status does not parse, with the
    message of the parser; or it parses and its date cannot be sliced,
    with the message of that error. *)
Inductive failure : FetchResult -> jsstring -> Prop :=
| network_error message : failure (NetworkError message) message
| http_status status body :
    (status < 200 \/ 299 < status)%N ->
    failure (Response status body)
      (utf16 "HTTP error: " ++ JsString.decimal status)
| malformed_body status message :
    (200 <= status <= 299)%N ->
    failure (Response status (Malformed message)) message
| unusable_date status message rows :
    (200 <= status <= 299)%N ->
    failure (Response status (Undated message rows)) message.

(** What no event but the end of the request changes. *)
Definition static (w : Widget) :=
  (allRows w, requests w, pending w,
   (kw_date (page w), kw_sector_options (page w)),
   (kw_status_class (page w), kw_status_text (page w),
    kw_status_display (page w), kw_table_wrap_display (page w))).

(** ** Sorting *)

(** Every key of the column is a number other than NaN. *)
Definition numeric_column (k : jsstring) (rows : list Row) : Prop :=
  forall r, In r rows ->
  exists x, get r k = VNumber x /\ Number.isNaN x = false.

(** No key of the column is a number. *)
Definition textual_column (k : jsstring) (rows : list Row) : Prop :=
  forall r, In r rows -> forall x, get r k <> VNumber x.

Definition homogeneous (k : jsstring) (rows : list Row) : Prop :=
  numeric_column k rows \/ textual_column k rows.

(** [a] comes before [b] in [l]. *)
Definition before (a b : Row) (l : list Row) : Prop :=
  exists l1 l2 l3, l = l1 ++ a :: l2 ++ b :: l3.

Section SortVocabulary.

Context {L : Locale}.

(** The order of two keys of one kind: numbers by value, everything
    else by the collation of its string. *)
Definition key_le (a b : value) : Prop :=
  match a, b with
  | VNumber x, VNumber y => Number.leb x y = true
  | VNumber _, _ => False
  | _, VNumber _ => False
  | _, _ => localeCompare (ToString a) (ToString b) <> Gt
  end.

Definition key_lt (a b : value) : Prop := key_le a b /\ ~ key_le b a.

End SortVocabulary.

(** ** Cells *)

(** The characters of a number in the decimal format. *)
Definition numeral_char (c : N) : Prop :=
  JsString.digit c \/ c = 44%N \/ c = 45%N \/ c = 46%N.

(** ** The Standard Library's IEEE 754 specification, for reference *)

(** A binary64 value as the [spec_float] with its canonical 53-bit
    significand. *)
Definition to_spec (x : number) : spec_float :=
  match x with
  | Number.NaN => S754_nan
  | Number.Inf neg => S754_infinity neg
  | Number.Fin neg k =>
      let d := (N.log2 k + 1 - 53)%N in
      match N.shiftr k d with
      | Npos m => S754_finite neg m (Z.of_N d - 1074)%Z
      | N0 => S754_zero neg
      end
  end.

Definition same_float (x y : spec_float) : bool :=
  match x, y with
  | S754_nan, S754_nan => true
  | S754_zero a, S754_zero b => Bool.eqb a b
  | S754_infinity a, S754_infinity b => Bool.eqb a b
  | S754_finite a m e, S754_finite b m' e' =>
      Bool.eqb a b && Pos.eqb m m' && Z.eqb e e'
  | _, _ => false
  end.

Definition same_order (c : option comparison) (c' : option comparison) : bool :=
  match c, c' with
  | Some Lt, Some Lt | Some Eq, Some Eq | Some Gt, Some Gt | None, None => true
  | _, _ => false
  end.

(** 12345, 10000, 1.5, -0.1, 2e-320 (subnormal), 1.7e308, both zeros,
    the least subnormal, infinity and NaN. *)
Definition checked_values : list number :=
  [Number.of_N 12345; Number.of_N 10000;
   Number.of_decimal false 15 (-1); Number.of_decimal true 1 (-1);
   Number.of_decimal false 2 (-320); Number.of_decimal false 17 307;
   Number.zero; Number.Fin true 0; Number.Fin false 1;
   Number.Inf false; Number.NaN].

Definition checked_pairs : list (number * number) :=
  flat_map (fun x => map (fun y => (x, y)) checked_values) checked_values.

(** ** Rows with one key, the header row, narrowing edits *)

(** Two numbers, and two keys, that are the same value. *)
Definition same_number (x y : number) : bool :=
  match x, y with
  | Number.NaN, Number.NaN => true
  | Number.Inf a, Number.Inf b => Bool.eqb a b
  | Number.Fin a k, Number.Fin b k' => Bool.eqb a b && (k =? k')%N
  | _, _ => false
  end.

Definition same_value (v v' : value) : bool :=
  match v, v' with
  | VUndefined, VUndefined => true
  | VNumber x, VNumber y => same_number x y
  | VString s, VString s' => JsString.eqb s s'
  | _, _ => false
  end.

(** The rows whose key under column [k] is [v]. *)
Definition with_key (k : jsstring) (v : value) (rows : list Row) : list Row :=
  filter (fun r => same_value (get r k) v) rows.

(** The arrow of the header cell of a column. *)
Definition glyph (sortKey : jsstring) (sortAsc : bool) (col : Col) : jsstring :=
  if JsString.eqb (key col) sortKey then
    if sortAsc then utf16 " ▲" else utf16 " ▼"
  else utf16 " ▲▼".

(** The header row for a sort key and a direction. *)
Definition header_cell (sortKey : jsstring) (sortAsc : bool) (col : Col) : Th :=
  {| th_left := JsString.eqb (align col) (utf16 "left");
     th_label := label col;
     th_arrow := if sortable col then Some (glyph sortKey sortAsc col) else None;
     th_click := listener col;
     th_sorted := JsString.eqb (key col) sortKey |}.

Definition header_of (sortKey : jsstring) (sortAsc : bool) : list Th :=
  map (header_cell sortKey sortAsc) COLS.

(** The new text of a minimum sets a bound that is not lower, and the
    new text of a maximum one that is not higher. *)
Definition no_lower (old new : jsstring) : Prop :=
  forall lo, bound old = Some lo ->
  exists lo', bound new = Some lo' /\ Number.leb lo lo' = true.

Definition no_higher (old new : jsstring) : Prop :=
  forall hi, bound old = Some hi ->
  exists hi', bound new = Some hi' /\ Number.leb hi' hi = true.

(** An edit that narrows the filter: a sector chosen where none was,
    a search text that contains the one before, a raised minimum or a
    lowered maximum of a ratio. *)
Definition narrows `{L : Locale} (c : Controls) (e : Event) : Prop :=
  match e with
  | SectorChange v => kw_sector c = []
  | SearchInput v => JsString.occurs_in (search_text c) (search_text (edit e c))
  | PerMinInput v => no_lower (kw_per_min c) v
  | PerMaxInput v => no_higher (kw_per_max c) v
  | PbrMinInput v => no_lower (kw_pbr_min c) v
  | PbrMaxInput v => no_higher (kw_pbr_max c) v
  | _ => False
  end.

(** ** Sample data *)

(** A page without content and controls without input. *)
Definition blank_page : Page :=
  {| kw_date := []; kw_status_class := []; kw_status_text := [];
     kw_status_display := []; kw_table_wrap_display := utf16 "none";
     kw_sector_options := [[]]; kw_count := [];
     kw_thead := []; kw_tbody := [] |}.

Definition no_input : Controls :=
  {| kw_sector := []; kw_search := []; kw_per_min := []; kw_per_max := [];
     kw_pbr_min := []; kw_pbr_max := []; kw_cap_min := [] |}.

Definition samsung : Row :=
  {| ticker := utf16 "005930"; name := utf16 "Samsung";
     sector := Some (utf16 "IT");
     marketCap := Number.of_N 4000000;
     PER := Number.of_N 12; PBR := Number.of_N 1;
     EPS := Some (Number.of_N 5000); BPS := Some (Number.of_N 40000) |}.

(** The search box holds " sam"; the one row is "Samsung". *)
Definition searching_sam : Widget :=
  handle (SearchInput (utf16 " sam"))
    (handle (FetchSettled (Response 200 (Parsed (utf16 "20240131") [samsung])))
       (boot no_input blank_page)).

(** A row without an EPS and with a PBR of 0.5. *)
Definition hynix : Row :=
  {| ticker := utf16 "000660"; name := utf16 "SK hynix";
     sector := Some (utf16 "IT");
     marketCap := Number.of_N 900000;
     PER := Number.of_N 8; PBR := Number.of_decimal false 5 (-1);
     EPS := None; BPS := Some (Number.of_N 70000) |}.

(** The same row with a PER that is NaN. *)
Definition no_per : Row :=
  {| ticker := ticker hynix; name := name hynix; sector := sector hynix;
     marketCap := marketCap hynix;
     PER := Number.NaN; PBR := PBR hynix;
     EPS := EPS hynix; BPS := BPS hynix |}.

(** The PBR minimum is 1, every other control is empty. *)
Definition pbr_from_1 : Controls :=
  with_pbr_bounds (utf16 "1") [] no_input.

(** The dataset of one row, loaded. *)
Definition loaded_samsung : Widget :=
  handle (FetchSettled (Response 200 (Parsed (utf16 "20240131") [samsung])))
    (boot no_input blank_page).

Definition in_sector (s : string) (r : Row) : Row :=
  {| ticker := ticker r; name := name r; sector := Some (utf16 s);
     marketCap := marketCap r; PER := PER r; PBR := PBR r;
     EPS := EPS r; BPS := BPS r |}.

Definition naver : Row :=
  {| ticker := utf16 "035420"; name := utf16 "NAVER";
     sector := Some (utf16 "IT");
     marketCap := Number.of_N 300000;
     PER := Number.of_N 30; PBR := Number.of_N 2;
     EPS := Some (Number.of_N 7000); BPS := None |}.

(** Three rows, of which the second has no EPS, loaded. *)
Definition three_rows : Widget :=
  handle (FetchSettled
            (Response 200
               (Parsed (utf16 "20240131") [samsung; hynix; naver])))
    (boot no_input blank_page).

(** A market capitalization of 9999.5. *)
Definition cap_9999_5 : number := Number.of_decimal false 99995 (-1).

(** An EPS of 1234.5. *)
Definition eps_1234_5 : number := Number.of_decimal false 12345 (-1).

(* ================================================================== *)
(** * Properties *)

(** ** The built-ins on known values *)

(** On the checked values the arithmetic and the comparison are those
    of the Standard Library's specification of IEEE 754. *)
Example arithmetic_agrees_with_SpecFloat :
  forallb (fun p =>
    same_float (to_spec (Number.add (fst p) (snd p)))
      (SFadd 53 1024 (to_spec (fst p)) (to_spec (snd p)))
    && same_float (to_spec (Number.sub (fst p) (snd p)))
         (SFsub 53 1024 (to_spec (fst p)) (to_spec (snd p)))
    && same_float (to_spec (Number.mul (fst p) (snd p)))
         (SFmul 53 1024 (to_spec (fst p)) (to_spec (snd p)))
    && same_float (to_spec (Number.div (fst p) (snd p)))
         (SFdiv 53 1024 (to_spec (fst p)) (to_spec (snd p)))
    && same_order (Number.compare (fst p) (snd p))
         (SFcompare (to_spec (fst p)) (to_spec (snd p))))
    checked_pairs = true.
Proof. vm_compute. reflexivity. Qed.

Example parseFloat_known :
  parseFloat [] = Number.NaN
  /\ parseFloat (utf16 "abc") = Number.NaN
  /\ parseFloat (utf16 " 12.5abc") = Number.of_decimal false 125 (-1)
  /\ parseFloat (utf16 "1e3") = Number.of_N 1000
  /\ parseFloat (utf16 ".5") = Number.of_decimal false 5 (-1)
  /\ parseFloat (utf16 "-0") = Number.Fin true 0
  /\ parseFloat (utf16 "Infinity") = Number.Inf false.
Proof. vm_compute. repeat split. Qed.

Example toString_known :
  Number.toString
    (Number.add (Number.of_decimal false 1 (-1)) (Number.of_decimal false 2 (-1)))
  = utf16 "0.30000000000000004"
  /\ Number.toString (Number.of_N 500) = utf16 "500"
  /\ Number.toString (Number.of_decimal false 1 21) = utf16 "1e+21"
  /\ Number.toString (Number.of_decimal true 15 (-8)) = utf16 "-1.5e-7".
Proof. vm_compute. repeat split. Qed.

Example toFixed_known :
  Number.toFixed 2 (Number.of_decimal false 1005 (-3)) = utf16 "1.00"
  /\ Number.toFixed 1 (Number.of_decimal false 125 (-2)) = utf16 "1.3"
  /\ Number.toFixed 2 (Number.of_N 12) = utf16 "12.00"
  /\ Number.toFixed 1 (Number.of_decimal true 4 (-2)) = utf16 "-0.0"
  /\ Number.toFixed 2 Number.NaN = utf16 "NaN".
Proof. vm_compute. repeat split. Qed.

Example toLocaleString_known :
  Number.toLocaleString (Number.of_decimal false 1234567891 (-3))
  = utf16 "1,234,567.891"
  /\ Number.toLocaleString (Number.of_N 999) = utf16 "999"
  /\ Number.toLocaleString (Number.of_decimal false 15 (-1)) = utf16 "1.5"
  /\ Number.toLocaleString (Number.of_decimal true 12345 0) = utf16 "-12,345"
  /\ Number.toLocaleString (Number.of_decimal false 10005 (-4)) = utf16 "1.001"
  /\ Number.toLocaleString (Number.of_N (2 ^ 60))
     = utf16 "1,152,921,504,606,847,000"
  /\ Number.toLocaleString (Number.of_decimal false 5 (-4)) = utf16 "0.001"
  /\ Number.toLocaleString (Number.of_decimal false 1 21)
     = utf16 "1,000,000,000,000,000,000,000".
Proof. vm_compute. repeat split. Qed.

(** ** Strings *)

Module JsStringFacts.

Import JsString.

Lemma eqb_eq s1 s2 : eqb s1 s2 = true <-> s1 = s2.
Proof. unfold eqb. destruct (list_eq_dec N.eq_dec s1 s2); split; congruence. Qed.

Lemma eqb_refl s : eqb s s = true.
Proof. now apply eqb_eq. Qed.

Lemma eqb_neq s1 s2 : eqb s1 s2 = false <-> s1 <> s2.
Proof.
  unfold eqb. destruct (list_eq_dec N.eq_dec s1 s2); split; congruence.
Qed.

Lemma truthy_spec s : truthy s = true <-> s <> [].
Proof. destruct s; simpl; split; congruence. Qed.

Lemma starts_with_spec p s :
  starts_with p s = true <-> exists post, s = p ++ post.
Proof.
  revert s. induction p as [|a p IH]; intros s; simpl.
  - split; [intros _; now exists s | reflexivity].
  - destruct s as [|b s].
    + split; [discriminate | intros [post H]; discriminate].
    + rewrite andb_true_iff, N.eqb_eq, IH. split.
      * intros [-> [post ->]]. now exists post.
      * intros [post H]. injection H as -> ->. split; [reflexivity | now exists post].
Qed.

Lemma indexOf_lower_bound s p : (-1 <= indexOf s p)%Z.
Proof.
  induction s as [|a s IH]; simpl.
  - destruct (starts_with p []); lia.
  - destruct (starts_with p (a :: s)); [lia|].
    destruct (indexOf s p =? -1)%Z eqn:E; lia.
Qed.

Lemma occurs_in_cons p a s :
  occurs_in p (a :: s) <-> starts_with p (a :: s) = true \/ occurs_in p s.
Proof.
  rewrite starts_with_spec. split.
  - intros [[|b pre] [post H]]; simpl in H.
    + left. now exists post.
    + right. injection H as _ ->. now exists pre, post.
  - intros [[post H] | [pre [post H]]].
    + now exists [], post.
    + exists (a :: pre), post. simpl. now rewrite H.
Qed.

(** [indexOf] answers -1 exactly when there is no occurrence. *)
Lemma indexOf_none s p : indexOf s p = (-1)%Z <-> ~ occurs_in p s.
Proof.
  induction s as [|a s IH].
  - simpl. destruct (starts_with p []) eqn:E.
    + split; [discriminate|]. intros H. exfalso. apply H.
      apply starts_with_spec in E. destruct E as [post E]. now exists [], post.
    + split; [intros _|reflexivity]. intros [pre [post H]].
      destruct pre; [|discriminate]. simpl in H.
      assert (starts_with p [] = true) by (apply starts_with_spec; now exists post).
      congruence.
  - rewrite occurs_in_cons. simpl.
    destruct (starts_with p (a :: s)) eqn:E.
    + split; [discriminate|]. intros H. exfalso. apply H. now left.
    + pose proof (indexOf_lower_bound s p) as Hlb.
      destruct (indexOf s p =? -1)%Z eqn:Ei.
      * apply Z.eqb_eq in Ei. split; [intros _|reflexivity].
        intros [H|H]; [discriminate|]. now apply IH.
      * apply Z.eqb_neq in Ei. split; [lia|].
        intros H. exfalso. apply Ei, IH. intros Ho. apply H. now right.
Qed.

Lemma indexOf_found s p : indexOf s p <> (-1)%Z -> occurs_in p s.
Proof.
  induction s as [|a s IH].
  - simpl. destruct (starts_with p []) eqn:E; [|congruence].
    intros _. apply starts_with_spec in E. destruct E as [post E].
    now exists [], post.
  - intros H. apply occurs_in_cons. simpl in H.
    destruct (starts_with p (a :: s)); [now left|]. right.
    destruct (indexOf s p =? -1)%Z eqn:Ei; [congruence|].
    apply IH. now apply Z.eqb_neq.
Qed.

(** The code-unit order is a total order. *)
Lemma compare_refl s : compare s s = Eq.
Proof. induction s as [|a s IH]; simpl; [reflexivity|]. now rewrite N.compare_refl. Qed.

Lemma compare_eq s1 s2 : compare s1 s2 = Eq -> s1 = s2.
Proof.
  revert s2. induction s1 as [|a s1 IH]; intros [|b s2]; simpl; try discriminate.
  - reflexivity.
  - destruct (a ?= b)%N eqn:E; try discriminate.
    apply N.compare_eq in E. intros H. f_equal; auto.
Qed.

Lemma compare_sym s1 s2 : compare s2 s1 = CompOpp (compare s1 s2).
Proof.
  revert s2. induction s1 as [|a s1 IH]; intros [|b s2]; simpl; try reflexivity.
  rewrite (N.compare_antisym a b). destruct (a ?= b)%N; simpl; auto.
Qed.

Lemma compare_trans s1 s2 s3 :
  compare s1 s2 <> Gt -> compare s2 s3 <> Gt -> compare s1 s3 <> Gt.
Proof.
  revert s2 s3.
  induction s1 as [|a s1 IH]; intros [|b s2] [|c s3]; simpl; try congruence.
  destruct (N.compare_spec a b), (N.compare_spec b c);
    try congruence; intros H1 H2;
    destruct (N.compare_spec a c); try lia; try congruence; eauto.
Qed.

End JsStringFacts.

(** ** Numbers *)

Module NumberFacts.

Import Number.

Lemma compare_swap x y : compare y x = option_map CompOpp (compare x y).
Proof.
  destruct x as [|nx|nx kx], y as [|ny|ny ky]; simpl; try reflexivity.
  - now destruct nx, ny.
  - now destruct nx.
  - now destruct ny.
  - now rewrite Z.compare_antisym.
Qed.

(** Every ordered comparison against NaN is false. *)
Lemma ltb_NaN_l y : ltb NaN y = false.
Proof. reflexivity. Qed.

Lemma gtb_NaN_l y : gtb NaN y = false.
Proof. reflexivity. Qed.

Lemma ltb_NaN_r x : ltb x NaN = false.
Proof. now destruct x. Qed.

Lemma gtb_NaN_r x : gtb x NaN = false.
Proof. now destruct x. Qed.

(** Away from NaN, [x < lo] fails exactly when [lo <= x]. *)
Lemma ltb_false_iff x lo :
  isNaN lo = false ->
  (ltb x lo = false <-> isNaN x = true \/ leb lo x = true).
Proof.
  intros Hlo. unfold ltb, leb. rewrite (compare_swap x lo).
  destruct x as [|nx|nx kx], lo as [|nl|nl kl]; simpl in *; try discriminate;
    try (split; [now left | reflexivity]).
  - destruct nx, nl; simpl; split; intros H; try discriminate; auto;
      destruct H; discriminate.
  - destruct nx; simpl; split; intros H; try discriminate; auto;
      destruct H; discriminate.
  - destruct nl; simpl; split; intros H; try discriminate; auto;
      destruct H; discriminate.
  - destruct (signed nx kx ?= signed nl kl)%Z; simpl; split; intros H;
      try discriminate; auto; destruct H; discriminate.
Qed.

Lemma gtb_false_iff x hi :
  isNaN hi = false ->
  (gtb x hi = false <-> isNaN x = true \/ leb x hi = true).
Proof.
  intros Hhi. unfold gtb, leb.
  destruct x as [|nx|nx kx], hi as [|nh|nh kh]; simpl in *; try discriminate;
    try (split; [now left | reflexivity]).
  - destruct nx, nh; simpl; split; intros H; try discriminate; auto;
      destruct H; discriminate.
  - destruct nx; simpl; split; intros H; try discriminate; auto;
      destruct H; discriminate.
  - destruct nh; simpl; split; intros H; try discriminate; auto;
      destruct H; discriminate.
  - destruct (signed nx kx ?= signed nh kh)%Z; simpl; split; intros H;
      try discriminate; auto; destruct H; discriminate.
Qed.

Lemma round_ratio_not_NaN neg a b : isNaN (round_ratio neg a b) = false.
Proof. unfold round_ratio. now destruct (_ <=? _)%N. Qed.

End NumberFacts.

Module NumberOrder.

Import Number.

(** Rounding keeps a positive magnitude positive: the difference of two
    distinct finite numbers is never zero. *)
Lemma round_ratio_pos neg a :
  (0 < a)%N ->
  match round_ratio neg a 1 with
  | Fin n k => n = neg /\ (0 < k)%N
  | Inf n => n = neg
  | NaN => False
  end.
Proof.
  intros Ha. unfold round_ratio.
  rewrite N.div_1_r, N.mul_1_l.
  set (d := (N.log2 a + 1 - 53)%N).
  assert (Hd : (d <= N.log2 a)%N) by (unfold d; lia).
  assert (Hden : (2 ^ d <= a)%N).
  { transitivity (2 ^ N.log2 a)%N.
    - apply N.pow_le_mono_r; [lia | exact Hd].
    - apply N.log2_spec; exact Ha. }
  assert (Hpos : (0 < 2 ^ d)%N) by (apply N.neq_0_lt_0, N.pow_nonzero; lia).
  assert (Hq : (1 <= a / 2 ^ d)%N).
  { apply N.div_le_lower_bound; lia. }
  set (q := (a / 2 ^ d)%N) in *.
  set (q' := match (2 * (a mod 2 ^ d) ?= 2 ^ d)%N with
             | Lt => q
             | Gt => (q + 1)%N
             | Eq => if N.even q then q else (q + 1)%N
             end).
  assert (Hq' : (1 <= q')%N).
  { unfold q'. destruct (_ ?= _)%N; [destruct (N.even q)| |]; lia. }
  destruct (overflow <=? q' * 2 ^ d)%N; [reflexivity|].
  split; [reflexivity|]. nia.
Qed.

Lemma signed_opp n k : signed (negb n) k = (- signed n k)%Z.
Proof. destruct n; simpl; lia. Qed.

Lemma signed_zero n : signed n 0 = 0%Z.
Proof. now destruct n. Qed.

(** The sign of a difference is the outcome of the comparison. *)
Lemma gtb_sub x y :
  isNaN x = false -> isNaN y = false ->
  gtb (sub x y) zero = gtb x y.
Proof.
  destruct x as [|nx|nx kx], y as [|ny|ny ky]; simpl; try discriminate; intros _ _.
  - now destruct nx, ny.
  - now destruct nx.
  - now destruct ny.
  - unfold sub, add, opp, gtb at 2, compare.
    rewrite signed_opp.
    destruct (Z.eqb_spec (signed nx kx + - signed ny ky) 0) as [E|E].
    + unfold gtb, compare, zero. rewrite signed_zero. simpl.
      replace (signed nx kx) with (signed ny ky) by lia.
      now rewrite Z.compare_refl.
    + pose proof (round_ratio_pos
                    (signed nx kx + - signed ny ky <? 0)%Z
                    (a := Z.abs_N (signed nx kx + - signed ny ky))) as H.
      destruct (round_ratio _ _ 1) as [|n|n k].
      * destruct H. lia.
      * rewrite H by lia. unfold gtb, compare, zero.
        destruct (Z.ltb_spec (signed nx kx + - signed ny ky) 0);
          destruct (Z.compare_spec (signed nx kx) (signed ny ky));
          try reflexivity; lia.
      * destruct H as [-> Hk]; [lia|]. unfold gtb, compare, zero.
        destruct (Z.ltb_spec (signed nx kx + - signed ny ky) 0);
          destruct (Z.compare_spec (signed nx kx) (signed ny ky));
          try lia; simpl;
          destruct (Z.compare_spec (- Z.of_N k) 0);
          destruct (Z.compare_spec (Z.of_N k) 0); try reflexivity; lia.
Qed.

(** Away from NaN the comparison is a total order. *)
Lemma gtb_asym x y :
  isNaN x = false -> isNaN y = false -> gtb y x = true -> gtb x y = false.
Proof.
  unfold gtb. rewrite (NumberFacts.compare_swap x y).
  destruct (compare x y) as [[]|]; simpl; congruence.
Qed.

Lemma gtb_false_trans x y z :
  isNaN x = false -> isNaN y = false -> isNaN z = false ->
  gtb x y = false -> gtb y z = false -> gtb x z = false.
Proof.
  unfold gtb.
  destruct x as [|nx|nx kx], y as [|ny|ny ky], z as [|nz|nz kz]; simpl;
    try discriminate; intros _ _ _;
    repeat match goal with
           | n : bool |- _ => destruct n
           end; simpl; try congruence;
    repeat match goal with
           | |- context [(?a ?= ?b)%Z] => destruct (Z.compare_spec a b)
           end; try congruence; lia.
Qed.

Lemma leb_gtb x y :
  isNaN x = false -> isNaN y = false -> leb x y = negb (gtb x y).
Proof.
  unfold leb, gtb.
  destruct x as [|nx|nx kx], y as [|ny|ny ky]; simpl; try discriminate; intros _ _.
  - now destruct nx, ny.
  - now destruct nx.
  - now destruct ny.
  - now destruct (_ ?= _)%Z.
Qed.

Lemma ltb_gtb x y : ltb x y = gtb y x.
Proof.
  unfold ltb, gtb. rewrite (NumberFacts.compare_swap x y).
  now destruct (compare x y) as [[]|].
Qed.

End NumberOrder.

(** ** Sorting *)

Section SortFacts.

Variable A : Type.
Variable comparefn : A -> A -> number.

Lemma insert_perm x l : Permutation (insert comparefn x l) (x :: l).
Proof.
  induction l as [|y ys IH]; simpl; [reflexivity|].
  destruct (after comparefn y x); [|reflexivity].
  rewrite IH. apply perm_swap.
Qed.

Lemma fold_insert_perm l acc :
  Permutation (fold_left (fun p x => insert comparefn x p) l acc) (l ++ acc).
Proof.
  revert acc. induction l as [|x l IH]; intros acc; simpl; [reflexivity|].
  rewrite IH, insert_perm. symmetry. apply Permutation_middle.
Qed.

(** The sorted copy holds the same rows. *)
Lemma sort_perm l : Permutation (sort comparefn l) l.
Proof.
  unfold sort. rewrite <- Permutation_rev, fold_insert_perm.
  now rewrite app_nil_r.
Qed.

(** On elements for which the comparator is consistent. *)
Variable P : A -> Prop.

Hypothesis after_asym : forall x y,
  P x -> P y -> after comparefn y x = true -> after comparefn x y = false.

Hypothesis after_trans : forall x y z,
  P x -> P y -> P z ->
  after comparefn x y = false -> after comparefn y z = false ->
  after comparefn x z = false.

Lemma insert_sorted x l :
  P x -> Forall P l ->
  StronglySorted (fun y z => after comparefn z y = false) l ->
  StronglySorted (fun y z => after comparefn z y = false) (insert comparefn x l).
Proof.
  intros Px. induction l as [|y ys IH]; intros HP HS; simpl.
  - constructor; constructor.
  - inversion HP as [|? ? Py Pys]; subst.
    inversion HS as [|? ? HSys Hy]; subst.
    destruct (after comparefn y x) eqn:E.
    + constructor; [now apply IH|].
      apply (Permutation_Forall (Permutation_sym (insert_perm x ys))).
      constructor; [now apply after_asym | exact Hy].
    + constructor; [exact HS|].
      constructor; [exact E|].
      rewrite Forall_forall in *. intros z Hz.
      apply after_trans with y; auto.
Qed.

Lemma fold_insert_sorted l acc :
  Forall P l -> Forall P acc ->
  StronglySorted (fun y z => after comparefn z y = false) acc ->
  StronglySorted (fun y z => after comparefn z y = false)
    (fold_left (fun p x => insert comparefn x p) l acc).
Proof.
  revert acc. induction l as [|x l IH]; intros acc Hl Hacc HS; simpl; [exact HS|].
  inversion Hl; subst. apply IH; auto.
  - apply (Permutation_Forall (Permutation_sym (insert_perm x acc))).
    now constructor.
  - now apply insert_sorted.
Qed.

Lemma StronglySorted_snoc (R : A -> A -> Prop) l x :
  StronglySorted R l -> Forall (fun y => R y x) l -> StronglySorted R (l ++ [x]).
Proof.
  induction 1 as [|a l HS IH Ha]; intros Hx; simpl.
  - constructor; constructor.
  - inversion Hx; subst. constructor; [now apply IH|].
    apply Forall_app. split; [exact Ha | now constructor].
Qed.

Lemma StronglySorted_rev (R : A -> A -> Prop) l :
  StronglySorted R l -> StronglySorted (fun x y => R y x) (rev l).
Proof.
  induction 1 as [|a l HS IH Ha]; simpl; [constructor|].
  apply StronglySorted_snoc; [exact IH|]. now apply Forall_rev.
Qed.

(** No row of the sorted copy comes before a row the comparator puts
    before it. *)
Lemma sort_sorted l :
  Forall P l ->
  StronglySorted (fun x y => after comparefn x y = false) (sort comparefn l).
Proof.
  intros Hl. unfold sort.
  apply (StronglySorted_rev
           (R := fun y z => after comparefn z y = false)).
  apply fold_insert_sorted; auto; constructor.
Qed.

End SortFacts.

(** ** The filter *)

Section FilterSpec.

Context {L : Locale}.

Lemma get_sector r : get r (utf16 "섹터") = of_option_string (sector r).
Proof. reflexivity. Qed.

Lemma get_EPS r : get r (utf16 "EPS") = of_option_number (EPS r).
Proof. reflexivity. Qed.

Lemma get_BPS r : get r (utf16 "BPS") = of_option_number (BPS r).
Proof. reflexivity. Qed.

Lemma bound_spec s lo :
  bound s = Some lo <-> parseFloat s = lo /\ Number.isNaN lo = false.
Proof.
  unfold bound. destruct (parseFloat s); split.
  - discriminate.
  - intros [<- H]. discriminate.
  - intros [= <-]. auto.
  - intros [<- _]. reflexivity.
  - intros [= <-]. auto.
  - intros [<- _]. reflexivity.
Qed.

Lemma check_sector c r :
  JsString.truthy (kw_sector c) && differs (get r (utf16 "섹터")) (kw_sector c) = false
  <-> sector_ok c r.
Proof.
  rewrite get_sector. unfold sector_ok.
  destruct (kw_sector c) as [|a s] eqn:E; simpl.
  - split; [congruence | reflexivity].
  - destruct (sector r) as [s'|]; simpl.
    + rewrite negb_false_iff, JsStringFacts.eqb_eq. split.
      * intros -> _. reflexivity.
      * intros H. specialize (H ltac:(discriminate)). congruence.
    + split; [discriminate|]. intros H. specialize (H ltac:(discriminate)). discriminate.
Qed.

Lemma check_search c r :
  JsString.truthy (search_text c)
  && (JsString.indexOf (toLowerCase (name r)) (search_text c) =? -1)%Z = false
  <-> search_ok c r.
Proof.
  unfold search_ok.
  destruct (JsString.truthy (search_text c)) eqn:E; simpl.
  - apply JsStringFacts.truthy_spec in E. rewrite Z.eqb_neq. split.
    + intros H _. now apply JsStringFacts.indexOf_found.
    + intros H Hi. apply JsStringFacts.indexOf_none in Hi. auto.
  - split; [|reflexivity]. intros _ H.
    destruct (search_text c); [congruence | discriminate].
Qed.

Lemma check_min s x :
  negb (isNaN (parseFloat s)) && Number.ltb x (parseFloat s) = false
  <-> (forall lo, bound s = Some lo -> at_least lo x).
Proof.
  unfold at_least, isNaN. split.
  - intros H lo Hb. apply bound_spec in Hb as [<- Hn].
    rewrite Hn in H. simpl in H. now apply NumberFacts.ltb_false_iff.
  - intros H. destruct (Number.isNaN (parseFloat s)) eqn:E; simpl; [reflexivity|].
    apply NumberFacts.ltb_false_iff; [exact E|]. apply H. now apply bound_spec.
Qed.

Lemma check_max s x :
  negb (isNaN (parseFloat s)) && Number.gtb x (parseFloat s) = false
  <-> (forall hi, bound s = Some hi -> at_most hi x).
Proof.
  unfold at_most, isNaN. split.
  - intros H hi Hb. apply bound_spec in Hb as [<- Hn].
    rewrite Hn in H. simpl in H. now apply NumberFacts.gtb_false_iff.
  - intros H. destruct (Number.isNaN (parseFloat s)) eqn:E; simpl; [reflexivity|].
    apply NumberFacts.gtb_false_iff; [exact E|]. apply H. now apply bound_spec.
Qed.

(** The capitalization minimum is set exactly when its control holds a
    numeral: the product with 10000 is NaN only for NaN. *)
Lemma isNaN_mul_10000 x :
  Number.isNaN (Number.mul x (Number.of_N 10000)) = Number.isNaN x.
Proof.
  remember (Number.of_N 10000) as T eqn:HT. vm_compute in HT. subst T.
  destruct x as [|n|n k]; try reflexivity.
  unfold Number.mul. apply NumberFacts.round_ratio_not_NaN.
Qed.

Lemma check_cap s x :
  negb (isNaN (Number.mul (parseFloat s) (Number.of_N 10000)))
  && Number.ltb x (Number.mul (parseFloat s) (Number.of_N 10000)) = false
  <-> (forall m, bound s = Some m ->
       at_least (Number.mul m (Number.of_N 10000)) x).
Proof.
  unfold at_least, isNaN. rewrite isNaN_mul_10000. split.
  - intros H m Hb. apply bound_spec in Hb as [<- Hn].
    rewrite Hn in H. simpl in H.
    apply NumberFacts.ltb_false_iff; [|exact H]. now rewrite isNaN_mul_10000.
  - intros H. destruct (Number.isNaN (parseFloat s)) eqn:E; simpl; [reflexivity|].
    apply NumberFacts.ltb_false_iff; [now rewrite isNaN_mul_10000|].
    apply H. now apply bound_spec.
Qed.

(** The predicate of the filter holds exactly for the rows that pass. *)
Lemma keep_spec c r : keep c r = true <-> passes c r.
Proof.
  unfold passes, per_ok, pbr_ok, cap_ok.
  rewrite <- check_sector, <- check_search, <- !check_min, <- !check_max,
    <- check_cap.
  unfold keep. cbv zeta. fold (search_text c).
  repeat match goal with
         | |- context [if ?b then false else _] => destruct b
         end; simpl; intuition congruence.
Qed.

Lemma visible_rows_perm w :
  Permutation (visible_rows w) (filter (keep (controls w)) (allRows w)).
Proof.
  unfold visible_rows. destruct (_ && _); [apply sort_perm | reflexivity].
Qed.

Lemma mapi_from_length {A B : Type} (f : nat -> A -> B) l i :
  length (mapi_from i f l) = length l.
Proof. revert i. induction l; intros i; simpl; auto. Qed.

End FilterSpec.

(** C1, as the code has it.  The rows [render] puts in the table body
    are the rows of the dataset that pass every active constraint, each
    as often as it occurs in the dataset: the sector equal to the
    selected one; the search text, with the white space around it
    removed, occurring in the name, both in lower case; PER and PBR not
    below the minimum and not above the maximum, market capitalization
    not below 10000 times the entered minimum.  A control without a
    leading numeral sets no bound, and a NaN value passes its bounds. *)
Theorem C1_filter_complete `{L : Locale} (w : Widget) :
  kw_tbody (page (render w)) = mapi tr (visible_rows w)
  /\ Permutation (visible_rows w) (filter (keep (controls w)) (allRows w))
  /\ (forall r, keep (controls w) r = true <-> passes (controls w) r)
  /\ (forall r, In r (visible_rows w)
                <-> In r (allRows w) /\ passes (controls w) r).
Proof.
  split; [reflexivity|]. split; [apply visible_rows_perm|].
  split; [intros r; apply keep_spec|].
  intros r. rewrite <- keep_spec, <- filter_In. split; intros H.
  - apply (Permutation_in _ (visible_rows_perm w) H).
  - apply (Permutation_in _ (Permutation_sym (visible_rows_perm w)) H).
Qed.

(** C1 as stated fails: with " sam" in the search box the row "Samsung"
    is shown, though " sam", as entered, does not occur in "samsung". *)
Lemma C1_search_text_is_trimmed :
  ~ (forall r, In r (visible_rows searching_sam)
               <-> In r (allRows searching_sam)
                   /\ passes_as_stated (controls searching_sam) r).
Proof.
  intros H. destruct (H samsung) as [H1 _].
  assert (Hin : In samsung (visible_rows searching_sam)).
  { vm_compute. left. reflexivity. }
  destruct (H1 Hin) as [_ [_ [Hs _]]].
  assert (Hne : kw_search (controls searching_sam) <> []) by (vm_compute; discriminate).
  apply Hs in Hne. revert Hne. apply JsStringFacts.indexOf_none.
  vm_compute. reflexivity.
Qed.

(** ** Rows with a NaN ratio *)

Section NaNRows.

Context {L : Locale}.

Lemma per_ok_NaN c r : PER r = Number.NaN -> per_ok c r.
Proof. intros H. unfold per_ok, at_least, at_most. rewrite H. split; intros; now left. Qed.

Lemma pbr_ok_NaN c r : PBR r = Number.NaN -> pbr_ok c r.
Proof. intros H. unfold pbr_ok, at_least, at_most. rewrite H. split; intros; now left. Qed.

Lemma keep_per_NaN c r lo hi :
  PER r = Number.NaN -> keep (with_per_bounds lo hi c) r = keep c r.
Proof.
  intros H. unfold keep. cbv zeta. simpl. rewrite H.
  rewrite !NumberFacts.ltb_NaN_l, !NumberFacts.gtb_NaN_l, !andb_false_r.
  reflexivity.
Qed.

Lemma keep_pbr_NaN c r lo hi :
  PBR r = Number.NaN -> keep (with_pbr_bounds lo hi c) r = keep c r.
Proof.
  intros H. unfold keep. cbv zeta. simpl. rewrite H.
  rewrite !NumberFacts.ltb_NaN_l, !NumberFacts.gtb_NaN_l, !andb_false_r.
  reflexivity.
Qed.

(** What excludes a row is a constraint that fails. *)
Lemma excluded_by c r :
  keep c r = false ->
  ~ sector_ok c r \/ ~ search_ok c r \/ ~ cap_ok c r \/ ~ per_ok c r \/ ~ pbr_ok c r.
Proof.
  unfold per_ok, pbr_ok, cap_ok.
  rewrite <- check_sector, <- check_search, <- !check_min, <- !check_max,
    <- check_cap.
  unfold keep. cbv zeta. fold (search_text c).
  repeat match goal with
         | |- context [if ?b then false else _] => destruct b
         end; simpl; intuition congruence.
Qed.

End NaNRows.

(** C10, as the code has it.  A row whose PER is NaN passes the PER
    minimum and maximum whatever the two controls hold: changing them
    never changes whether the row is kept.  Such a row is excluded only
    by the sector, name, market-capitalization or PBR constraints.  The
    same holds for PBR, with the PER constraints among those that can
    still exclude the row. *)
Theorem C10_nan_passes_own_bounds `{L : Locale} (c : Controls) (r : Row) :
  (PER r = Number.NaN ->
     per_ok c r
     /\ (forall lo hi, keep (with_per_bounds lo hi c) r = keep c r)
     /\ (keep c r = false ->
         ~ sector_ok c r \/ ~ search_ok c r \/ ~ cap_ok c r \/ ~ pbr_ok c r))
  /\ (PBR r = Number.NaN ->
     pbr_ok c r
     /\ (forall lo hi, keep (with_pbr_bounds lo hi c) r = keep c r)
     /\ (keep c r = false ->
         ~ sector_ok c r \/ ~ search_ok c r \/ ~ cap_ok c r \/ ~ per_ok c r)).
Proof.
  split; intros H.
  - split; [now apply per_ok_NaN|]. split; [intros; now apply keep_per_NaN|].
    intros Hk. pose proof (per_ok_NaN c r H).
    destruct (excluded_by c r Hk) as [?|[?|[?|[?|?]]]]; tauto.
  - split; [now apply pbr_ok_NaN|]. split; [intros; now apply keep_pbr_NaN|].
    intros Hk. pose proof (pbr_ok_NaN c r H).
    destruct (excluded_by c r Hk) as [?|[?|[?|[?|?]]]]; tauto.
Qed.

(** C10 as stated fails: a row whose PER is NaN is excluded by the PBR
    minimum, while its sector, name and market capitalization pass. *)
Lemma C10_excluded_by_other_ratio :
  PER no_per = Number.NaN
  /\ keep pbr_from_1 no_per = false
  /\ sector_ok pbr_from_1 no_per
  /\ search_ok pbr_from_1 no_per
  /\ cap_ok pbr_from_1 no_per.
Proof.
  split; [reflexivity|]. split; [vm_compute; reflexivity|].
  split; [|split].
  - intros H. exfalso. apply H. reflexivity.
  - intros H. exfalso. apply H. reflexivity.
  - intros m H. vm_compute in H. discriminate.
Qed.

(** ** Reset *)

Section Reset.

Context {L : Locale}.

(** Without input no row is filtered out. *)
Lemma keep_no_input r : keep no_input r = true.
Proof.
  unfold keep. cbv zeta.
  change (kw_search no_input) with (@nil N).
  change (JsString.trim []) with (@nil N).
  rewrite toLowerCase_empty. reflexivity.
Qed.

Lemma filter_all {A : Type} (f : A -> bool) l :
  (forall x, f x = true) -> filter f l = l.
Proof.
  intros H. induction l as [|x l IH]; simpl; [reflexivity|].
  now rewrite H, IH.
Qed.

End Reset.

(** C3.  In every state, the reset control empties the seven filter
    controls and renders again: the rows shown are the rows of the
    dataset, as many as the dataset has, and the count label says so;
    the sort key, the sort direction and the dataset are what they
    were. *)
Theorem C3_reset_restores_dataset `{L : Locale} (w : Widget) :
  let w' := handle ResetClick w in
  controls w' = no_input
  /\ sortKey w' = sortKey w
  /\ sortAsc w' = sortAsc w
  /\ allRows w' = allRows w
  /\ Permutation (visible_rows w') (allRows w)
  /\ kw_tbody (page w') = mapi tr (visible_rows w')
  /\ length (kw_tbody (page w')) = length (allRows w)
  /\ kw_count (page w')
     = JsString.decimal (N.of_nat (length (allRows w))) ++ utf16 "개 종목".
Proof.
  set (w0 := with_controls no_input w).
  assert (Hperm : Permutation (visible_rows w0) (allRows w)).
  { rewrite (visible_rows_perm w0). simpl.
    rewrite filter_all; [reflexivity | apply keep_no_input]. }
  assert (Hvis : visible_rows (render w0) = visible_rows w0) by reflexivity.
  cbv zeta. change (handle ResetClick w) with (render w0).
  repeat split; try reflexivity.
  - now rewrite Hvis.
  - simpl. unfold mapi. rewrite mapi_from_length.
    apply Permutation_length, Hperm.
  - simpl. now rewrite (Permutation_length Hperm).
Qed.

(** ** Header clicks and the sort key *)

Section Header.

Context {L : Locale}.

Lemma th_click_reflow k asc th col : th_click (reflow k asc th col) = th_click th.
Proof. unfold reflow. now destruct (negb (sortable col)). Qed.

Lemma th_click_reflow_all k asc ths cols :
  map th_click (reflow_all k asc ths cols) = map th_click ths.
Proof.
  revert cols. induction ths as [|th ths IH]; intros [|col cols]; simpl;
    try reflexivity.
  now rewrite th_click_reflow, IH.
Qed.

Lemma th_click_render w :
  map th_click (kw_thead (page (render w))) = map th_click (kw_thead (page w)).
Proof. simpl. apply th_click_reflow_all. Qed.

Lemma th_click_build w :
  map th_click (kw_thead (page (buildHeader w)))
  = map th_click (kw_thead (page w)) ++ map listener COLS.
Proof. simpl. rewrite map_app. reflexivity. Qed.

Lemma listener_sortable : listeners_sortable (map listener COLS).
Proof.
  intros c H. apply in_map_iff in H. destruct H as [col [H Hin]].
  unfold listener in H. destruct (sortable col) eqn:E; [|discriminate].
  injection H as <-. auto.
Qed.

Lemma sortable_key_in col :
  In col COLS -> sortable col = true -> In (key col) sortable_keys.
Proof.
  intros Hin Hs. unfold sortable_keys. apply in_map, filter_In. auto.
Qed.

Lemma invariant_render w : invariant w -> invariant (render w).
Proof.
  intros (Hk & Hl & Hp & Hb). unfold invariant, header_built.
  rewrite th_click_render.
  split; [exact Hk|]. split; [exact Hl|]. split.
  - intros H. simpl in *. now rewrite (Hp H).
  - destruct Hb as [Hb|Hb]; [left | now right].
    simpl. now rewrite Hb.
Qed.

Lemma invariant_boot c p : invariant (boot c p).
Proof.
  split; [vm_compute; tauto|]. split; [intros col []|].
  split; [reflexivity | now left].
Qed.

Lemma invariant_with_sort k asc w :
  In k sortable_keys -> invariant w -> invariant (with_sort k asc w).
Proof. intros Hk (_ & Hl & Hp & Hb). split; [exact Hk|]. now split. Qed.

Lemma invariant_with_controls c w :
  invariant w -> invariant (with_controls c w).
Proof. intros (Hk & Hl & Hp & Hb). split; [exact Hk|]. now split. Qed.

Lemma invariant_on_click col w :
  In col COLS -> sortable col = true -> invariant w -> invariant (on_click col w).
Proof.
  intros Hin Hs Hinv. unfold on_click. apply invariant_render.
  destruct (JsString.eqb (sortKey w) (key col));
    apply invariant_with_sort; auto.
  - apply Hinv.
  - now apply sortable_key_in.
Qed.

Lemma invariant_resume res w :
  invariant w -> pending w = true -> invariant (init_resume res (settled w)).
Proof.
  intros (Hk & Hl & Hp & Hb) Hpend. specialize (Hp Hpend).
  unfold init_resume. destruct (load res) as [message | [[d | message] rows]].
  - split; [exact Hk|]. split; [exact Hl|]. split; [discriminate|].
    left. exact Hp.
  - apply invariant_render.
    split; [exact Hk|]. simpl. rewrite Hp. simpl.
    split; [apply listener_sortable|]. split; [discriminate|].
    right. unfold header_built. simpl. reflexivity.
  - split; [exact Hk|]. split; [exact Hl|]. split; [discriminate|].
    left. exact Hp.
Qed.

Lemma invariant_handle e w : invariant w -> invariant (handle e w).
Proof.
  intros Hinv.
  destruct e; simpl;
    try (apply invariant_render, invariant_with_controls, Hinv).
  - destruct (nth_error (kw_thead (page w)) i) as [th|] eqn:E; [|exact Hinv].
    destruct (th_click th) as [col|] eqn:Ec; [|exact Hinv].
    assert (Hc : In col COLS /\ sortable col = true).
    { apply Hinv. rewrite <- Ec. apply in_map. eapply nth_error_In; eauto. }
    apply invariant_on_click; tauto.
  - destruct (pending w) eqn:Ep; [|exact Hinv].
    now apply invariant_resume.
Qed.

Lemma reachable_invariant w : reachable w -> invariant w.
Proof.
  induction 1; [apply invariant_boot | now apply invariant_handle].
Qed.

End Header.

Section HeaderBuilt.

Context {L : Locale}.

Lemma header_built_handle e w :
  invariant w -> header_built w -> header_built (handle e w).
Proof.
  intros Hinv Hb. unfold header_built in *.
  destruct e; simpl; try (rewrite th_click_reflow_all; exact Hb).
  - destruct (nth_error (kw_thead (page w)) i) as [th|]; [|exact Hb].
    destruct (th_click th) as [col|]; [|exact Hb].
    unfold on_click. rewrite th_click_render.
    now destruct (JsString.eqb (sortKey w) (key col)).
  - destruct (pending w) eqn:Ep; [|exact Hb].
    destruct Hinv as (_ & _ & Hp & _). rewrite (Hp Ep) in Hb. discriminate.
Qed.

(** A successful load builds the header. *)
Lemma header_built_load status d rows w :
  invariant w -> pending w = true -> ok status = true ->
  header_built (handle (FetchSettled (Response status (Parsed d rows))) w).
Proof.
  intros (_ & _ & Hp & _) Hpend Hok. specialize (Hp Hpend).
  unfold header_built. simpl. rewrite Hpend. unfold init_resume. simpl.
  rewrite Hok. simpl. rewrite th_click_reflow_all, Hp. reflexivity.
Qed.

End HeaderBuilt.

(** C5.  Once the header is built, a click on the header cell of a
    sortable column makes that column the sort key.  When it was not
    the sort key before, the direction becomes descending for the
    market-capitalization column and ascending for every other column;
    when it was, the key stays and the direction flips. *)
Theorem C5_header_click `{L : Locale} (w : Widget) (i : nat) (col : Col) :
  header_built w ->
  nth_error COLS i = Some col ->
  sortable col = true ->
  let w' := handle (HeaderClick i) w in
  sortKey w' = key col
  /\ (sortKey w <> key col ->
      (key col = utf16 "시가총액(억)" -> sortAsc w' = false)
      /\ (key col <> utf16 "시가총액(억)" -> sortAsc w' = true))
  /\ (sortKey w = key col -> sortAsc w' = negb (sortAsc w)).
Proof.
  intros Hb Hi Hs. cbv zeta.
  assert (Hth : exists th, nth_error (kw_thead (page w)) i = Some th
                           /\ th_click th = Some col).
  { pose proof (f_equal (fun l => nth_error l i) Hb) as H. cbv beta in H.
    rewrite !nth_error_map, Hi in H. unfold listener in H.
    cbn [option_map] in H. rewrite Hs in H.
    destruct (nth_error (kw_thead (page w)) i) as [th|];
      [|discriminate].
    exists th. split; [reflexivity|]. cbn [option_map] in H. now injection H. }
  destruct Hth as [th [Hn Hc]]. simpl. rewrite Hn, Hc. unfold on_click.
  destruct (JsString.eqb (sortKey w) (key col)) eqn:E; simpl.
  - apply JsStringFacts.eqb_eq in E.
    split; [congruence|]. split; [congruence | reflexivity].
  - apply JsStringFacts.eqb_neq in E.
    split; [reflexivity|]. split; [|congruence]. intros _. split.
    + intros ->. reflexivity.
    + intros H. apply JsStringFacts.eqb_neq in H. now rewrite H.
Qed.

Lemma C5_header_click_witness :
  let w' := handle (HeaderClick 5) loaded_samsung in
  sortKey w' = utf16 "PER"
  /\ (sortKey loaded_samsung <> utf16 "PER" ->
      (utf16 "PER" = utf16 "시가총액(억)" -> sortAsc w' = false)
      /\ (utf16 "PER" <> utf16 "시가총액(억)" -> sortAsc w' = true))
  /\ (sortKey loaded_samsung = utf16 "PER" ->
      sortAsc w' = negb (sortAsc loaded_samsung)).
Proof.
  apply (@C5_header_click _ loaded_samsung 5
           {| key := utf16 "PER"; label := utf16 "PER";
              align := utf16 "right"; sortable := true |}).
  - vm_compute. reflexivity.
  - vm_compute. reflexivity.
  - reflexivity.
Defined.

(** C9.  In every state the widget reaches, from the start on and
    after any events, the sort key is the key of a sortable column of
    [COLS]; it is never the rank column. *)
Theorem C9_sort_key_is_sortable `{L : Locale} (w : Widget) :
  reachable w ->
  In (sortKey w) sortable_keys
  /\ (exists col, In col COLS /\ sortable col = true /\ key col = sortKey w)
  /\ sortKey w <> utf16 "#".
Proof.
  intros H. apply reachable_invariant in H. destruct H as (Hk & _).
  split; [exact Hk|]. split.
  - unfold sortable_keys in Hk. apply in_map_iff in Hk.
    destruct Hk as [col [Hkey Hin]]. apply filter_In in Hin.
    exists col. tauto.
  - intros E. rewrite E in Hk. vm_compute in Hk.
    repeat (destruct Hk as [Hk|Hk]; [discriminate|]). exact Hk.
Qed.

Lemma C9_sort_key_is_sortable_witness :
  let w := handle ResetClick (handle (HeaderClick 3) loaded_samsung) in
  In (sortKey w) sortable_keys
  /\ (exists col, In col COLS /\ sortable col = true /\ key col = sortKey w)
  /\ sortKey w <> utf16 "#".
Proof.
  apply (C9_sort_key_is_sortable
           (w := handle ResetClick (handle (HeaderClick 3) loaded_samsung))).
  unfold loaded_samsung. apply reach_step, reach_step, reach_step, reach_boot.
Defined.

(** ** Loading *)

Section Loading.

Context {L : Locale}.

Lemma static_handle e w : pending w = false -> static (handle e w) = static w.
Proof.
  intros Hp. destruct e; simpl; try reflexivity.
  - destruct (nth_error (kw_thead (page w)) i) as [th|]; [|reflexivity].
    destruct (th_click th) as [col|]; [|reflexivity].
    unfold on_click. now destruct (JsString.eqb (sortKey w) (key col)).
  - now rewrite Hp.
Qed.

Lemma static_run es w : pending w = false -> static (run w es) = static w.
Proof.
  revert w. induction es as [|e es IH]; intros w Hp; simpl; [reflexivity|].
  pose proof (static_handle e w Hp) as H.
  rewrite IH; [exact H|].
  apply (f_equal (fun t => snd (fst (fst t)))) in H. simpl in H. congruence.
Qed.

(** The request is issued once, when the script starts. *)
Lemma requests_handle e w : requests (handle e w) = requests w.
Proof.
  destruct e; simpl; try reflexivity.
  - destruct (nth_error (kw_thead (page w)) i) as [th|]; [|reflexivity].
    destruct (th_click th) as [col|]; [|reflexivity].
    unfold on_click. now destruct (JsString.eqb (sortKey w) (key col)).
  - destruct (pending w); [|reflexivity]. unfold init_resume.
    now destruct (load res) as [m|[[d|m] rows]].
Qed.

Lemma one_request w : reachable w -> requests w = [DATA_URL].
Proof.
  induction 1; [reflexivity | now rewrite requests_handle].
Qed.

End Loading.

Section LoadFailure.

Context {L : Locale}.

Lemma ok_range status : ok status = true <-> (200 <= status <= 299)%N.
Proof.
  unfold ok. rewrite andb_true_iff, !N.leb_le. tauto.
Qed.

(** Every failure is caught with its reason, and leaves the header
    row as it is. *)
Lemma failure_caught res reason w :
  failure res reason ->
  exists w0,
    init_resume res w = catch reason w0
    /\ page w0 = page w /\ requests w0 = requests w /\ pending w0 = pending w.
Proof.
  intros H. unfold init_resume.
  destruct H as [m|status body Hs|status m Hs|status m rows Hs]; cbn [load].
  - now exists w.
  - assert (E : ok status = false).
    { apply not_true_is_false. rewrite ok_range. lia. }
    rewrite E. cbn [negb]. now exists w.
  - apply ok_range in Hs. rewrite Hs. cbn [negb]. now exists w.
  - apply ok_range in Hs. rewrite Hs. cbn [negb].
    now exists (with_allRows rows w).
Qed.

(** The request ends in a failure or in a dataset with its date. *)
Lemma failure_or_dataset res :
  (exists reason, failure res reason)
  \/ exists status d rows,
       res = Response status (Parsed d rows) /\ (200 <= status <= 299)%N.
Proof.
  destruct res as [m|status body].
  - left. exists m. constructor.
  - destruct (ok status) eqn:E.
    + apply ok_range in E. destruct body as [m|d rows|m rows].
      * left. exists m. now constructor.
      * right. now exists status, d, rows.
      * left. exists m. now constructor.
    + left. eexists. apply http_status.
      assert (H : ~ (200 <= status <= 299)%N).
      { rewrite <- ok_range. congruence. }
      lia.
Qed.

End LoadFailure.

(** C4.  When the request fails (the fetch is rejected, the status of
    the response is not a success, the body does not parse, or its
    date cannot be sliced), the status region shows the error message
    with the reason of the failure in parentheses and gets the error
    class; for a status failure the reason is "HTTP error: " and the
    status code, so that the message contains the code.  No header row
    is built.  Whatever events follow, the message stays, the
    visibility of the status region and of the table region is never
    changed, and the request made when the script started remains the
    only one. *)
Theorem C4_load_failure `{L : Locale}
    (w : Widget) (res : FetchResult) (reason : jsstring) (es : list Event) :
  reachable w ->
  pending w = true ->
  failure res reason ->
  let w' := run (handle (FetchSettled res) w) es in
  kw_status_text (page w')
  = utf16 "데이터를 불러오지 못했습니다. (" ++ reason ++ utf16 ")"
  /\ kw_status_class (page w') = utf16 "kw-error"
  /\ kw_status_display (page w') = kw_status_display (page w)
  /\ kw_table_wrap_display (page w') = kw_table_wrap_display (page w)
  /\ requests w' = [DATA_URL]
  /\ kw_thead (page (handle (FetchSettled res) w)) = []
  /\ (forall status body, res = Response status body ->
      (status < 200 \/ 299 < status)%N ->
      JsString.occurs_in (JsString.decimal status) (kw_status_text (page w'))).
Proof.
  intros Hr Hp Hf. cbv zeta.
  set (w1 := handle (FetchSettled res) w).
  assert (Hw1 : w1 = init_resume res (settled w)).
  { unfold w1. cbn [handle]. now rewrite Hp. }
  destruct (failure_caught (settled w) Hf) as (w0 & E & Hpage & Hreq & Hpend).
  rewrite E in Hw1.
  assert (Hp1 : pending w1 = false).
  { rewrite Hw1. cbn [catch with_page pending]. exact Hpend. }
  pose proof (static_run es w1 Hp1) as Hs. unfold static in Hs.
  injection Hs as _ Hreq' _ _ _ Hcls Htxt Hdis Htab.
  assert (Htext : kw_status_text (page (run w1 es))
                  = utf16 "데이터를 불러오지 못했습니다. (" ++ reason ++ utf16 ")").
  { rewrite Htxt, Hw1. reflexivity. }
  split; [exact Htext|].
  split; [rewrite Hcls, Hw1; reflexivity|].
  split; [rewrite Hdis, Hw1; cbn [catch with_page page kw_status_display];
          now rewrite Hpage|].
  split; [rewrite Htab, Hw1; cbn [catch with_page page kw_table_wrap_display];
          now rewrite Hpage|].
  split.
  { rewrite Hreq'. apply one_request. unfold w1. now apply reach_step. }
  split.
  { rewrite Hw1. cbn [catch with_page page kw_thead]. rewrite Hpage.
    cbn [settled page]. now apply (reachable_invariant Hr). }
  intros status body -> Hs. rewrite Htext.
  assert (Hreason : reason = utf16 "HTTP error: " ++ JsString.decimal status).
  { inversion Hf; subst; try reflexivity; lia. }
  rewrite Hreason.
  exists (utf16 "데이터를 불러오지 못했습니다. (" ++ utf16 "HTTP error: "),
    (utf16 ")").
  now rewrite <- !app_assoc.
Qed.

(** The response has status 500; two events follow. *)
Lemma C4_load_failure_witness :
  let w := boot no_input blank_page in
  let res := Response 500 (Malformed []) in
  let reason := utf16 "HTTP error: 500" in
  let w' := run (handle (FetchSettled res) w)
              [SearchInput (utf16 "a"); ResetClick] in
  kw_status_text (page w')
  = utf16 "데이터를 불러오지 못했습니다. (" ++ reason ++ utf16 ")"
  /\ kw_status_class (page w') = utf16 "kw-error"
  /\ kw_status_display (page w') = kw_status_display (page w)
  /\ kw_table_wrap_display (page w') = kw_table_wrap_display (page w)
  /\ requests w' = [DATA_URL]
  /\ kw_thead (page (handle (FetchSettled res) w)) = []
  /\ (forall status body, res = Response status body ->
      (status < 200 \/ 299 < status)%N ->
      JsString.occurs_in (JsString.decimal status) (kw_status_text (page w'))).
Proof.
  apply (@C4_load_failure _ (boot no_input blank_page)
           (Response 500 (Malformed [])) (utf16 "HTTP error: 500")
           [SearchInput (utf16 "a"); ResetClick]).
  - apply reach_boot.
  - reflexivity.
  - change (utf16 "HTTP error: 500")
      with (utf16 "HTTP error: " ++ JsString.decimal 500).
    apply http_status. right. lia.
Defined.

(** With status 500 the message contains "500" and the table region
    stays hidden. *)
Example status_500_shown :
  let w' := handle (FetchSettled (Response 500 (Malformed [])))
              (boot no_input blank_page) in
  kw_status_text (page w')
  = utf16 "데이터를 불러오지 못했습니다. (HTTP error: 500)"
  /\ kw_table_wrap_display (page w') = utf16 "none".
Proof. vm_compute. split; reflexivity. Qed.

(** ** The sector options *)

Section Sectors.

Lemma remove_NoDup (x : jsstring) l :
  NoDup l -> NoDup (remove (list_eq_dec N.eq_dec) x l).
Proof.
  induction 1 as [|y l Hy Hl IH]; simpl; [constructor|].
  destruct (list_eq_dec N.eq_dec x y); [exact IH|].
  constructor; [|exact IH]. intros H. apply in_remove in H. tauto.
Qed.

Lemma distinct_In l x : In x (distinct l) <-> In x l.
Proof.
  induction l as [|y l IH]; simpl; [tauto|]. split.
  - intros [H|H]; [now left|]. apply in_remove in H. right. now apply IH.
  - intros [H|H]; [now left|].
    destruct (list_eq_dec N.eq_dec x y) as [->|Hne]; [now left|].
    right. apply in_in_remove; [exact Hne | now apply IH].
Qed.

Lemma distinct_NoDup l : NoDup (distinct l).
Proof.
  induction l as [|y l IH]; simpl; constructor.
  - apply remove_In.
  - now apply remove_NoDup.
Qed.

Lemma gtb_of_comparison c :
  Number.gtb (of_comparison c) Number.zero
  = match c with Gt => true | _ => false end.
Proof. destruct c; vm_compute; reflexivity. Qed.

Lemma after_default x y :
  after default_compare x y = true <-> JsString.compare x y = Gt.
Proof.
  unfold after, default_compare. rewrite gtb_of_comparison.
  destruct (JsString.compare x y); split; congruence.
Qed.

Lemma StronglySorted_weaken {A : Type} (R R' : A -> A -> Prop) l :
  (forall x y, R x y -> R' x y) -> StronglySorted R l -> StronglySorted R' l.
Proof.
  intros HR. induction 1 as [|a l HS IH Ha]; constructor; [exact IH|].
  eapply Forall_impl; [|exact Ha]. auto.
Qed.

Lemma present_In o s : In s (present o) <-> o = Some s /\ s <> [].
Proof.
  destruct o as [s'|]; simpl.
  - destruct s' as [|a s']; simpl.
    + split; [tauto|]. intros [[= <-] H]. congruence.
    + split.
      * intros [<-|[]]. split; [reflexivity | discriminate].
      * intros [[= <-] _]. now left.
  - split; [tauto|]. intros [H _]. discriminate.
Qed.

(** The options added are the sectors that occur, each once. *)
Lemma sectors_In rows s :
  In s (sectors rows) <-> s <> [] /\ exists r, In r rows /\ sector r = Some s.
Proof.
  unfold sectors. split.
  - intros H. apply (Permutation_in _ (sort_perm _ _)) in H.
    apply distinct_In, in_flat_map in H. destruct H as [r [Hr Hs]].
    apply present_In in Hs. split; [tauto|]. exists r. tauto.
  - intros [Hne [r [Hr Hs]]].
    apply (Permutation_in _ (Permutation_sym (sort_perm _ _))).
    apply distinct_In, in_flat_map. exists r. split; [exact Hr|].
    now apply present_In.
Qed.

Lemma sectors_NoDup rows : NoDup (sectors rows).
Proof.
  unfold sectors.
  apply (Permutation_NoDup (Permutation_sym (sort_perm _ _))).
  apply distinct_NoDup.
Qed.

(** They are in the order of their code units. *)
Lemma sectors_sorted rows :
  StronglySorted (fun s t => JsString.compare s t <> Gt) (sectors rows).
Proof.
  unfold sectors.
  apply StronglySorted_weaken
    with (R := fun x y => after default_compare x y = false).
  - intros x y H Hgt. apply after_default in Hgt. congruence.
  - apply sort_sorted with (P := fun _ => True).
    + intros x y _ _ H. apply after_default in H.
      destruct (after default_compare x y) eqn:E; [|reflexivity].
      apply after_default in E.
      rewrite JsStringFacts.compare_sym, H in E. discriminate.
    + intros x y z _ _ _ Hxy Hyz.
      destruct (after default_compare x z) eqn:E; [|reflexivity].
      apply after_default in E. exfalso.
      apply (JsStringFacts.compare_trans x y z); auto.
      * intros H. apply after_default in H. congruence.
      * intros H. apply after_default in H. congruence.
    + apply Forall_forall. auto.
Qed.

End Sectors.

(** C6, as the code has it.  A successful load appends to the sector
    dropdown one option for each distinct non-empty sector of the
    dataset, in ascending order of UTF-16 code units (the default
    order of [sort()]); the events that follow leave the options as
    they are. *)
Theorem C6_sector_options `{L : Locale}
    (w : Widget) (status : N) (d : jsstring) (rows : list Row)
    (es : list Event) :
  pending w = true ->
  ok status = true ->
  let w1 := handle (FetchSettled (Response status (Parsed d rows))) w in
  kw_sector_options (page w1) = kw_sector_options (page w) ++ sectors rows
  /\ NoDup (sectors rows)
  /\ (forall s, In s (sectors rows)
                <-> s <> [] /\ exists r, In r rows /\ sector r = Some s)
  /\ StronglySorted (fun s t => JsString.compare s t <> Gt) (sectors rows)
  /\ kw_sector_options (page (run w1 es)) = kw_sector_options (page w1).
Proof.
  intros Hp Hok. cbv zeta.
  set (w1 := handle (FetchSettled (Response status (Parsed d rows))) w).
  assert (Hw1 : w1 = init_resume (Response status (Parsed d rows)) (settled w)).
  { unfold w1. simpl. now rewrite Hp. }
  assert (Hl : load (Response status (Parsed d rows)) = inr (inl d, rows)).
  { simpl. now rewrite Hok. }
  split; [rewrite Hw1; unfold init_resume; rewrite Hl; reflexivity|].
  split; [apply sectors_NoDup|]. split; [apply sectors_In|].
  split; [apply sectors_sorted|].
  assert (Hp1 : pending w1 = false).
  { rewrite Hw1. unfold init_resume. now rewrite Hl. }
  pose proof (static_run es w1 Hp1) as Hs. unfold static in Hs.
  now injection Hs.
Qed.

Lemma C6_sector_options_witness :
  let w := boot no_input blank_page in
  let rows := [in_sector "b" samsung; hynix; in_sector "" samsung;
               in_sector "b" hynix] in
  let w1 := handle (FetchSettled (Response 200 (Parsed (utf16 "20240131") rows))) w in
  kw_sector_options (page w1) = kw_sector_options (page w) ++ sectors rows
  /\ NoDup (sectors rows)
  /\ (forall s, In s (sectors rows)
                <-> s <> [] /\ exists r, In r rows /\ sector r = Some s)
  /\ StronglySorted (fun s t => JsString.compare s t <> Gt) (sectors rows)
  /\ kw_sector_options (page (run w1 [HeaderClick 2; SectorChange (utf16 "b")]))
     = kw_sector_options (page w1).
Proof.
  apply (@C6_sector_options _ (boot no_input blank_page) 200
           (utf16 "20240131")
           [in_sector "b" samsung; hynix; in_sector "" samsung;
            in_sector "b" hynix]
           [HeaderClick 2; SectorChange (utf16 "b")]);
    reflexivity.
Defined.

(** C6 as stated fails: of the sectors "a" and "B" the dropdown lists
    "B" first, the order of the code units, where a collation puts "a"
    first. *)
Lemma C6_sector_order_is_not_collation :
  sectors [in_sector "a" samsung; in_sector "B" samsung]
  = [utf16 "B"; utf16 "a"]
  /\ localeCompare (utf16 "B") (utf16 "a") = Gt
  /\ ~ StronglySorted (fun s t => localeCompare s t <> Gt)
         (sectors [in_sector "a" samsung; in_sector "B" samsung]).
Proof.
  split; [vm_compute; reflexivity|]. split; [vm_compute; reflexivity|].
  intros H.
  replace (sectors [in_sector "a" samsung; in_sector "B" samsung])
    with [utf16 "B"; utf16 "a"] in H by (vm_compute; reflexivity).
  inversion H as [|? ? _ Hf]; subst. inversion Hf as [|? ? Hc _]; subst.
  apply Hc. vm_compute. reflexivity.
Qed.

(** ** Sorting the rows *)

Section SortSpec.

Context {L : Locale}.

Context {C : Collation L}.

Lemma sortable_key_sorts k :
  In k sortable_keys ->
  JsString.truthy k && negb (JsString.eqb k (utf16 "#")) = true.
Proof.
  intros H. vm_compute in H.
  repeat (destruct H as [<-|H]; [reflexivity|]). destruct H.
Qed.

Lemma visible_rows_sorted_copy k asc w :
  In k sortable_keys ->
  visible_rows (with_sort k asc w)
  = sort (compareRows k asc) (filter (keep (controls w)) (allRows w)).
Proof.
  intros H. unfold visible_rows. simpl. now rewrite (sortable_key_sorts H).
Qed.

Lemma StronglySorted_weaken_In {A : Type} (R R' : A -> A -> Prop) l :
  (forall x y, In x l -> In y l -> R x y -> R' x y) ->
  StronglySorted R l -> StronglySorted R' l.
Proof.
  intros HR HS. induction HS as [|a l HS IH Ha]; constructor.
  - apply IH. intros x y Hx Hy. apply HR; now right.
  - rewrite Forall_forall in *. intros y Hy.
    apply HR; [now left | now right | now apply Ha].
Qed.

Lemma StronglySorted_suffix {A : Type} (R : A -> A -> Prop) l1 l2 :
  StronglySorted R (l1 ++ l2) -> StronglySorted R l2.
Proof.
  induction l1 as [|a l1 IH]; simpl; [auto|].
  intros H. inversion H; auto.
Qed.

Lemma sorted_before (R : Row -> Row -> Prop) a b l :
  StronglySorted R l -> before a b l -> R a b.
Proof.
  intros HS (l1 & l2 & l3 & ->).
  apply StronglySorted_suffix in HS. inversion HS as [|? ? _ Hf]; subst.
  rewrite Forall_forall in Hf. apply Hf, in_or_app. right. now left.
Qed.

Lemma before_or (a b : Row) l :
  In a l -> In b l -> a <> b -> before a b l \/ before b a l.
Proof.
  intros Ha Hb Hne. apply in_split in Ha. destruct Ha as (l1 & l2 & ->).
  apply in_app_or in Hb. destruct Hb as [Hb | [Hb | Hb]].
  - right. apply in_split in Hb. destruct Hb as (m1 & m2 & ->).
    exists m1, m2, l2. now rewrite <- app_assoc.
  - congruence.
  - left. apply in_split in Hb. destruct Hb as (m1 & m2 & ->).
    now exists l1, m1, m2.
Qed.

Lemma before_In a b l : before a b l -> In a l /\ In b l.
Proof.
  intros (l1 & l2 & l3 & ->). split; apply in_or_app; right.
  - now left.
  - right. apply in_or_app. right. now left.
Qed.

(** The comparator on a numeric column. *)
Lemma after_numeric k asc a b x y :
  get a k = VNumber x -> Number.isNaN x = false ->
  get b k = VNumber y -> Number.isNaN y = false ->
  after (compareRows k asc) a b
  = if asc then Number.gtb x y else Number.gtb y x.
Proof.
  intros Ha Hx Hb Hy. unfold after, compareRows. rewrite Ha, Hb. simpl.
  destruct asc; now apply NumberOrder.gtb_sub.
Qed.

(** The comparator on a textual column. *)
Lemma after_textual k asc a b :
  (forall x, get a k <> VNumber x) ->
  after (compareRows k asc) a b = true
  <-> (if asc then localeCompare (ToString (get a k)) (ToString (get b k))
       else localeCompare (ToString (get b k)) (ToString (get a k))) = Gt.
Proof.
  intros Ha. unfold after, compareRows.
  destruct (get a k) as [|x|s] eqn:E; [|now destruct (Ha x)|];
    destruct asc; rewrite gtb_of_comparison;
    match goal with
    | |- context [localeCompare ?s ?t] => destruct (localeCompare s t)
    end; split; congruence.
Qed.

Lemma sort_numeric k (asc : bool) rows :
  numeric_column k rows ->
  StronglySorted
    (fun a b => if asc then key_le (get a k) (get b k)
                else key_le (get b k) (get a k))
    (sort (compareRows k asc) rows).
Proof.
  intros Hnum.
  set (P := fun r => exists x, get r k = VNumber x /\ Number.isNaN x = false).
  assert (HP : Forall P rows) by (apply Forall_forall; exact Hnum).
  assert (HP' : Forall P (sort (compareRows k asc) rows)).
  { apply (Permutation_Forall (Permutation_sym (sort_perm _ rows)) HP). }
  rewrite Forall_forall in HP'.
  apply StronglySorted_weaken_In
    with (R := fun a b => after (compareRows k asc) a b = false).
  - intros a b Ha Hb.
    destruct (HP' a Ha) as (x & Hx & Hnx), (HP' b Hb) as (y & Hy & Hny).
    rewrite (@after_numeric k asc a b x y Hx Hnx Hy Hny), Hx, Hy. simpl.
    destruct asc; rewrite NumberOrder.leb_gtb by assumption;
      intros ->; reflexivity.
  - apply sort_sorted with (P := P); [| |exact HP].
    + intros a b (x & Hx & Hnx) (y & Hy & Hny).
      rewrite (@after_numeric k asc a b x y Hx Hnx Hy Hny),
        (@after_numeric k asc b a y x Hy Hny Hx Hnx).
      destruct asc; now apply NumberOrder.gtb_asym.
    + intros a b c (x & Hx & Hnx) (y & Hy & Hny) (z & Hz & Hnz).
      rewrite (@after_numeric k asc a b x y Hx Hnx Hy Hny),
        (@after_numeric k asc b c y z Hy Hny Hz Hnz),
        (@after_numeric k asc a c x z Hx Hnx Hz Hnz).
      destruct asc; intros H1 H2.
      * now apply NumberOrder.gtb_false_trans with y.
      * now apply NumberOrder.gtb_false_trans with y.
Qed.

Lemma not_true_false b : b <> true -> b = false.
Proof. destruct b; congruence. Qed.

Lemma sort_textual k (asc : bool) rows :
  textual_column k rows ->
  StronglySorted
    (fun a b => if asc then key_le (get a k) (get b k)
                else key_le (get b k) (get a k))
    (sort (compareRows k asc) rows).
Proof.
  intros Htxt.
  set (P := fun r => forall x, get r k <> VNumber x).
  assert (HP : Forall P rows) by (apply Forall_forall; exact Htxt).
  assert (HP' : Forall P (sort (compareRows k asc) rows)).
  { apply (Permutation_Forall (Permutation_sym (sort_perm _ rows)) HP). }
  rewrite Forall_forall in HP'.
  assert (Hle : forall a b, P a -> P b ->
            after (compareRows k asc) a b = false ->
            if asc then key_le (get a k) (get b k)
            else key_le (get b k) (get a k)).
  { intros a b Ha Hb H.
    assert (Hn : ~ after (compareRows k asc) a b = true) by congruence.
    rewrite (@after_textual k asc a b Ha) in Hn.
    unfold key_le.
    destruct (get a k) as [|x|s] eqn:Ea; [|now destruct (Ha x)|];
      (destruct (get b k) as [|y|t] eqn:Eb; [|now destruct (Hb y)|]);
      destruct asc; exact Hn. }
  apply StronglySorted_weaken_In
    with (R := fun a b => after (compareRows k asc) a b = false).
  - intros a b Ha Hb. apply Hle; auto.
  - apply sort_sorted with (P := P); [| |exact HP].
    + intros a b Ha Hb H. apply not_true_false.
      rewrite (@after_textual k asc a b Ha). rewrite (@after_textual k asc b a Hb) in H.
      destruct asc.
      * rewrite collate_sym, H. discriminate.
      * rewrite collate_sym, H. discriminate.
    + intros a b c Ha Hb Hc H1 H2. apply not_true_false.
      assert (N1 : ~ after (compareRows k asc) a b = true) by congruence.
      assert (N2 : ~ after (compareRows k asc) b c = true) by congruence.
      rewrite (@after_textual k asc a b Ha) in N1.
      rewrite (@after_textual k asc b c Hb) in N2.
      rewrite (@after_textual k asc a c Ha).
      destruct asc.
      * now apply collate_trans with (ToString (get b k)).
      * now apply collate_trans with (ToString (get b k)).
Qed.

Lemma sort_homogeneous k (asc : bool) rows :
  homogeneous k rows ->
  StronglySorted
    (fun a b => if asc then key_le (get a k) (get b k)
                else key_le (get b k) (get a k))
    (sort (compareRows k asc) rows).
Proof. intros [H|H]; [now apply sort_numeric | now apply sort_textual]. Qed.

(** The ticker, name and sector columns are textual whatever the rows. *)
Lemma textual_ticker_name_sector k rows :
  k = utf16 "티커" \/ k = utf16 "종목명" \/ k = utf16 "섹터" ->
  textual_column k rows.
Proof.
  intros [-> | [-> | ->]] r _ x.
  - discriminate.
  - discriminate.
  - rewrite get_sector. destruct (sector r); discriminate.
Qed.

End SortSpec.

(** X18.  For a sortable sort key and filtered rows
    whose keys are of one kind (all numbers other than NaN, or none a
    number), [render] shows a reordered copy of the filtered rows and
    leaves the dataset as it is.  Ascending, the keys never decrease:
    numbers by value, everything else by the Korean collation of its
    string.  Descending, they never increase.  Two rows of which one
    key is strictly smaller stand in opposite order in the two
    directions.  The ticker, name and sector columns are always of one
    kind. *)
Theorem sorted_by_key `{L : Locale} `{!Collation L} (w : Widget) :
  In (sortKey w) sortable_keys ->
  homogeneous (sortKey w) (filter (keep (controls w)) (allRows w)) ->
  let k := sortKey w in
  let rows := filter (keep (controls w)) (allRows w) in
  let asc := visible_rows (with_sort k true w) in
  let desc := visible_rows (with_sort k false w) in
  visible_rows w = (if sortAsc w then asc else desc)
  /\ allRows (render w) = allRows w
  /\ Permutation asc rows
  /\ Permutation desc rows
  /\ StronglySorted (fun a b => key_le (get a k) (get b k)) asc
  /\ StronglySorted (fun a b => key_le (get b k) (get a k)) desc
  /\ (forall a b, key_lt (get a k) (get b k) ->
      (before a b asc <-> before b a desc)).
Proof.
  intros Hk Hh. cbv zeta.
  rewrite !(visible_rows_sorted_copy _ w Hk).
  set (rows := filter (keep (controls w)) (allRows w)) in *.
  set (k := sortKey w) in *.
  pose proof (sort_perm (compareRows k true) rows) as Pa.
  pose proof (sort_perm (compareRows k false) rows) as Pd.
  pose proof (sort_homogeneous true Hh) as Sa.
  pose proof (sort_homogeneous false Hh) as Sd.
  cbv beta iota in Sa, Sd.
  split.
  { unfold visible_rows. fold rows. fold k.
    rewrite (sortable_key_sorts Hk). now destruct (sortAsc w). }
  split; [reflexivity|]. split; [exact Pa|]. split; [exact Pd|].
  split; [exact Sa|]. split; [exact Sd|].
  intros a b [Hle Hnle].
  assert (Hne : a <> b) by (intros ->; tauto).
  split; intros H; apply before_In in H; destruct H as [H1 H2].
  - assert (Hb : In b (sort (compareRows k false) rows)).
    { apply (Permutation_in _ (Permutation_sym Pd)).
      apply (Permutation_in _ Pa). assumption. }
    assert (Ha : In a (sort (compareRows k false) rows)).
    { apply (Permutation_in _ (Permutation_sym Pd)).
      apply (Permutation_in _ Pa). assumption. }
    destruct (@before_or a b _ Ha Hb Hne) as [Hab|Hba]; [|exact Hba].
    exfalso. apply Hnle. apply (@sorted_before _ a b _ Sd Hab).
  - assert (Hb : In b (sort (compareRows k true) rows)).
    { apply (Permutation_in _ (Permutation_sym Pa)).
      apply (Permutation_in _ Pd). assumption. }
    assert (Ha : In a (sort (compareRows k true) rows)).
    { apply (Permutation_in _ (Permutation_sym Pa)).
      apply (Permutation_in _ Pd). assumption. }
    destruct (@before_or a b _ Ha Hb Hne) as [Hab|Hba]; [exact Hab|].
    exfalso. apply Hnle. apply (@sorted_before _ b a _ Sa Hba).
Qed.

(** The collation of the reference host is a total preorder. *)
#[export] Instance ascii_collation : Collation ascii_locale.
Proof.
  split; simpl.
  - intros s. apply JsStringFacts.compare_refl.
  - intros s t. apply JsStringFacts.compare_sym.
  - intros s t u. apply JsStringFacts.compare_trans.
Qed.

(** Sorted by PBR, of which every row has one. *)
Lemma sorted_by_key_witness :
  let w := handle (HeaderClick 6) three_rows in
  let k := sortKey w in
  let rows := filter (keep (controls w)) (allRows w) in
  let asc := visible_rows (with_sort k true w) in
  let desc := visible_rows (with_sort k false w) in
  visible_rows w = (if sortAsc w then asc else desc)
  /\ allRows (render w) = allRows w
  /\ Permutation asc rows
  /\ Permutation desc rows
  /\ StronglySorted (fun a b => key_le (get a k) (get b k)) asc
  /\ StronglySorted (fun a b => key_le (get b k) (get a k)) desc
  /\ (forall a b, key_lt (get a k) (get b k) ->
      (before a b asc <-> before b a desc)).
Proof.
  apply (@sorted_by_key ascii_locale ascii_collation
           (handle (HeaderClick 6) three_rows)).
  - vm_compute. do 5 right. left. reflexivity.
  - left. intros r Hr. exists (PBR r). vm_compute in Hr.
    destruct Hr as [<- | [<- | [<- | []]]]; split; vm_compute; reflexivity.
Defined.

(** C2, at the failing input: rows with the EPS 5000, none and 7000,
    sorted by EPS.  The comparator looks at the type of its left key
    only.  With the number on the left it subtracts the absent key:
    the result is NaN, which a sort takes for "equal".  With the
    absent key on the left it compares the strings "undefined" and
    "5000", and puts the row without EPS after the other.  So, in the
    ascending direction, the row without EPS is after the row with
    5000 while the row with 5000 is not before it; in the descending
    direction it is before the row with 7000 while that row is not
    after it.  The comparator is not consistent, and what order comes
    out is left to the engine. *)
Theorem C2_absent_key_compares_both_ways :
  let k := utf16 "EPS" in
  let cmp := compareRows (L := ascii_locale) k in
  get samsung k = VNumber (Number.of_N 5000)
  /\ get hynix k = VUndefined
  /\ get naver k = VNumber (Number.of_N 7000)
  /\ cmp true samsung hynix = Number.NaN
  /\ cmp true hynix samsung = Number.of_N 1
  /\ cmp true naver hynix = Number.NaN
  /\ cmp true hynix naver = Number.of_N 1
  /\ cmp false samsung hynix = Number.NaN
  /\ cmp false hynix samsung = Number.of_Z (-1)
  /\ cmp false naver hynix = Number.NaN
  /\ cmp false hynix naver = Number.of_Z (-1)
  /\ ~ homogeneous k [samsung; hynix; naver].
Proof.
  cbv zeta. repeat (split; [vm_compute; reflexivity|]).
  intros [H|H].
  - destruct (H hynix) as (x & Hx & _); [right; now left|]. discriminate Hx.
  - apply (H samsung (or_introl eq_refl) (Number.of_N 5000)). reflexivity.
Qed.

(** ** Number formats *)

Module FormatFacts.

Import JsString.

(** More fuel than the digits need changes nothing. *)
Lemma decimal_digits_fuel f1 f2 n :
  (n < 10 * 2 ^ N.of_nat f1)%N -> (n < 10 * 2 ^ N.of_nat f2)%N ->
  decimal_digits (S f1) n = decimal_digits (S f2) n.
Proof.
  revert f2 n. induction f1 as [|f1 IH]; intros f2 n H1 H2.
  - change (2 ^ N.of_nat 0)%N with 1%N in H1.
    cbn [decimal_digits]. destruct (N.ltb_spec n 10); [reflexivity | lia].
  - cbn [decimal_digits]. destruct (N.ltb_spec n 10) as [E|E]; [reflexivity|].
    f_equal. destruct f2 as [|f2].
    + change (2 ^ N.of_nat 0)%N with 1%N in H2. lia.
    + rewrite Nat2N.inj_succ, N.pow_succ_r' in H1, H2.
      apply IH; apply N.Div0.div_lt_upper_bound; clear IH.
      * revert H1. generalize (2 ^ N.of_nat f1)%N. intros; lia.
      * revert H2. generalize (2 ^ N.of_nat f2)%N. intros; lia.
Qed.

Lemma decimal_small n : (n < 10)%N -> decimal n = [(48 + n)%N].
Proof.
  intros H. unfold decimal. cbn [decimal_digits].
  destruct (N.ltb_spec n 10); [|lia]. now rewrite N.mod_small.
Qed.

Lemma decimal_step n :
  (10 <= n)%N -> decimal n = decimal (n / 10) ++ [(48 + n mod 10)%N].
Proof.
  intros H. unfold decimal at 1. cbn [decimal_digits].
  destruct (N.ltb_spec n 10) as [Hlt|_]; [lia|]. f_equal.
  assert (Hn : (0 < n)%N) by lia.
  destruct (N.log2_spec n Hn) as [Hlo Hhi].
  assert (Hl : (3 <= N.log2 n)%N).
  { apply N.log2_le_pow2; [lia|]. change (2 ^ 3)%N with 8%N. lia. }
  destruct (N.to_nat (N.log2 n)) as [|f] eqn:Ef; [lia|].
  unfold decimal. apply decimal_digits_fuel.
  - assert (Hf : N.log2 n = N.succ (N.of_nat f)) by lia.
    rewrite Hf, !N.pow_succ_r' in Hhi.
    apply N.Div0.div_lt_upper_bound.
    revert Hhi. generalize (2 ^ N.of_nat f)%N. intros; lia.
  - rewrite N2Nat.id.
    assert (Hq : (0 < n / 10)%N) by (apply N.div_str_pos; lia).
    destruct (N.log2_spec _ Hq) as [_ Hq2].
    rewrite N.pow_succ_r' in Hq2.
    revert Hq2. generalize (2 ^ N.log2 (n / 10))%N. intros; lia.
Qed.

Lemma decimal_digits_digit fuel n : Forall digit (decimal_digits fuel n).
Proof.
  revert n. induction fuel as [|fuel IH]; intros n; cbn [decimal_digits];
    [constructor|].
  apply Forall_app. split.
  - destruct (n <? 10)%N; [constructor | apply IH].
  - constructor; [|constructor]. unfold digit.
    pose proof (N.mod_upper_bound n 10 ltac:(lia)) as H.
    revert H. generalize (n mod 10)%N. intros; lia.
Qed.

Lemma decimal_digit n : Forall digit (decimal n).
Proof. apply decimal_digits_digit. Qed.

Lemma decimal_not_empty n : decimal n <> [].
Proof.
  unfold decimal. cbn [decimal_digits]. intros H.
  apply app_eq_nil in H. destruct H. discriminate.
Qed.

(** *** Groups of three *)

Lemma group3_rev_more a b c d ds :
  Number.group3_rev (a :: b :: c :: d :: ds)
  = a :: b :: c :: 44%N :: Number.group3_rev (d :: ds).
Proof. reflexivity. Qed.

Lemma group3_rev_Forall (P : N -> Prop) ds :
  P 44%N -> Forall P ds -> Forall P (Number.group3_rev ds).
Proof.
  intros Hc. remember (length ds) as n eqn:Hn.
  revert ds Hn. induction n as [n IH] using lt_wf_ind. intros ds Hn Hds.
  destruct ds as [|a [|b [|c [|d ds]]]]; try exact Hds.
  rewrite group3_rev_more.
  inversion Hds as [|? ? Ha H1]; subst. inversion H1 as [|? ? Hb H2]; subst.
  inversion H2 as [|? ? Hc' H3]; subst.
  repeat (constructor; [assumption|]).
  apply (IH (length (d :: ds))); [simpl; lia | reflexivity | exact H3].
Qed.

Lemma group3_Forall (P : N -> Prop) ds :
  P 44%N -> Forall P ds -> Forall P (Number.group3 ds).
Proof.
  intros Hc H. unfold Number.group3.
  apply Forall_rev, group3_rev_Forall; [exact Hc | now apply Forall_rev].
Qed.

(** Up to three digits stand as they are; the last three of more are
    set off by a comma. *)
Lemma group3_short ds : (length ds <= 3)%nat -> Number.group3 ds = ds.
Proof.
  destruct ds as [|a [|b [|c [|d ds]]]]; simpl; try reflexivity. lia.
Qed.

Lemma group3_step ds a b c :
  ds <> [] ->
  Number.group3 (ds ++ [a; b; c]) = Number.group3 ds ++ 44%N :: [a; b; c].
Proof.
  intros Hne. unfold Number.group3. rewrite rev_app_distr.
  cbn [rev app].
  destruct (rev ds) as [|x xs] eqn:E.
  - apply (f_equal (@rev N)) in E. rewrite rev_involutive in E. now destruct Hne.
  - rewrite group3_rev_more. cbn [rev]. now rewrite <- !app_assoc.
Qed.

(** *** Rounding *)

(** A value that fits the significand is not changed by rounding. *)
Lemma round_ratio_exact neg m e :
  (m < 2 ^ 53)%N -> (m * 2 ^ e < Number.overflow)%N ->
  Number.round_ratio neg (m * 2 ^ e) 1 = Number.Fin neg (m * 2 ^ e).
Proof.
  intros Hm Ho. unfold Number.round_ratio. cbv zeta.
  rewrite !N.div_1_r, !N.mul_1_l.
  destruct (N.eq_dec m 0) as [->|Hm0].
  - rewrite N.mul_0_l. vm_compute. reflexivity.
  - assert (Hlog : (N.log2 m < 53)%N) by (apply N.log2_lt_pow2; lia).
    rewrite !N.log2_mul_pow2 by lia.
    set (d := (e + N.log2 m + 1 - 53)%N).
    assert (He : e = ((e - d) + d)%N) by lia.
    assert (Hd : (0 < 2 ^ d)%N) by (apply N.neq_0_lt_0, N.pow_nonzero; lia).
    assert (Ha : (m * 2 ^ e = m * 2 ^ (e - d) * 2 ^ d)%N).
    { rewrite He at 1. rewrite N.pow_add_r. lia. }
    rewrite !Ha. rewrite !N.div_mul by lia. rewrite N.Div0.mod_mul.
    rewrite N.mul_0_r.
    destruct (N.compare_spec 0 (2 ^ d)) as [H|H|H]; try lia.
    rewrite <- !Ha.
    destruct (N.leb_spec Number.overflow (m * 2 ^ e)); [lia | reflexivity].
Qed.

Lemma of_N_exact m :
  (m < 2 ^ 53)%N -> Number.of_N m = Number.Fin false (m * Number.scale).
Proof.
  intros Hm. unfold Number.of_N, Number.scale.
  apply round_ratio_exact; [exact Hm|].
  unfold Number.overflow. change 2098%N with (1024 + 1074)%N.
  rewrite N.pow_add_r. apply N.mul_lt_mono_pos_r.
  - apply N.neq_0_lt_0, N.pow_nonzero. lia.
  - apply N.lt_trans with (2 ^ 53)%N; [exact Hm|].
    apply N.pow_lt_mono_r; lia.
Qed.

Lemma scale_pos : (0 < Number.scale)%N.
Proof. apply N.neq_0_lt_0, N.pow_nonzero. lia. Qed.

(** [round_half_up a b] is the integer nearest to a / b. *)
Lemma round_half_up_nearest a b :
  (0 < b)%N ->
  (2 * b * Number.round_half_up a b <= 2 * a + b
   < 2 * b * Number.round_half_up a b + 2 * b)%N.
Proof.
  intros Hb. unfold Number.round_half_up.
  pose proof (N.Div0.mul_div_le (2 * a + b) (2 * b)) as H1.
  pose proof (N.mul_succ_div_gt (2 * a + b) (2 * b) ltac:(lia)) as H2.
  revert H1 H2. generalize ((2 * a + b) / (2 * b))%N. intros; lia.
Qed.

(** *** toLocaleString and toFixed *)

(** The digits of a whole number below 2^53 are its own. *)

Section WholeNumbers.

Import Number.

Lemma pow2_1127 : (2 ^ 53 * scale = 2 ^ 1127)%N.
Proof. unfold scale. rewrite <- N.pow_add_r. reflexivity. Qed.

(** A magnitude of at least 2^53 is not rounded below 2^53. *)
Lemma round_ratio_large neg a :
  (2 ^ 1127 <= a)%N ->
  match round_ratio neg a 1 with
  | Fin _ k => (2 ^ 1127 <= k)%N
  | _ => True
  end.
Proof.
  intros Ha. unfold round_ratio. cbv zeta. rewrite N.div_1_r, N.mul_1_l.
  assert (Hl : (1127 <= N.log2 a)%N).
  { change 1127%N with (N.log2 (2 ^ 1127)). now apply N.log2_le_mono. }
  set (d := (N.log2 a + 1 - 53)%N).
  assert (Hd : (N.log2 a = 52 + d)%N) by (unfold d; lia).
  assert (Hq : (2 ^ 52 <= a / 2 ^ d)%N).
  { apply N.div_le_lower_bound; [apply N.pow_nonzero; lia|].
    rewrite N.mul_comm, <- N.pow_add_r, <- Hd.
    apply N.log2_spec. lia. }
  destruct (overflow <=? _)%N; [exact I|].
  apply N.le_trans with (2 ^ 52 * 2 ^ d)%N.
  - rewrite <- N.pow_add_r. apply N.pow_le_mono_r; lia.
  - apply N.mul_le_mono_r.
    destruct (2 * (a mod 2 ^ d) ?= 2 ^ d)%N; [|exact Hq|lia].
    destruct (N.even (a / 2 ^ d)); [exact Hq | lia].
Qed.

(** Among the whole numbers, only [m] itself reads back as [m]. *)
Lemma reads_back_integer m s p :
  (0 < m < 2 ^ 53)%N -> (0 <= p <= 400)%Z ->
  reads_back (m * scale) s p = true <-> (s * 10 ^ Z.to_N p = m)%N.
Proof.
  intros Hm Hp. unfold reads_back, of_decimal.
  destruct (N.eqb_spec s 0) as [->|Hs].
  { rewrite N.mul_0_l. split.
    - intros H. apply N.eqb_eq in H. pose proof scale_pos. nia.
    - lia. }
  destruct (Z.ltb_spec 400 p) as [H|_]; [lia|].
  destruct (Z.ltb_spec p (-400 - Z.of_N (N.log2 s))) as [H|_]; [lia|].
  destruct (Z.leb_spec 0 p) as [_|H]; [|lia].
  set (j := (s * 10 ^ Z.to_N p)%N).
  destruct (N.lt_ge_cases j (2 ^ 53)) as [Hj|Hj].
  - unfold scale at 1.
    rewrite (@round_ratio_exact false j 1074 Hj).
    + fold scale. rewrite N.eqb_eq. split.
      * intros H. apply N.mul_cancel_r in H; [exact H|].
        pose proof scale_pos. lia.
      * now intros ->.
    + unfold overflow. change 2098%N with (1024 + 1074)%N.
      rewrite N.pow_add_r. apply N.mul_lt_mono_pos_r.
      * apply N.neq_0_lt_0, N.pow_nonzero. lia.
      * apply N.lt_trans with (2 ^ 53)%N; [exact Hj | reflexivity].
  - assert (Ha : (2 ^ 1127 <= j * scale)%N).
    { rewrite <- pow2_1127. now apply N.mul_le_mono_r. }
    pose proof (round_ratio_large false Ha) as Hr.
    assert (Hk : (m * scale < 2 ^ 1127)%N).
    { rewrite <- pow2_1127. apply N.mul_lt_mono_pos_r; [apply scale_pos | lia]. }
    destruct (round_ratio false (j * scale) 1) as [| |n k].
    + split; [discriminate | lia].
    + split; [discriminate | lia].
    + split; [|lia]. intros H. apply N.eqb_eq in H. lia.
Qed.

(** For a whole number below 2^53 the search ends with digits and an
    exponent that give the number itself. *)
Lemma shortest_integer m D fuel digits :
  (0 < m < 2 ^ 53)%N ->
  (1 <= digits <= D)%Z -> (D <= 400)%Z ->
  (D - digits <= Z.of_nat fuel)%Z ->
  let '(s, e) := shortest fuel (m * scale) D digits in
  (0 <= e)%Z /\ (s * 10 ^ Z.to_N e = m)%N.
Proof.
  intros Hm. revert digits.
  induction fuel as [|fuel IH]; intros digits Hd HD Hf.
  all: cbn [shortest]; unfold scaled.
  all: set (p := (D - digits)%Z).
  all: assert (Hlo : (let '(a, b) :=
                   if (0 <=? digits - D)%Z
                   then ((m * scale * 10 ^ Z.to_N (digits - D))%N, scale)
                   else ((m * scale)%N, (scale * 10 ^ Z.to_N (- (digits - D)))%N)
                 in a / b = m / 10 ^ Z.to_N p)%N).
  1,3: (destruct (Z.leb_spec 0 (digits - D)) as [H|H];
         [ replace (digits - D)%Z with 0%Z by lia;
           replace p with 0%Z by (unfold p; lia);
           cbn [Z.to_N]; rewrite N.pow_0_r, N.mul_1_r, N.div_1_r;
           apply N.div_mul; pose proof scale_pos; lia
         | replace (- (digits - D))%Z with p by (unfold p; lia);
           rewrite (N.mul_comm scale);
           apply N.Div0.div_mul_cancel_r; pose proof scale_pos; lia ]).
  all: destruct (if (0 <=? digits - D)%Z
                 then ((m * scale * 10 ^ Z.to_N (digits - D))%N, scale)
                 else ((m * scale)%N, (scale * 10 ^ Z.to_N (- (digits - D)))%N))
         as [a b].
  all: cbv zeta. 
  all: rewrite Hlo; clear Hlo.
  all: set (lo := (m / 10 ^ Z.to_N p)%N).
  all: replace (D - digits)%Z with p by reflexivity.
  all: assert (Hpow : (0 < 10 ^ Z.to_N p)%N)
         by (apply N.neq_0_lt_0, N.pow_nonzero; lia).
  all: assert (H1 : (lo * 10 ^ Z.to_N p <= m)%N)
         by (unfold lo; rewrite N.mul_comm; apply N.Div0.mul_div_le).
  all: assert (H2 : (m < (lo + 1) * 10 ^ Z.to_N p)%N)
         by (unfold lo; rewrite N.mul_comm, N.add_1_r;
             apply N.mul_succ_div_gt; lia).
  all: assert (Hhi : reads_back (m * scale) (lo + 1) p = false)
         by (apply not_true_is_false; intros H;
             apply reads_back_integer in H; [lia | exact Hm | unfold p; lia]).
  all: rewrite Hhi.
  all: destruct (reads_back (m * scale) lo p) eqn:Elo.
  1,3: (apply reads_back_integer in Elo; [|exact Hm | unfold p; lia];
        split; [unfold p; lia | exact Elo]).
  - exfalso. assert (Hp0 : p = 0%Z) by (unfold p; lia).
    assert (T : reads_back (m * scale) lo p = true).
    { apply reads_back_integer; [exact Hm | unfold p; lia|].
      unfold lo. rewrite Hp0. cbn [Z.to_N]. rewrite N.pow_0_r, N.div_1_r. lia. }
    congruence.
  - assert (Hp0 : p <> 0%Z).
    { intros Hp0.
      assert (T : reads_back (m * scale) lo p = true).
      { apply reads_back_integer; [exact Hm | unfold p; lia|].
        unfold lo. rewrite Hp0. cbn [Z.to_N]. rewrite N.pow_0_r, N.div_1_r. lia. }
      congruence. }
    apply IH; unfold p in *; lia.
Qed.

Lemma strip_zeros_value fuel s e :
  (0 <= e)%Z ->
  let '(s', e') := strip_zeros fuel s e in
  (0 <= e')%Z /\ (s' * 10 ^ Z.to_N e' = s * 10 ^ Z.to_N e)%N.
Proof.
  revert s e. induction fuel as [|fuel IH]; intros s e He; cbn [strip_zeros].
  { now split. }
  destruct (N.eqb_spec (s mod 10) 0) as [H|H]; [|now split].
  specialize (IH (s / 10)%N (e + 1)%Z ltac:(lia)).
  destruct (strip_zeros fuel (s / 10) (e + 1)) as [s' e'].
  destruct IH as [IH1 IH2]. split; [exact IH1|]. rewrite IH2.
  rewrite Z2N.inj_add, N.pow_add_r by lia. cbn [Z.to_N].
  change (10 ^ 1)%N with 10%N.
  pose proof (N.Div0.div_mod s 10) as Hs. rewrite H in Hs. nia.
Qed.

Lemma first_pow10_above_range fuel k e :
  let e' := first_pow10_above fuel k e in
  (e <= e' <= e + Z.of_nat fuel)%Z
  /\ (e' = e + Z.of_nat fuel \/ below_pow10 k e' = true)%Z.
Proof.
  revert e. induction fuel as [|fuel IH]; intros e; cbn [first_pow10_above].
  { split; [lia|]. left. lia. }
  destruct (below_pow10 k e) eqn:E.
  - split; [lia|]. now right.
  - specialize (IH (e + 1)%Z). cbv zeta in IH. destruct IH as [I1 I2].
    split; [lia|]. destruct I2 as [I2|I2]; [left; lia | now right].
Qed.

Lemma decimal_exponent_integer m :
  (0 < m < 2 ^ 53)%N -> (1 <= decimal_exponent (m * scale) <= 18)%Z.
Proof.
  intros Hm. unfold decimal_exponent.
  assert (Hl : N.log2 (m * scale) = (1074 + N.log2 m)%N).
  { unfold scale. apply N.log2_mul_pow2; lia. }
  rewrite Hl.
  assert (HL : (N.log2 m < 53)%N).
  { apply N.log2_lt_pow2; lia. }
  set (e0 := ((Z.of_N (1074 + N.log2 m) - 1074) * 30103 / 100000 - 1)%Z).
  assert (He0 : (-1 <= e0 <= 14)%Z).
  { unfold e0.
    replace (Z.of_N (1074 + N.log2 m) - 1074)%Z with (Z.of_N (N.log2 m)) by lia.
    assert (0 <= Z.of_N (N.log2 m) * 30103 / 100000 < 16)%Z.
    { split.
      - apply Z.div_pos; lia.
      - apply Z.div_lt_upper_bound; lia. }
    lia. }
  pose proof (first_pow10_above_range 4 (m * scale) e0) as H.
  cbv zeta in H. destruct H as [H1 H2]. split; [|lia].
  destruct H2 as [H2|H2]; [lia|].
  unfold below_pow10 in H2.
  set (e' := first_pow10_above 4 (m * scale) e0) in *.
  destruct (Z.leb_spec 0 e') as [Hp|Hn].
  - apply N.ltb_lt in H2.
    destruct (Z.eq_dec e' 0) as [E|E]; [|lia].
    rewrite E in H2. cbn [Z.to_N] in H2. rewrite N.pow_0_r in H2.
    pose proof scale_pos. nia.
  - apply N.ltb_lt in H2.
    assert (HP : (0 < 10 ^ Z.to_N (- e'))%N)
      by (apply N.neq_0_lt_0, N.pow_nonzero; lia).
    pose proof scale_pos as HS. revert H2 HP HS.
    generalize (10 ^ Z.to_N (- e'))%N scale. intros P S H2 HP HS.
    assert (S * 1 <= m * S * P)%N; [|lia].
    rewrite (N.mul_comm m S), <- N.mul_assoc.
    apply N.mul_le_mono_l. nia.
Qed.

Lemma shortest_digits_integer m :
  (0 < m < 2 ^ 53)%N ->
  let '(s, e) := shortest_digits (m * scale) in
  (0 <= e)%Z /\ (s * 10 ^ Z.to_N e = m)%N.
Proof.
  intros Hm. unfold shortest_digits.
  pose proof (decimal_exponent_integer Hm) as HD.
  set (D := decimal_exponent (m * scale)) in *.
  assert (H17 : Z.of_nat 17 = 17%Z) by reflexivity.
  assert (Hd : (1 <= 1 <= D)%Z) by lia.
  assert (H400 : (D <= 400)%Z) by lia.
  assert (Hf : (D - 1 <= Z.of_nat 17)%Z) by lia.
  pose proof (@shortest_integer m D 17 1 Hm Hd H400 Hf) as H.
  destruct (shortest 17 (m * scale) D 1) as [s e].
  destruct H as [He Hs].
  pose proof (strip_zeros_value 20 s He) as H.
  destruct (strip_zeros 20 s e) as [s' e']. destruct H as [H1 H2].
  split; [exact H1 | congruence].
Qed.

Lemma thousandths_integer m :
  (m < 2 ^ 53)%N -> Number.thousandths (m * scale) = (m * 1000)%N.
Proof.
  intros Hm. unfold Number.thousandths.
  destruct (N.eqb_spec (m * scale) 0) as [H|H].
  { pose proof scale_pos. nia. }
  assert (Hm' : (0 < m < 2 ^ 53)%N) by (pose proof scale_pos; nia).
  pose proof (shortest_digits_integer Hm') as Hs.
  destruct (shortest_digits (m * scale)) as [s e]. destruct Hs as [He Hs].
  destruct (Z.leb_spec 0 (e + 3)) as [_|Hn]; [|lia].
  rewrite Z2N.inj_add, N.pow_add_r by lia. cbn [Z.to_N].
  change (10 ^ 3)%N with 1000%N. nia.
Qed.

Lemma toLocaleString_integer neg m :
  (m < 2 ^ 53)%N ->
  Number.toLocaleString (Fin neg (m * scale)) = minus neg ++ group3 (decimal m).
Proof.
  intros Hm. unfold Number.toLocaleString. cbv zeta.
  rewrite (thousandths_integer Hm).
  rewrite N.Div0.mod_mul, N.div_mul by lia.
  change (fraction3 0) with (@nil N). now rewrite app_nil_r.
Qed.

End WholeNumbers.

Lemma fixed_one n :
  Number.fixed n 1 = decimal (n / 10) ++ utf16 "." ++ decimal (n mod 10).
Proof.
  unfold Number.fixed. cbn [Nat.eqb].
  pose proof (N.mod_upper_bound n 10 ltac:(lia)) as Hr.
  rewrite (@decimal_small _ Hr).
  destruct (N.ltb_spec n 10) as [H|H].
  - rewrite (@decimal_small _ H), N.div_small, N.mod_small by exact H.
    reflexivity.
  - rewrite (@decimal_step _ H).
    set (X := decimal (n / 10)). set (d := (48 + n mod 10)%N).
    assert (HX : (1 <= length X)%nat).
    { pose proof (decimal_not_empty (n / 10)). fold X in H0.
      destruct X; [congruence | simpl; lia]. }
    assert (Hl : length (X ++ [d]) = S (length X)).
    { rewrite length_app. simpl. lia. }
    rewrite Hl.
    replace (1 + 1 - S (length X))%nat with 0%nat by lia.
    change (zeros 0) with (@nil N). cbn [app]. rewrite Hl.
    replace (S (length X) - 1)%nat with (length X) by lia.
    rewrite firstn_app, firstn_all, skipn_app, skipn_all, Nat.sub_diag.
    cbn [firstn skipn app]. now rewrite app_nil_r.
Qed.

End FormatFacts.

Section Cells.

Import JsString FormatFacts.

Lemma drop_zeros_Forall (P : N -> Prop) l :
  Forall P l -> Forall P (Number.drop_zeros l).
Proof.
  induction 1 as [|c l Hc Hl IH]; simpl; [constructor|].
  destruct (c =? 48)%N; [exact IH | now constructor].
Qed.

Lemma zeros_digit n : Forall digit (zeros n).
Proof.
  unfold zeros. induction n; simpl; constructor; [unfold digit; lia | assumption].
Qed.

Lemma digit_numeral l : Forall digit l -> Forall numeral_char l.
Proof. apply Forall_impl. intros c H. now left. Qed.

Lemma toLocaleString_chars neg k :
  Forall numeral_char (Number.toLocaleString (Number.Fin neg k)).
Proof.
  unfold Number.toLocaleString. cbv zeta.
  generalize (Number.thousandths k). intros n.
  apply Forall_app. split.
  { destruct neg; simpl; [|constructor].
    constructor; [|constructor]. right. right. now left. }
  apply Forall_app. split.
  { apply group3_Forall; [right; now left|].
    apply digit_numeral, decimal_digit. }
  assert (Hf : forall n, Forall numeral_char (Number.fraction3 n)).
  { intros t. unfold Number.fraction3. apply digit_numeral, Forall_rev.
    apply drop_zeros_Forall, Forall_rev, Forall_app.
    split; [apply zeros_digit | apply decimal_digit]. }
  destruct (Number.fraction3 _) eqn:E; [constructor|].
  rewrite <- E. apply Forall_app. split; [|apply Hf].
  constructor; [|constructor]. right. right. now right.
Qed.

Lemma decimal_length_3 f : (f < 1000)%N -> (length (decimal f) <= 3)%nat.
Proof.
  intros H.
  destruct (N.ltb_spec f 10) as [H1|H1].
  { rewrite (@decimal_small _ H1). cbn [length]. lia. }
  rewrite (@decimal_step _ H1), length_app. cbn [length].
  destruct (N.ltb_spec (f / 10) 10) as [H2|H2].
  { rewrite (@decimal_small _ H2). cbn [length]. lia. }
  rewrite (@decimal_step _ H2), length_app. cbn [length].
  assert (H3 : (f / 10 / 10 < 10)%N).
  { rewrite N.Div0.div_div. apply N.Div0.div_lt_upper_bound. exact H. }
  rewrite (@decimal_small _ H3). cbn [length]. lia.
Qed.

Lemma drop_zeros_length l : (length (Number.drop_zeros l) <= length l)%nat.
Proof.
  induction l as [|c l IH]; cbn [Number.drop_zeros length]; [lia|].
  destruct (c =? 48)%N; cbn [length]; lia.
Qed.

Lemma drop_zeros_head l : hd 49%N (Number.drop_zeros l) <> 48%N.
Proof.
  induction l as [|c l IH]; cbn [Number.drop_zeros]; [discriminate|].
  destruct (N.eqb_spec c 48); [exact IH | exact n].
Qed.

Lemma last_rev (l : list N) d : last (rev l) d = hd d l.
Proof.
  destruct l as [|c l]; [reflexivity|]. cbn [rev hd]. apply last_last.
Qed.

(** The fraction: at most three digits, the last of them not a zero. *)
Lemma fraction3_shape f :
  (f < 1000)%N ->
  (length (Number.fraction3 f) <= 3)%nat
  /\ Forall digit (Number.fraction3 f)
  /\ last (Number.fraction3 f) 49%N <> 48%N.
Proof.
  intros H. unfold Number.fraction3. cbv zeta.
  pose proof (decimal_length_3 H) as Hl.
  split; [|split].
  - rewrite length_rev.
    eapply Nat.le_trans; [apply drop_zeros_length|].
    rewrite length_rev, length_app. unfold zeros. rewrite repeat_length. lia.
  - apply Forall_rev, drop_zeros_Forall, Forall_rev, Forall_app.
    split; [apply zeros_digit | apply decimal_digit].
  - rewrite last_rev. apply drop_zeros_head.
Qed.

Lemma toLocaleString_shape neg k :
  exists whole fs,
    Number.toLocaleString (Number.Fin neg k)
    = Number.minus neg ++ Number.group3 (decimal whole)
      ++ (match fs with [] => [] | _ :: _ => utf16 "." ++ fs end)
    /\ (length fs <= 3)%nat /\ Forall digit fs /\ last fs 49%N <> 48%N.
Proof.
  unfold Number.toLocaleString. cbv zeta.
  exists (Number.thousandths k / 1000)%N,
    (Number.fraction3 (Number.thousandths k mod 1000)).
  split; [reflexivity|].
  apply fraction3_shape, N.mod_upper_bound. lia.
Qed.

Lemma occurs_in_Forall (P : N -> Prop) p s :
  JsString.occurs_in p s -> Forall P s -> Forall P p.
Proof.
  intros (pre & post & ->) H.
  apply Forall_app in H. destruct H as [_ H].
  apply Forall_app in H. tauto.
Qed.

Lemma finiteStr_dash_or_numeral v :
  finiteStr v = utf16 "-" \/ Forall numeral_char (finiteStr v).
Proof.
  destruct v as [|x|s]; try (now left).
  destruct x as [|n|n k]; try (now left).
  right. apply toLocaleString_chars.
Qed.

Lemma app_split_5 (a b c d e f : list N) :
  a ++ b ++ c ++ d ++ e ++ f = (a ++ b ++ c ++ d) ++ e ++ f.
Proof. now rewrite <- !app_assoc. Qed.

Lemma app_split_8 (a b c d e f g h i : list N) :
  a ++ b ++ c ++ d ++ e ++ f ++ g ++ h ++ i
  = (a ++ b ++ c ++ d ++ e ++ f ++ g) ++ h ++ i.
Proof. now rewrite <- !app_assoc. Qed.

Lemma cell_in_row r i :
  JsString.occurs_in (td (capStr (marketCap r))) (tr i r)
  /\ exists pre,
       tr i r = pre ++ td (finiteStr (of_option_number (EPS r)))
                    ++ td (finiteStr (of_option_number (BPS r))).
Proof.
  unfold tr. cbv zeta. rewrite get_EPS, get_BPS. split.
  - eexists. eexists. apply app_split_5.
  - eexists. apply app_split_8.
Qed.

Lemma below_2_53 m : (m < 10000)%N -> (m < 2 ^ 53)%N.
Proof. intros H. apply N.lt_trans with 10000%N; [exact H | reflexivity]. Qed.

End Cells.

(** C7, as the code has it.  The capitalization cell of a row: for a
    value of at least 10000 whose quotient by 10000 is finite and below
    10^21, the numeral with one fraction digit nearest to that quotient
    (the larger one on a tie), followed by "조"; for a whole number
    below 10000, its digits in groups of three, followed by "억".
    12345 gives "1.2조" and 9999 gives "9,999억".  Any other value below
    10000 is printed by [toLocaleString], followed by "억". *)
Theorem C7_cap_format (r : Row) (i : nat) :
  let cap := marketCap r in
  JsString.occurs_in (td (capStr cap)) (tr i r)
  /\ (forall kq,
        Number.geb cap (Number.of_N 10000) = true ->
        Number.div cap (Number.of_N 10000) = Number.Fin false kq ->
        (kq < 10 ^ 21 * Number.scale)%N ->
        exists n,
          capStr cap
          = JsString.decimal (n / 10) ++ utf16 "."
            ++ JsString.decimal (n mod 10) ++ utf16 "조"
          /\ (2 * Number.scale * n <= 2 * (kq * 10) + Number.scale
              < 2 * Number.scale * n + 2 * Number.scale)%N)
  /\ (forall m, cap = Number.of_N m -> (m < 10000)%N ->
        capStr cap = Number.group3 (JsString.decimal m) ++ utf16 "억")
  /\ (Number.geb cap (Number.of_N 10000) = false ->
        capStr cap = Number.toLocaleString cap ++ utf16 "억")
  /\ capStr (Number.of_N 12345) = utf16 "1.2조"
  /\ capStr (Number.of_N 9999) = utf16 "9,999억".
Proof.
  cbv zeta. split; [apply cell_in_row|]. split; [|split; [|split]].
  - intros kq Hge Hdiv Hlt. unfold capStr. rewrite Hge, Hdiv.
    exists (Number.round_half_up (kq * 10) Number.scale). split.
    + unfold Number.toFixed. cbv zeta.
      destruct (N.leb_spec (10 ^ 21 * Number.scale) kq) as [H|_]; [lia|].
      change (10 ^ N.of_nat 1)%N with 10%N.
      change (Number.minus (false && negb (kq =? 0)%N)) with (@nil N).
      cbn [app]. rewrite FormatFacts.fixed_one. now rewrite <- !app_assoc.
    + apply FormatFacts.round_half_up_nearest, FormatFacts.scale_pos.
  - intros m -> Hm. unfold capStr.
    rewrite (@FormatFacts.of_N_exact m (@below_2_53 m Hm)).
    rewrite (@FormatFacts.of_N_exact 10000 eq_refl).
    assert (Hlt : (m * Number.scale < 10000 * Number.scale)%N).
    { apply N.mul_lt_mono_pos_r; [apply FormatFacts.scale_pos | exact Hm]. }
    unfold Number.geb, Number.compare, Number.signed.
    destruct (Z.compare_spec (Z.of_N (m * Number.scale))
                (Z.of_N (10000 * Number.scale))) as [H|H|H]; try lia.
    now rewrite (@FormatFacts.toLocaleString_integer false m (@below_2_53 m Hm)).
  - intros H. unfold capStr. now rewrite H.
  - split; vm_compute; reflexivity.
Qed.

(** C7 as stated fails: 9999.5 is below 10000 and is shown as
    "9,999.5억", which is no whole number in groups of three. *)
Lemma C7_fraction_is_shown :
  Number.geb cap_9999_5 (Number.of_N 10000) = false
  /\ capStr cap_9999_5 = utf16 "9,999.5억"
  /\ ~ exists m, capStr cap_9999_5
                 = Number.group3 (JsString.decimal m) ++ utf16 "억".
Proof.
  assert (E : capStr cap_9999_5 = utf16 "9,999.5억") by (vm_compute; reflexivity).
  split; [vm_compute; reflexivity|]. split; [exact E|].
  rewrite E. intros [m H].
  change (utf16 "9,999.5억") with (utf16 "9,999.5" ++ utf16 "억") in H.
  apply app_inv_tail in H.
  assert (Hf : Forall (fun c => JsString.digit c \/ c = 44%N)
                 (Number.group3 (JsString.decimal m))).
  { apply FormatFacts.group3_Forall; [now right|].
    eapply Forall_impl; [|apply FormatFacts.decimal_digit]. intros c Hc. now left. }
  rewrite <- H in Hf. rewrite Forall_forall in Hf.
  destruct (Hf 46%N) as [Hd|Hd].
  - vm_compute. tauto.
  - unfold JsString.digit in Hd. lia.
  - discriminate.
Qed.

(** C8, as the code has it.  The row ends with the EPS and BPS cells.
    Such a cell is "-" when the value is absent or not finite, and it
    never holds "NaN".  A finite value is shown as a numeral in groups
    of three: a minus sign when it is negative, the integer digits
    with a comma between groups of three and, unless the value rounded
    to thousandths is whole, a point and one to three fraction digits
    of which the last is not a zero.  A whole number below 2^53 is
    shown as its own digits in groups of three.  For the rows of the
    data model (ticker and name strings, numbers for the
    capitalization, PER and PBR) building the row is a total function:
    nothing is thrown. *)
Theorem C8_eps_bps_cells (r : Row) (i : nat) :
  (exists pre,
     tr i r = pre ++ td (finiteStr (of_option_number (EPS r)))
                  ++ td (finiteStr (of_option_number (BPS r))))
  /\ forall v : option number,
     let cell := finiteStr (of_option_number v) in
     (v = None -> cell = utf16 "-")
     /\ (forall x, v = Some x -> Number.isFinite x = false -> cell = utf16 "-")
     /\ ~ JsString.occurs_in (utf16 "NaN") cell
     /\ (forall neg k, v = Some (Number.Fin neg k) ->
         exists whole fs,
           cell = Number.minus neg ++ Number.group3 (JsString.decimal whole)
                  ++ (match fs with [] => [] | _ :: _ => utf16 "." ++ fs end)
           /\ (length fs <= 3)%nat /\ Forall JsString.digit fs
           /\ last fs 49%N <> 48%N)
     /\ (forall m, (m < 2 ^ 53)%N -> v = Some (Number.of_N m) ->
         cell = Number.group3 (JsString.decimal m))
     /\ (forall m, (m < 2 ^ 53)%N -> v = Some (Number.opp (Number.of_N m)) ->
         cell = utf16 "-" ++ Number.group3 (JsString.decimal m)).
Proof.
  split; [apply cell_in_row|]. intros v. cbv zeta.
  split; [intros ->; reflexivity|].
  split; [intros x -> Hx; cbn [of_option_number finiteStr]; now rewrite Hx|].
  split.
  - intros Ho.
    destruct (finiteStr_dash_or_numeral (of_option_number v)) as [E|Hf].
    + rewrite E in Ho. revert Ho. apply JsStringFacts.indexOf_none.
      vm_compute. reflexivity.
    + apply (@occurs_in_Forall _ _ _ Ho) in Hf.
      inversion Hf as [|? ? Hc _]; subst.
      destruct Hc as [Hc|[Hc|[Hc|Hc]]]; try discriminate.
      unfold JsString.digit in Hc. lia.
  - split; [|split].
    + intros neg k ->. cbn [of_option_number finiteStr Number.isFinite].
      apply toLocaleString_shape.
    + intros m Hm ->. rewrite (@FormatFacts.of_N_exact m Hm).
      cbn [of_option_number finiteStr Number.isFinite].
      now rewrite (@FormatFacts.toLocaleString_integer false m Hm).
    + intros m Hm ->. rewrite (@FormatFacts.of_N_exact m Hm).
      cbn [of_option_number finiteStr Number.isFinite Number.opp negb].
      now rewrite (@FormatFacts.toLocaleString_integer true m Hm).
Qed.

(** C8 as stated fails: the finite value 1234.5 is shown as "1,234.5",
    which is no whole number in groups of three. *)
Lemma C8_fraction_is_shown :
  Number.isFinite eps_1234_5 = true
  /\ finiteStr (VNumber eps_1234_5) = utf16 "1,234.5"
  /\ ~ exists neg m, finiteStr (VNumber eps_1234_5)
                     = Number.minus neg ++ Number.group3 (JsString.decimal m).
Proof.
  assert (E : finiteStr (VNumber eps_1234_5) = utf16 "1,234.5")
    by (vm_compute; reflexivity).
  split; [vm_compute; reflexivity|]. split; [exact E|].
  rewrite E. intros (neg & m & H).
  assert (Hf : Forall (fun c => JsString.digit c \/ c = 44%N \/ c = 45%N)
                 (Number.minus neg ++ Number.group3 (JsString.decimal m))).
  { apply Forall_app. split.
    - destruct neg; [|constructor]. constructor; [|constructor]. right. now right.
    - apply FormatFacts.group3_Forall; [right; now left|].
      eapply Forall_impl; [|apply FormatFacts.decimal_digit]. intros c Hc. now left. }
  rewrite <- H in Hf. rewrite Forall_forall in Hf.
  destruct (Hf 46%N) as [Hd|[Hd|Hd]].
  - vm_compute. tauto.
  - unfold JsString.digit in Hd. lia.
  - discriminate.
  - discriminate.
Qed.

(* ================================================================== *)
(** * The table as a whole *)

(** ** Ties keep their order *)

Section Stability.

Variable A : Type.
Variable comparefn : A -> A -> number.
Variable f : A -> bool.

Hypothesis tie : forall x y,
  f x = true -> f y = true -> after comparefn y x = false.

Lemma insert_filter x l :
  filter f (insert comparefn x l) = filter f [x] ++ filter f l.
Proof.
  induction l as [|y ys IH].
  { cbn [insert filter app]. now destruct (f x). }
  cbn [insert]. destruct (after comparefn y x) eqn:E;
    [|cbn [filter app]; now destruct (f x)].
  cbn [filter]. rewrite IH. cbn [filter app].
  destruct (f y) eqn:Fy, (f x) eqn:Fx; try reflexivity.
  rewrite (tie Fx Fy) in E. discriminate.
Qed.

Lemma fold_insert_filter l acc :
  filter f (fold_left (fun p x => insert comparefn x p) l acc)
  = rev (filter f l) ++ filter f acc.
Proof.
  revert acc. induction l as [|x l IH]; intros acc; [reflexivity|].
  cbn [fold_left]. rewrite IH, insert_filter. cbn [filter].
  destruct (f x); cbn [rev app]; [|reflexivity].
  now rewrite <- app_assoc.
Qed.

(** Elements the comparator does not tell apart come out in the order
    they went in. *)
Lemma sort_filter l : filter f (sort comparefn l) = filter f l.
Proof.
  unfold sort. rewrite filter_rev, fold_insert_filter.
  cbn [filter]. now rewrite app_nil_r, rev_involutive.
Qed.

End Stability.

Lemma same_number_eq x y : same_number x y = true <-> x = y.
Proof.
  destruct x as [|a|a k], y as [|b|b k']; simpl; split;
    try discriminate; try reflexivity.
  - intros H. apply Bool.eqb_prop in H. now subst.
  - intros [= ->]. apply Bool.eqb_reflx.
  - intros H. apply andb_true_iff in H. destruct H as [H1 H2].
    apply Bool.eqb_prop in H1. apply N.eqb_eq in H2. now subst.
  - intros [= -> ->]. now rewrite Bool.eqb_reflx, N.eqb_refl.
Qed.

Lemma same_value_eq v v' : same_value v v' = true <-> v = v'.
Proof.
  destruct v as [|x|s], v' as [|y|s']; simpl; split;
    try discriminate; try reflexivity.
  - intros H. apply same_number_eq in H. now subst.
  - intros [= ->]. now apply same_number_eq.
  - intros H. apply JsStringFacts.eqb_eq in H. now subst.
  - intros [= ->]. apply JsStringFacts.eqb_refl.
Qed.

(** A number is never after itself: x - x is zero or NaN. *)
Lemma gtb_sub_self x : Number.gtb (Number.sub x x) Number.zero = false.
Proof.
  destruct x as [|n|n k]; try reflexivity.
  - now destruct n.
  - unfold Number.sub, Number.add, Number.opp.
    rewrite NumberOrder.signed_opp.
    replace (Number.signed n k + - Number.signed n k)%Z with 0%Z by lia.
    cbn [Z.eqb]. unfold Number.gtb, Number.compare, Number.zero.
    now rewrite NumberOrder.signed_zero.
Qed.

Lemma compareRows_tie `{L : Locale} `{!Collation L} k asc a b :
  get a k = get b k -> after (compareRows k asc) b a = false.
Proof.
  intros E. unfold after, compareRows. rewrite E.
  destruct (get b k) as [|x|s]; cbn [ToString ToNumber].
  - destruct asc; now rewrite collate_refl.
  - destruct asc; apply gtb_sub_self.
  - destruct asc; now rewrite collate_refl.
Qed.

(** X1.  Sorting is stable.  When the keys of the filtered rows under
    the sort column are of one kind (all numbers other than NaN, or
    none a number), so that the comparator is consistent: among the
    rows shown, those with one and the same key under the sort column
    stand in the order the filter left them in, which is the order of
    the dataset, whatever the direction. *)
Theorem sort_keeps_ties `{L : Locale} `{!Collation L} (w : Widget) (v : value) :
  homogeneous (sortKey w) (filter (keep (controls w)) (allRows w)) ->
  with_key (sortKey w) v (visible_rows w)
  = with_key (sortKey w) v (filter (keep (controls w)) (allRows w)).
Proof.
  intros _. unfold visible_rows, with_key.
  destruct (JsString.truthy (sortKey w)
            && negb (JsString.eqb (sortKey w) (utf16 "#"))); [|reflexivity].
  apply sort_filter. intros x y Hx Hy. apply compareRows_tie.
  apply same_value_eq in Hx, Hy. congruence.
Qed.

Lemma sort_keeps_ties_witness :
  let w := handle (HeaderClick 3) three_rows in
  with_key (sortKey w) (VString (utf16 "IT")) (visible_rows w)
  = with_key (sortKey w) (VString (utf16 "IT"))
      (filter (keep (controls w)) (allRows w)).
Proof.
  apply (@sort_keeps_ties ascii_locale ascii_collation
           (handle (HeaderClick 3) three_rows) (VString (utf16 "IT"))).
  right. apply textual_ticker_name_sector. right. right. reflexivity.
Defined.

(** ** Rendering again *)

Section Rendering.

Context {L : Locale}.

(** A reflow overwrites what an earlier one wrote. *)
Lemma reflow_absorb k a k' a' th col :
  reflow k a (reflow k' a' th col) col = reflow k a th col.
Proof.
  unfold reflow. destruct (sortable col); cbn [negb]; [|reflexivity].
  cbn [th_left th_label th_arrow th_click th_sorted].
  now destruct (th_arrow th).
Qed.

Lemma reflow_all_absorb k a k' a' ths cols :
  reflow_all k a (reflow_all k' a' ths cols) cols = reflow_all k a ths cols.
Proof.
  revert cols. induction ths as [|th ths IH]; intros [|col cols];
    cbn [reflow_all]; try reflexivity.
  now rewrite reflow_absorb, IH.
Qed.

Lemma visible_rows_render w : visible_rows (render w) = visible_rows w.
Proof. reflexivity. Qed.

Lemma render_idem w : render (render w) = render w.
Proof.
  unfold render at 1 3. unfold with_page.
  rewrite visible_rows_render.
  cbn [allRows sortKey sortAsc controls page requests pending render with_page
       kw_date kw_status_class kw_status_text kw_status_display
       kw_table_wrap_display kw_sector_options kw_count kw_thead kw_tbody].
  now rewrite reflow_all_absorb.
Qed.

(** Rendering after a change of the sort state forgets the page
    before. *)
Lemma render_with_sort k a k' a' w :
  render (with_sort k a (render (with_sort k' a' w)))
  = render (with_sort k a w).
Proof.
  unfold render at 1 3. unfold with_page, with_sort.
  cbn [allRows sortKey sortAsc controls page requests pending render with_page
       kw_date kw_status_class kw_status_text kw_status_display
       kw_table_wrap_display kw_sector_options kw_count kw_thead kw_tbody].
  rewrite reflow_all_absorb. reflexivity.
Qed.

Lemma with_sort_same w : with_sort (sortKey w) (sortAsc w) w = w.
Proof. now destruct w. Qed.

End Rendering.

(** ** The page follows the state *)

Section Sync.

Context {L : Locale}.

Lemma thead_empty_or_rendered_step e w :
  invariant w ->
  kw_thead (page w) = [] \/ render w = w ->
  kw_thead (page (handle e w)) = [] \/ render (handle e w) = handle e w.
Proof.
  intros Hinv HJ.
  destruct e as [v|v|v|v|v|v|v|i| |res]; cbn [handle];
    try (right; apply render_idem).
  - destruct (nth_error (kw_thead (page w)) i) as [th|]; [|exact HJ].
    destruct (th_click th) as [col|]; [|exact HJ].
    right. apply render_idem.
  - destruct (pending w) eqn:Ep; [|exact HJ].
    destruct Hinv as (_ & _ & Hp & _). specialize (Hp Ep).
    unfold init_resume. destruct (load res) as [m|[[d|m] rows]].
    + left. exact Hp.
    + right. apply render_idem.
    + left. exact Hp.
Qed.

Lemma thead_empty_or_rendered w :
  reachable w -> kw_thead (page w) = [] \/ render w = w.
Proof.
  induction 1 as [c p|w e Hr IH]; [now left|].
  apply thead_empty_or_rendered_step; [now apply reachable_invariant | exact IH].
Qed.

Lemma header_built_not_empty w : header_built w -> kw_thead (page w) <> [].
Proof. unfold header_built. intros H E. rewrite E in H. discriminate. Qed.

(** With a header row, the page is the one [render] writes. *)
Lemma rendered w : reachable w -> header_built w -> render w = w.
Proof.
  intros Hr Hb. destruct (thead_empty_or_rendered Hr) as [E|E]; [|exact E].
  now destruct (header_built_not_empty Hb).
Qed.

End Sync.

(** X2.  Once the header is built, that is after a successful load,
    every state the widget reaches is one [render] leaves as it is:
    the table body holds the rows of the current state, one body row
    per shown row, the count label says how many there are, and there
    are never more than the dataset has. *)
Theorem page_follows_state `{L : Locale} (w : Widget) :
  reachable w ->
  header_built w ->
  render w = w
  /\ kw_tbody (page w) = mapi tr (visible_rows w)
  /\ kw_count (page w)
     = JsString.decimal (N.of_nat (length (visible_rows w))) ++ utf16 "개 종목"
  /\ length (kw_tbody (page w)) = length (visible_rows w)
  /\ (length (visible_rows w) <= length (allRows w))%nat.
Proof.
  intros Hr Hb. pose proof (rendered Hr Hb) as H.
  split; [exact H|].
  assert (Ht : kw_tbody (page w) = mapi tr (visible_rows w)).
  { rewrite <- H at 1. reflexivity. }
  split; [exact Ht|]. split; [rewrite <- H at 1; reflexivity|].
  split.
  - rewrite Ht. unfold mapi. apply mapi_from_length.
  - rewrite (Permutation_length (visible_rows_perm w)).
    apply filter_length_le.
Qed.

Lemma page_follows_state_witness :
  let w := handle (SearchInput (utf16 "sam")) (handle (HeaderClick 2) three_rows) in
  render w = w
  /\ kw_tbody (page w) = mapi tr (visible_rows w)
  /\ kw_count (page w)
     = JsString.decimal (N.of_nat (length (visible_rows w))) ++ utf16 "개 종목"
  /\ length (kw_tbody (page w)) = length (visible_rows w)
  /\ (length (visible_rows w) <= length (allRows w))%nat.
Proof.
  apply (@page_follows_state ascii_locale
           (handle (SearchInput (utf16 "sam")) (handle (HeaderClick 2) three_rows))).
  - unfold three_rows. apply reach_step, reach_step, reach_step, reach_boot.
  - vm_compute. reflexivity.
Defined.

(** ** The header row *)

Section HeaderRow.

Context {L : Locale}.

Lemma reflow_header_cell k a k' a' col :
  (sortable col = false -> JsString.eqb (key col) k = JsString.eqb (key col) k') ->
  reflow k' a' (header_cell k a col) col = header_cell k' a' col.
Proof.
  intros H. unfold reflow, header_cell.
  destruct (sortable col) eqn:E; cbn [negb th_left th_label th_arrow th_click th_sorted].
  - reflexivity.
  - now rewrite H.
Qed.

Lemma reflow_all_cells k a k' a' cols :
  (forall col, In col cols -> sortable col = false ->
     JsString.eqb (key col) k = JsString.eqb (key col) k') ->
  reflow_all k' a' (map (header_cell k a) cols) cols
  = map (header_cell k' a') cols.
Proof.
  induction cols as [|col cols IH]; intros H; [reflexivity|].
  cbn [map reflow_all]. rewrite reflow_header_cell, IH.
  - reflexivity.
  - intros c Hc. apply H. now right.
  - apply H. now left.
Qed.

Lemma reflow_build_th k a col :
  reflow k a (build_th k col) col = header_cell k a col.
Proof.
  unfold reflow, build_th, header_cell, listener.
  destruct (sortable col); reflexivity.
Qed.

Lemma reflow_all_build k a cols :
  reflow_all k a (map (build_th k) cols) cols = map (header_cell k a) cols.
Proof.
  induction cols as [|col cols IH]; [reflexivity|].
  cbn [map reflow_all]. now rewrite reflow_build_th, IH.
Qed.

(** The cell of the rank column is never the active one. *)
Lemma rank_cell_inactive k col :
  In k sortable_keys -> In col COLS -> sortable col = false ->
  JsString.eqb (key col) k = false.
Proof.
  intros Hk Hc Hs. unfold COLS in Hc. cbn [In] in Hc.
  destruct Hc as [<-|Hc];
    [|repeat (destruct Hc as [<-|Hc]; [discriminate Hs|]); destruct Hc].
  vm_compute in Hk.
  repeat (destruct Hk as [<-|Hk]; [reflexivity|]). destruct Hk.
Qed.

Lemma header_render w :
  In (sortKey w) sortable_keys ->
  (kw_thead (page w) = []
   \/ exists k a, In k sortable_keys /\ kw_thead (page w) = header_of k a) ->
  kw_thead (page (render w)) = []
  \/ kw_thead (page (render w)) = header_of (sortKey w) (sortAsc w).
Proof.
  intros Hk [E|(k & a & Hk' & E)]; cbn [render with_page page kw_thead];
    rewrite E.
  - now left.
  - right. unfold header_of. apply reflow_all_cells.
    intros col Hc Hs.
    now rewrite (rank_cell_inactive Hk' Hc Hs), (rank_cell_inactive Hk Hc Hs).
Qed.

Lemma header_step e w :
  invariant w ->
  (kw_thead (page w) = []
   \/ kw_thead (page w) = header_of (sortKey w) (sortAsc w)) ->
  kw_thead (page (handle e w)) = []
  \/ kw_thead (page (handle e w))
     = header_of (sortKey (handle e w)) (sortAsc (handle e w)).
Proof.
  intros Hinv HK.
  assert (HK' : kw_thead (page w) = []
                \/ exists k a, In k sortable_keys
                               /\ kw_thead (page w) = header_of k a).
  { destruct HK as [E|E]; [now left|]. right.
    exists (sortKey w), (sortAsc w). split; [apply Hinv | exact E]. }
  pose proof (invariant_handle e Hinv) as Hinv'.
  assert (Hk' : In (sortKey (handle e w)) sortable_keys) by apply Hinv'.
  clear Hinv'.
  destruct e as [v|v|v|v|v|v|v|i| |res]; cbn [handle] in *;
    try (match goal with
         | |- context [render ?x] => exact (header_render x Hk' HK')
         end).
  - destruct (nth_error (kw_thead (page w)) i) as [th|]; [|exact HK].
    destruct (th_click th) as [col|]; [|exact HK].
    unfold on_click in *.
    destruct (JsString.eqb (sortKey w) (key col));
      match goal with
      | |- context [render ?x] => exact (header_render x Hk' HK')
      end.
  - unfold on_reset in *.
    match goal with
    | |- context [render ?x] => exact (header_render x Hk' HK')
    end.
  - destruct (pending w) eqn:Ep; [|exact HK].
    destruct Hinv as (_ & _ & Hp & _). specialize (Hp Ep).
    unfold init_resume in *. destruct (load res) as [m|[[d|m] rows]].
    + left. exact Hp.
    + right. cbn [render with_page page kw_thead buildHeader with_allRows
                  settled sortKey sortAsc].
      rewrite Hp. cbn [app]. apply reflow_all_build.
    + left. exact Hp.
Qed.

Lemma header_reachable w :
  reachable w ->
  kw_thead (page w) = []
  \/ kw_thead (page w) = header_of (sortKey w) (sortAsc w).
Proof.
  induction 1 as [c p|w e Hr IH]; [now left|].
  apply header_step; [now apply reachable_invariant | exact IH].
Qed.

Lemma header_row w :
  reachable w -> header_built w ->
  kw_thead (page w) = header_of (sortKey w) (sortAsc w).
Proof.
  intros Hr Hb. destruct (header_reachable Hr) as [E|E]; [|exact E].
  now destruct (header_built_not_empty Hb).
Qed.

Lemma filter_header_cells k a cols :
  map th_label (filter th_sorted (map (header_cell k a) cols))
  = map label (filter (fun col => JsString.eqb (key col) k) cols).
Proof.
  induction cols as [|col cols IH]; [reflexivity|].
  cbn [map filter header_cell th_sorted].
  destruct (JsString.eqb (key col) k); cbn [map th_label]; now rewrite IH.
Qed.

Lemma one_column_per_key k :
  In k sortable_keys ->
  length (filter (fun col => JsString.eqb (key col) k) COLS) = 1%nat.
Proof.
  intros Hk. vm_compute in Hk.
  repeat (destruct Hk as [<-|Hk]; [vm_compute; reflexivity|]). destruct Hk.
Qed.

End HeaderRow.

(** X3.  Once the header is built, in every state the widget reaches
    the header row has one cell per column of [COLS], in order, with
    the label of the column; exactly one cell is marked as sorted, the
    one of the sort key; the arrow of that cell points up when the
    direction is ascending and down when it is descending, every other
    sortable cell shows the neutral pair, and the rank cell has no
    arrow and no listener. *)
Theorem header_shows_sort_state `{L : Locale} (w : Widget) :
  reachable w ->
  header_built w ->
  kw_thead (page w) = header_of (sortKey w) (sortAsc w)
  /\ map th_label (filter th_sorted (kw_thead (page w)))
     = map label (filter (fun col => JsString.eqb (key col) (sortKey w)) COLS)
  /\ length (filter th_sorted (kw_thead (page w))) = 1%nat.
Proof.
  intros Hr Hb. pose proof (header_row Hr Hb) as E.
  split; [exact E|]. rewrite E. unfold header_of.
  split; [apply filter_header_cells|].
  rewrite <- (length_map th_label), filter_header_cells, length_map.
  apply one_column_per_key, (reachable_invariant Hr).
Qed.

Lemma header_shows_sort_state_witness :
  let w := handle (HeaderClick 5) (handle (HeaderClick 5) three_rows) in
  kw_thead (page w) = header_of (sortKey w) (sortAsc w)
  /\ map th_label (filter th_sorted (kw_thead (page w)))
     = map label (filter (fun col => JsString.eqb (key col) (sortKey w)) COLS)
  /\ length (filter th_sorted (kw_thead (page w))) = 1%nat.
Proof.
  apply (@header_shows_sort_state ascii_locale
           (handle (HeaderClick 5) (handle (HeaderClick 5) three_rows))).
  - unfold three_rows. apply reach_step, reach_step, reach_step, reach_boot.
  - vm_compute. reflexivity.
Defined.

(** ** Header clicks *)

Section Clicks.

Context {L : Locale}.

(** The cell that is marked as sorted is the cell of the sort key, a
    sortable column. *)
Lemma sorted_cell k a i th :
  In k sortable_keys ->
  nth_error (header_of k a) i = Some th -> th_sorted th = true ->
  exists col, th = header_cell k a col /\ key col = k /\ sortable col = true.
Proof.
  intros Hk Hi Hs. unfold header_of in Hi. rewrite nth_error_map in Hi.
  destruct (nth_error COLS i) as [col|] eqn:Ec; [|discriminate].
  injection Hi as <-. exists col. split; [reflexivity|].
  cbn [header_cell th_sorted] in Hs. split.
  - now apply JsStringFacts.eqb_eq.
  - destruct (sortable col) eqn:E; [reflexivity|].
    rewrite (rank_cell_inactive Hk (nth_error_In _ _ Ec) E) in Hs.
    discriminate.
Qed.

Lemma click_active w i col :
  nth_error (kw_thead (page w)) i = Some (header_cell (sortKey w) (sortAsc w) col) ->
  key col = sortKey w -> sortable col = true ->
  handle (HeaderClick i) w = render (with_sort (sortKey w) (negb (sortAsc w)) w).
Proof.
  intros Hi Hk Hs. cbn [handle]. rewrite Hi.
  cbn [header_cell th_click]. unfold listener. rewrite Hs.
  unfold on_click. now rewrite Hk, JsStringFacts.eqb_refl.
Qed.

End Clicks.

(** X4.  A click on the header cell that is marked as sorted reverses
    the direction, and a second click on it brings the widget back to
    the state it was in: sort key, direction, header row, table body
    and count label. *)
Theorem click_twice_restores `{L : Locale} (w : Widget) (i : nat) (th : Th) :
  reachable w ->
  header_built w ->
  nth_error (kw_thead (page w)) i = Some th ->
  th_sorted th = true ->
  sortKey (handle (HeaderClick i) w) = sortKey w
  /\ sortAsc (handle (HeaderClick i) w) = negb (sortAsc w)
  /\ handle (HeaderClick i) (handle (HeaderClick i) w) = w.
Proof.
  intros Hr Hb Hi Hs.
  pose proof (header_row Hr Hb) as E.
  assert (Hk : In (sortKey w) sortable_keys) by apply (reachable_invariant Hr).
  rewrite E in Hi.
  destruct (sorted_cell _ _ Hk Hi Hs) as (col & -> & Hc & Hsc).
  rewrite <- E in Hi.
  rewrite (click_active _ _ Hi Hc Hsc).
  split; [reflexivity|]. split; [reflexivity|].
  set (w1 := render (with_sort (sortKey w) (negb (sortAsc w)) w)).
  assert (Hr1 : reachable w1).
  { unfold w1. rewrite <- (click_active _ _ Hi Hc Hsc). now apply reach_step. }
  assert (Hb1 : header_built w1).
  { unfold w1. rewrite <- (click_active _ _ Hi Hc Hsc).
    apply header_built_handle; [now apply reachable_invariant | exact Hb]. }
  pose proof (header_row Hr1 Hb1) as E1.
  assert (Hi1 : nth_error (kw_thead (page w1)) i
                = Some (header_cell (sortKey w1) (sortAsc w1) col)).
  { rewrite E1. unfold header_of. rewrite nth_error_map.
    rewrite E in Hi. unfold header_of in Hi. rewrite nth_error_map in Hi.
    destruct (nth_error COLS i) as [col'|]; [|discriminate].
    cbn [option_map] in *.
    apply (f_equal (fun o => match o with
                             | Some t => th_click t
                             | None => None
                             end)) in Hi.
    cbn [header_cell th_click] in Hi.
    unfold listener in Hi. rewrite Hsc in Hi.
    destruct (sortable col'); [|discriminate]. now injection Hi as ->. }
  rewrite (click_active _ _ Hi1 Hc Hsc).
  unfold w1. cbn [sortKey sortAsc render with_page with_sort].
  rewrite negb_involutive.
  change (render (with_sort (sortKey w) (sortAsc w)
            (render (with_sort (sortKey w) (negb (sortAsc w)) w))) = w).
  rewrite render_with_sort, with_sort_same. now apply rendered.
Qed.

Lemma click_twice_restores_witness :
  sortKey (handle (HeaderClick 4) three_rows) = sortKey three_rows
  /\ sortAsc (handle (HeaderClick 4) three_rows) = negb (sortAsc three_rows)
  /\ handle (HeaderClick 4) (handle (HeaderClick 4) three_rows) = three_rows.
Proof.
  apply (@click_twice_restores ascii_locale three_rows 4
           (header_cell (utf16 "시가총액(억)") false
              {| key := utf16 "시가총액(억)"; label := utf16 "시가총액";
                 align := utf16 "right"; sortable := true |})).
  - unfold three_rows. apply reach_step, reach_boot.
  - vm_compute. reflexivity.
  - vm_compute. reflexivity.
  - vm_compute. reflexivity.
Defined.

(** X5.  A click on a header cell changes the order of the rows shown
    and nothing else about them: the same rows are shown, each as often
    as before, and the dataset and the controls are as they were. *)
Theorem header_click_reorders `{L : Locale} (w : Widget) (i : nat) :
  Permutation (visible_rows (handle (HeaderClick i) w)) (visible_rows w)
  /\ allRows (handle (HeaderClick i) w) = allRows w
  /\ controls (handle (HeaderClick i) w) = controls w.
Proof.
  assert (H : allRows (handle (HeaderClick i) w) = allRows w
              /\ controls (handle (HeaderClick i) w) = controls w).
  { cbn [handle]. destruct (nth_error (kw_thead (page w)) i) as [th|]; [|auto].
    destruct (th_click th) as [col|]; [|auto].
    unfold on_click. now destruct (JsString.eqb (sortKey w) (key col)). }
  split; [|exact H]. destruct H as [Ha Hc].
  rewrite (visible_rows_perm (handle (HeaderClick i) w)), Ha, Hc.
  symmetry. apply visible_rows_perm.
Qed.

(** ** Filters *)

Section Filters.

Context {L : Locale}.

Lemma bound_empty : bound [] = None.
Proof. reflexivity. Qed.

Lemma search_text_empty c : kw_search c = [] -> search_text c = [].
Proof.
  intros E. unfold search_text. rewrite E.
  change (JsString.trim []) with (@nil N). apply toLowerCase_empty.
Qed.

(** An empty control sets no constraint. *)
Lemma keep_cleared e c r :
  In e [SectorChange []; SearchInput []; PerMinInput []; PerMaxInput [];
        PbrMinInput []; PbrMaxInput []; CapMinInput []] ->
  keep c r = true -> keep (edit e c) r = true.
Proof.
  intros He. rewrite !keep_spec.
  unfold passes, sector_ok, search_ok, per_ok, pbr_ok, cap_ok.
  intros (H1 & H2 & [H3 H4] & [H5 H6] & H7).
  cbn [In] in He.
  repeat (destruct He as [<-|He]);
    [| | | | | | | destruct He];
    cbn [edit kw_sector kw_search kw_per_min kw_per_max kw_pbr_min
         kw_pbr_max kw_cap_min];
    repeat split; try assumption; try congruence;
    try (intros ?; rewrite bound_empty; discriminate).
  rewrite search_text_empty by reflexivity. congruence.
Qed.

Lemma filter_incl_length {A : Type} (f g : A -> bool) l :
  (forall x, f x = true -> g x = true) ->
  (length (filter f l) <= length (filter g l))%nat.
Proof.
  intros H. induction l as [|x l IH]; [reflexivity|]. cbn [filter].
  destruct (f x) eqn:E.
  - rewrite (H x E). cbn [length]. lia.
  - destruct (g x); cbn [length]; lia.
Qed.

Lemma trimStart_white s : forallb JsString.is_white s = true -> JsString.trimStart s = [].
Proof.
  induction s as [|c s IH]; [reflexivity|]. cbn [forallb JsString.trimStart].
  intros H. apply andb_true_iff in H. destruct H as [-> H]. now apply IH.
Qed.

Lemma trim_white s : forallb JsString.is_white s = true -> JsString.trim s = [].
Proof.
  intros H. unfold JsString.trim. now rewrite trimStart_white.
Qed.

Lemma filter_keep_ext c c' l :
  (forall r, keep c r = keep c' r) -> filter (keep c) l = filter (keep c') l.
Proof. intros H. apply filter_ext. exact H. Qed.

End Filters.

(** X6.  Emptying a control, or pressing reset, never takes a row out of
    the table: every row shown before is shown after, and the table is
    at least as long. *)
Theorem clearing_keeps_rows `{L : Locale} (w : Widget) (e : Event) :
  In e [SectorChange []; SearchInput []; PerMinInput []; PerMaxInput [];
        PbrMinInput []; PbrMaxInput []; CapMinInput []; ResetClick] ->
  (forall r, In r (visible_rows w) -> In r (visible_rows (handle e w)))
  /\ (length (visible_rows w) <= length (visible_rows (handle e w)))%nat.
Proof.
  intros He.
  assert (H : exists c', allRows (handle e w) = allRows w
                         /\ controls (handle e w) = c'
                         /\ forall r, keep (controls w) r = true -> keep c' r = true).
  { cbn [In] in He.
    destruct He as [<-|[<-|[<-|[<-|[<-|[<-|[<-|[<-|[]]]]]]]]];
      try (eexists; split; [reflexivity|]; split; [reflexivity|];
           intros r; apply keep_cleared; cbn [In]; tauto).
    exists no_input. split; [reflexivity|]. split; [reflexivity|].
    intros r _. apply keep_no_input. }
  destruct H as (c' & Ha & Hc & Hk). split.
  - intros r Hr.
    apply (Permutation_in _ (visible_rows_perm w)) in Hr.
    apply (Permutation_in _ (Permutation_sym (visible_rows_perm (handle e w)))).
    rewrite Ha, Hc. apply filter_In in Hr. apply filter_In.
    split; [tauto|]. apply Hk. tauto.
  - rewrite (Permutation_length (visible_rows_perm w)),
      (Permutation_length (visible_rows_perm (handle e w))), Ha, Hc.
    now apply filter_incl_length.
Qed.

Lemma clearing_keeps_rows_witness :
  let w := handle (SearchInput (utf16 "sam")) three_rows in
  (forall r, In r (visible_rows w) ->
             In r (visible_rows (handle (SearchInput []) w)))
  /\ (length (visible_rows w)
      <= length (visible_rows (handle (SearchInput []) w)))%nat.
Proof.
  apply (@clearing_keeps_rows ascii_locale
           (handle (SearchInput (utf16 "sam")) three_rows) (SearchInput [])).
  cbn [In]. tauto.
Defined.

(** X7.  A search text of white space alone is no search text: the
    table is the one of an empty search box. *)
Theorem blank_search_is_no_search `{L : Locale} (w : Widget) (s : jsstring) :
  forallb JsString.is_white s = true ->
  visible_rows (handle (SearchInput s) w)
  = visible_rows (handle (SearchInput []) w)
  /\ kw_tbody (page (handle (SearchInput s) w))
     = kw_tbody (page (handle (SearchInput []) w))
  /\ kw_count (page (handle (SearchInput s) w))
     = kw_count (page (handle (SearchInput []) w)).
Proof.
  intros Hs.
  assert (E : visible_rows (handle (SearchInput s) w)
              = visible_rows (handle (SearchInput []) w)).
  { cbn [handle]. rewrite !visible_rows_render. unfold visible_rows.
    cbn [with_controls controls allRows sortKey sortAsc].
    rewrite (@filter_keep_ext _ (edit (SearchInput s) (controls w))
               (edit (SearchInput []) (controls w))); [reflexivity|].
    intros r. unfold keep. cbn [edit kw_sector kw_search kw_per_min kw_per_max
                                kw_pbr_min kw_pbr_max kw_cap_min].
    now rewrite (trim_white _ Hs). }
  split; [exact E|].
  split.
  - change (mapi tr (visible_rows (handle (SearchInput s) w))
            = mapi tr (visible_rows (handle (SearchInput []) w))).
    now rewrite E.
  - change (JsString.decimal
              (N.of_nat (length (visible_rows (handle (SearchInput s) w))))
            ++ utf16 "개 종목"
            = JsString.decimal
                (N.of_nat (length (visible_rows (handle (SearchInput []) w))))
              ++ utf16 "개 종목").
    now rewrite E.
Qed.

Lemma blank_search_is_no_search_witness :
  let s := [32%N; 9%N; 12288%N] in
  visible_rows (handle (SearchInput s) three_rows)
  = visible_rows (handle (SearchInput []) three_rows)
  /\ kw_tbody (page (handle (SearchInput s) three_rows))
     = kw_tbody (page (handle (SearchInput []) three_rows))
  /\ kw_count (page (handle (SearchInput s) three_rows))
     = kw_count (page (handle (SearchInput []) three_rows)).
Proof.
  apply (@blank_search_is_no_search ascii_locale three_rows [32%N; 9%N; 12288%N]).
  reflexivity.
Defined.

(** X8.  Every option [init] adds to the sector dropdown selects at
    least one row: with the other controls empty, choosing it shows
    exactly the rows of the dataset whose sector it is, and there is
    one. *)
Theorem sector_option_selects `{L : Locale} (w : Widget) (s : jsstring) :
  In s (sectors (allRows w)) ->
  controls w = no_input ->
  visible_rows (handle (SectorChange s) w) <> []
  /\ forall r, In r (visible_rows (handle (SectorChange s) w))
               <-> In r (allRows w) /\ sector r = Some s.
Proof.
  intros Hs Hc. apply sectors_In in Hs. destruct Hs as (Hne & r0 & Hr0 & Hs0).
  assert (Hk : forall r, keep (edit (SectorChange s) no_input) r = true
                         <-> sector r = Some s).
  { intros r. rewrite keep_spec.
    unfold passes, sector_ok, search_ok, per_ok, pbr_ok, cap_ok.
    cbn [edit kw_sector kw_search kw_per_min kw_per_max kw_pbr_min
         kw_pbr_max kw_cap_min no_input].
    rewrite search_text_empty by reflexivity. rewrite bound_empty.
    split; [intros (H & _); now apply H|].
    intros H. repeat split; try congruence; discriminate. }
  assert (Hin : forall r, In r (visible_rows (handle (SectorChange s) w))
                          <-> In r (allRows w) /\ sector r = Some s).
  { intros r. cbn [handle]. rewrite visible_rows_render. split.
    - intros H. apply (Permutation_in _ (visible_rows_perm _)) in H.
      cbn [with_controls controls allRows] in H. rewrite Hc in H.
      apply filter_In in H. now rewrite Hk in H.
    - intros H.
      apply (Permutation_in _ (Permutation_sym (visible_rows_perm _))).
      cbn [with_controls controls allRows]. rewrite Hc.
      apply filter_In. now rewrite Hk. }
  split; [|exact Hin].
  intros E. assert (H : In r0 (visible_rows (handle (SectorChange s) w))).
  { apply Hin. tauto. }
  rewrite E in H. destruct H.
Qed.

Lemma sector_option_selects_witness :
  visible_rows (handle (SectorChange (utf16 "IT")) three_rows) <> []
  /\ forall r, In r (visible_rows (handle (SectorChange (utf16 "IT")) three_rows))
               <-> In r (allRows three_rows) /\ sector r = Some (utf16 "IT").
Proof.
  apply (@sector_option_selects ascii_locale three_rows (utf16 "IT")).
  - vm_compute. tauto.
  - reflexivity.
Defined.

(** ** The first table *)

Section FirstTable.

Context {L : Locale}.

Lemma reflow_all_nil k a ths cols : reflow_all k a ths cols = [] -> ths = [].
Proof. destruct ths as [|th ths], cols as [|col cols]; now cbn [reflow_all]. Qed.

Lemma pending_resume res w : pending (init_resume res (settled w)) = false.
Proof. unfold init_resume. now destruct (load res) as [m|[[d|m] rows]]. Qed.

(** As long as there is no header row the sort state is the initial
    one, and as long as the request is under way the dataset is
    empty. *)
Lemma unbuilt_initial w :
  reachable w -> kw_thead (page w) = [] ->
  sortKey w = utf16 "시가총액(억)" /\ sortAsc w = false
  /\ (pending w = true -> allRows w = []).
Proof.
  induction 1 as [c p|w e Hr IH]; [now repeat split|].
  pose proof (reachable_invariant Hr) as (_ & _ & Hp & _).
  destruct e as [v|v|v|v|v|v|v|i| |res]; cbn [handle];
    try (intros H; apply reflow_all_nil in H; now apply IH).
  - destruct (nth_error (kw_thead (page w)) i) as [th|] eqn:E; [|exact IH].
    destruct (th_click th) as [col|]; [|exact IH].
    intros H. unfold on_click in H.
    assert (Hw : kw_thead (page w) = []).
    { destruct (JsString.eqb (sortKey w) (key col));
        now apply reflow_all_nil in H. }
    rewrite Hw in E. destruct i; discriminate E.
  - destruct (pending w) eqn:Ep.
    2:{ intros H. destruct (IH H) as (Hk & Ha & _).
        split; [exact Hk|]. split; [exact Ha|]. intros Hp'. congruence. }
    intros H.
    assert (Hw : kw_thead (page w) = []) by now apply Hp.
    destruct (IH Hw) as (Hk & Ha & _).
    split; [|split].
    + unfold init_resume. now destruct (load res) as [m|[[d|m] rows]].
    + unfold init_resume. now destruct (load res) as [m|[[d|m] rows]].
    + rewrite pending_resume. discriminate.
Qed.

Lemma pending_initial w :
  reachable w -> pending w = true ->
  allRows w = [] /\ sortKey w = utf16 "시가총액(억)" /\ sortAsc w = false.
Proof.
  intros Hr Hp.
  destruct (@unbuilt_initial w Hr) as (Hk & Ha & H).
  - now apply (reachable_invariant Hr).
  - split; [now apply H | now split].
Qed.

Lemma slice_date y m dd :
  length y = 4%nat -> length m = 2%nat -> length dd = 2%nat ->
  JsString.slice 0 4 (y ++ m ++ dd) = y
  /\ JsString.slice 4 6 (y ++ m ++ dd) = m
  /\ JsString.slice 6 8 (y ++ m ++ dd) = dd.
Proof.
  intros Hy Hm Hd.
  destruct y as [|y1 [|y2 [|y3 [|y4 [|]]]]]; try discriminate Hy.
  destruct m as [|m1 [|m2 [|]]]; try discriminate Hm.
  destruct dd as [|d1 [|d2 [|]]]; try discriminate Hd.
  repeat split.
Qed.

End FirstTable.

(** X9.  When the request ends in a response with a status from 200 to
    299 and a parsed body, whatever was typed into the controls in the
    meantime: the rows of the body become the dataset, the status
    region is hidden and the table region shown, the header row is
    built with the market capitalization column marked as sorted,
    descending, and the table holds the rows the controls let through,
    from the largest market capitalization to the smallest. *)
Theorem first_table `{L : Locale} (w : Widget) (status : N) (d : jsstring)
    (rows : list Row) :
  reachable w ->
  pending w = true ->
  (200 <= status <= 299)%N ->
  let w' := handle (FetchSettled (Response status (Parsed d rows))) w in
  allRows w' = rows
  /\ pending w' = false
  /\ controls w' = controls w
  /\ kw_status_display (page w') = utf16 "none"
  /\ kw_table_wrap_display (page w') = []
  /\ kw_thead (page w') = header_of (utf16 "시가총액(억)") false
  /\ visible_rows w'
     = sort (compareRows (utf16 "시가총액(억)") false)
         (filter (keep (controls w)) rows)
  /\ kw_tbody (page w') = mapi tr (visible_rows w').
Proof.
  intros Hr Hp Hs w'.
  destruct (pending_initial Hr Hp) as (_ & Hk & Ha).
  pose proof (reachable_invariant Hr) as (_ & _ & Ht & _).
  specialize (Ht Hp).
  assert (Hok : ok status = true).
  { unfold ok. apply andb_true_iff. split; apply N.leb_le; lia. }
  assert (E : w' = render
                (with_page
                   {| kw_date := kw_date (page (init_resume
                         (Response status (Parsed d rows)) (settled w)));
                      kw_status_class := kw_status_class (page w);
                      kw_status_text := kw_status_text (page w);
                      kw_status_display := utf16 "none";
                      kw_table_wrap_display := [];
                      kw_sector_options := kw_sector_options (page w) ++ sectors rows;
                      kw_count := kw_count (page w);
                      kw_thead := map (build_th (sortKey w)) COLS;
                      kw_tbody := kw_tbody (page w) |}
                   (with_allRows rows (settled w)))).
  { unfold w'. cbn [handle]. rewrite Hp. unfold init_resume.
    cbn [load]. rewrite Hok. cbn [negb].
    cbv zeta. unfold buildHeader.
    cbn [with_page with_allRows settled page allRows sortKey sortAsc controls
         requests pending kw_date kw_status_class kw_status_text
         kw_status_display kw_table_wrap_display kw_sector_options kw_count
         kw_thead kw_tbody render].
    rewrite Ht. reflexivity. }
  rewrite E. clear E w'.
  repeat split.
  - cbn [render with_page page kw_thead with_allRows settled sortKey sortAsc].
    rewrite reflow_all_build, Hk, Ha. reflexivity.
  - rewrite visible_rows_render. unfold visible_rows.
    cbn [with_page with_allRows settled allRows sortKey sortAsc controls].
    rewrite Hk, Ha. reflexivity.
Qed.

Lemma first_table_witness :
  let w := handle (SearchInput (utf16 "s")) (boot no_input blank_page) in
  let w' := handle (FetchSettled
                      (Response 200
                         (Parsed (utf16 "20240131") [samsung; hynix; naver]))) w in
  allRows w' = [samsung; hynix; naver]
  /\ pending w' = false
  /\ controls w' = controls w
  /\ kw_status_display (page w') = utf16 "none"
  /\ kw_table_wrap_display (page w') = []
  /\ kw_thead (page w') = header_of (utf16 "시가총액(억)") false
  /\ visible_rows w'
     = sort (compareRows (utf16 "시가총액(억)") false)
         (filter (keep (controls w)) [samsung; hynix; naver])
  /\ kw_tbody (page w') = mapi tr (visible_rows w').
Proof.
  apply (@first_table ascii_locale
           (handle (SearchInput (utf16 "s")) (boot no_input blank_page))
           200 (utf16 "20240131") [samsung; hynix; naver]).
  - apply reach_step, reach_boot.
  - reflexivity.
  - lia.
Defined.

(** X10.  The date label: for a date of eight characters, year, month
    and day, the label written on a successful load is the fixed prefix
    and then the three parts with a hyphen between them. *)
Theorem date_label `{L : Locale} (w : Widget) (status : N) (y m dd : jsstring)
    (rows : list Row) :
  pending w = true ->
  (200 <= status <= 299)%N ->
  length y = 4%nat -> length m = 2%nat -> length dd = 2%nat ->
  kw_date (page (handle (FetchSettled
                           (Response status (Parsed (y ++ m ++ dd) rows))) w))
  = utf16 "기준일: " ++ y ++ utf16 "-" ++ m ++ utf16 "-" ++ dd.
Proof.
  intros Hp Hs Hy Hm Hd.
  assert (Hok : ok status = true).
  { unfold ok. apply andb_true_iff. split; apply N.leb_le; lia. }
  destruct (slice_date y m dd Hy Hm Hd) as (E1 & E2 & E3).
  cbn [handle]. rewrite Hp. unfold init_resume. cbn [load]. rewrite Hok.
  cbn [negb]. cbv zeta.
  cbn [render buildHeader with_page with_allRows settled page kw_date].
  now rewrite E1, E2, E3.
Qed.

Lemma date_label_witness :
  kw_date (page (handle (FetchSettled
                           (Response 200
                              (Parsed (utf16 "2024" ++ utf16 "01" ++ utf16 "31")
                                 [samsung]))) (boot no_input blank_page)))
  = utf16 "기준일: " ++ utf16 "2024" ++ utf16 "-" ++ utf16 "01" ++ utf16 "-"
    ++ utf16 "31".
Proof.
  apply (@date_label ascii_locale (boot no_input blank_page) 200
           (utf16 "2024") (utf16 "01") (utf16 "31") [samsung]);
    [reflexivity | lia | reflexivity | reflexivity | reflexivity].
Defined.

(** ** The ratio cells *)

Section Ratios.

Import JsString FormatFacts.

Lemma ltb_not_NaN x y : Number.ltb x y = true -> Number.isNaN x = false.
Proof. destruct x; [discriminate | reflexivity | reflexivity]. Qed.

(** Below 10 is below 25. *)
Lemma ltb_10_25 x :
  Number.ltb x (Number.of_N 10) = true -> Number.ltb x (Number.of_N 25) = true.
Proof.
  intros H. pose proof (ltb_not_NaN _ _ H) as Hx.
  rewrite NumberOrder.ltb_gtb in *.
  destruct (Number.gtb (Number.of_N 25) x) eqn:E; [reflexivity|].
  assert (N10 : Number.isNaN (Number.of_N 10) = false) by (vm_compute; reflexivity).
  assert (N25 : Number.isNaN (Number.of_N 25) = false) by (vm_compute; reflexivity).
  assert (H1 : Number.gtb x (Number.of_N 10) = false).
  { apply NumberOrder.gtb_asym; assumption. }
  pose proof (@NumberOrder.gtb_false_trans (Number.of_N 25) x (Number.of_N 10)
                N25 Hx N10 E H1) as H2.
  vm_compute in H2. discriminate H2.
Qed.

Lemma fixed_split n X a b :
  zeros (3 - length (decimal n)) ++ decimal n = X ++ [a; b] ->
  Number.fixed n 2 = X ++ utf16 "." ++ [a; b].
Proof.
  intros H. unfold Number.fixed. cbn [Nat.eqb Nat.add]. cbv zeta.
  rewrite H, length_app. cbn [length].
  replace (length X + 2 - 2)%nat with (length X) by lia.
  rewrite firstn_app, firstn_all, skipn_app, skipn_all, Nat.sub_diag.
  cbn [firstn skipn app]. now rewrite app_nil_r.
Qed.

Lemma fixed_two n :
  Number.fixed n 2
  = decimal (n / 100) ++ utf16 "."
    ++ [(48 + (n / 10) mod 10)%N; (48 + n mod 10)%N].
Proof.
  apply fixed_split.
  destruct (N.ltb_spec n 10) as [H|H].
  - rewrite (@decimal_small _ H), N.div_small by lia.
    rewrite (N.div_small n 10), N.mod_small, (N.mod_small n 10) by lia.
    reflexivity.
  - rewrite (@decimal_step _ H).
    assert (Hq : (n / 10 < n)%N) by (apply N.div_lt; lia).
    destruct (N.ltb_spec (n / 10) 10) as [H1|H1].
    + rewrite (@decimal_small _ H1).
      replace (n / 100)%N with 0%N.
      * rewrite (N.mod_small (n / 10) 10) by exact H1. reflexivity.
      * symmetry. apply N.div_small.
        pose proof (N.mul_succ_div_gt n 10 ltac:(lia)). lia.
    + rewrite (@decimal_step _ H1), N.Div0.div_div.
      change (10 * 10)%N with 100%N.
      set (X := decimal (n / 100)).
      assert (HX : (1 <= length X)%nat).
      { pose proof (decimal_not_empty (n / 100)) as Hn. fold X in Hn.
        destruct X; [congruence | cbn [length]; lia]. }
      rewrite !length_app. cbn [length].
      replace (3 - (length X + 1 + 1))%nat with 0%nat by lia.
      change (zeros 0) with (@nil N). cbn [app].
      now rewrite <- app_assoc.
Qed.

Lemma ratio_cells_in_row r i :
  occurs_in (td_class (utf16 "kw-per " ++ perCls (PER r))
               (Number.toFixed 2 (PER r))) (tr i r)
  /\ occurs_in (td (Number.toFixed 2 (PBR r))) (tr i r).
Proof.
  unfold tr. cbv zeta. split.
  - exists (td_class (utf16 "kw-left kw-rank") (decimal (N.of_nat (i + 1)))
            ++ td_class (utf16 "kw-left kw-ticker") (ticker r)
            ++ td_class (utf16 "kw-left kw-name") (name r)
            ++ td_class (utf16 "kw-left kw-sector") (ToString (get r (utf16 "섹터")))
            ++ td (capStr (marketCap r))).
    eexists. now rewrite <- !app_assoc.
  - exists (td_class (utf16 "kw-left kw-rank") (decimal (N.of_nat (i + 1)))
            ++ td_class (utf16 "kw-left kw-ticker") (ticker r)
            ++ td_class (utf16 "kw-left kw-name") (name r)
            ++ td_class (utf16 "kw-left kw-sector") (ToString (get r (utf16 "섹터")))
            ++ td (capStr (marketCap r))
            ++ td_class (utf16 "kw-per " ++ perCls (PER r))
                 (Number.toFixed 2 (PER r))).
    eexists. now rewrite <- !app_assoc.
Qed.

End Ratios.

(** X11.  The class of the PER cell: low for a PER below 10, mid from
    10 to below 25, high from 25 on and also for a PER that is NaN,
    which no comparison places below a threshold. *)
Theorem per_tiers (per : number) :
  (perCls per = utf16 "per-low" <-> Number.ltb per (Number.of_N 10) = true)
  /\ (perCls per = utf16 "per-mid"
      <-> Number.leb (Number.of_N 10) per = true
          /\ Number.ltb per (Number.of_N 25) = true)
  /\ (perCls per = utf16 "per-high"
      <-> Number.isNaN per = true \/ Number.leb (Number.of_N 25) per = true).
Proof.
  unfold perCls.
  pose proof (ltb_10_25 per) as H12.
  assert (N10 : Number.isNaN (Number.of_N 10) = false) by (vm_compute; reflexivity).
  assert (N25 : Number.isNaN (Number.of_N 25) = false) by (vm_compute; reflexivity).
  pose proof (@NumberFacts.ltb_false_iff per (Number.of_N 10) N10) as H10.
  pose proof (@NumberFacts.ltb_false_iff per (Number.of_N 25) N25) as H25.
  clear N10 N25.
  pose proof (ltb_not_NaN per (Number.of_N 25)) as Hn.
  assert (D1 : utf16 "per-low" <> utf16 "per-mid") by (vm_compute; discriminate).
  assert (D2 : utf16 "per-low" <> utf16 "per-high") by (vm_compute; discriminate).
  assert (D3 : utf16 "per-mid" <> utf16 "per-high") by (vm_compute; discriminate).
  revert H12 H10 H25 Hn D1 D2 D3.
  generalize (Number.ltb per (Number.of_N 10)) (Number.ltb per (Number.of_N 25))
    (Number.leb (Number.of_N 10) per) (Number.leb (Number.of_N 25) per)
    (Number.isNaN per) (utf16 "per-low") (utf16 "per-mid") (utf16 "per-high").
  intros b10 b25 l10 l25 n lo mid hi H12 H10 H25 Hn D1 D2 D3.
  destruct b10, b25, l10, l25, n;
    try (specialize (H12 eq_refl); discriminate H12);
    try (specialize (Hn eq_refl); discriminate Hn);
    try (destruct H10 as [H10a H10b]; first
           [ specialize (H10a eq_refl); destruct H10a; discriminate
           | assert (F : true = false) by (apply H10b; auto); discriminate F ]);
    try (destruct H25 as [H25a H25b]; first
           [ specialize (H25a eq_refl); destruct H25a; discriminate
           | assert (F : true = false) by (apply H25b; auto); discriminate F ]);
    clear H12 H10 H25 Hn;
    (split; [|split]); split; intros H; auto; try congruence;
    try (destruct H; congruence).
Qed.

(** X12.  The PER and PBR cells: a finite value below 10^21 is shown
    with exactly two fraction digits, as the numeral nearest to it (the
    larger one on a tie), after a minus sign when it is negative and
    not zero; a value that is NaN is shown as the text "NaN" and an
    infinite one as "Infinity". *)
Theorem ratio_cells (r : Row) (i : nat) :
  JsString.occurs_in
    (td_class (utf16 "kw-per " ++ perCls (PER r)) (Number.toFixed 2 (PER r)))
    (tr i r)
  /\ JsString.occurs_in (td (Number.toFixed 2 (PBR r))) (tr i r)
  /\ (forall neg k,
        (k < 10 ^ 21 * Number.scale)%N ->
        exists n,
          Number.toFixed 2 (Number.Fin neg k)
          = Number.minus (neg && negb (k =? 0)%N)
            ++ JsString.decimal (n / 100) ++ utf16 "."
            ++ [(48 + (n / 10) mod 10)%N; (48 + n mod 10)%N]
          /\ (2 * Number.scale * n <= 2 * (k * 100) + Number.scale
              < 2 * Number.scale * n + 2 * Number.scale)%N)
  /\ Number.toFixed 2 Number.NaN = utf16 "NaN"
  /\ Number.toFixed 2 (Number.Inf false) = utf16 "Infinity"
  /\ Number.toFixed 2 (Number.Inf true) = utf16 "-Infinity".
Proof.
  split; [apply ratio_cells_in_row|]. split; [apply ratio_cells_in_row|].
  split; [|split; [|split]; vm_compute; reflexivity].
  intros neg k Hk.
  exists (Number.round_half_up (k * 100) Number.scale). split.
  - unfold Number.toFixed. cbv zeta.
    destruct (N.leb_spec (10 ^ 21 * Number.scale) k) as [H|_]; [lia|].
    change (10 ^ N.of_nat 2)%N with 100%N.
    now rewrite fixed_two.
  - apply FormatFacts.round_half_up_nearest, FormatFacts.scale_pos.
Qed.

(** ** The filter and the order *)

Section SortFilter.

Variable A : Type.
Variable comparefn : A -> A -> number.
Variable P : A -> Prop.
Variable p : A -> bool.

Hypothesis after_asym : forall x y,
  P x -> P y -> after comparefn y x = true -> after comparefn x y = false.

Hypothesis after_trans : forall x y z,
  P x -> P y -> P z ->
  after comparefn x y = false -> after comparefn y z = false ->
  after comparefn x z = false.

Lemma insert_first x l :
  (forall z, In z l -> after comparefn z x = false) ->
  insert comparefn x l = x :: l.
Proof.
  destruct l as [|y ys]; [reflexivity|]. intros H. cbn [insert].
  now rewrite (H y (or_introl eq_refl)).
Qed.

Lemma filter_insert x l :
  P x -> Forall P l ->
  StronglySorted (fun y z => after comparefn z y = false) l ->
  filter p (insert comparefn x l)
  = if p x then insert comparefn x (filter p l) else filter p l.
Proof.
  intros Px. induction l as [|y ys IH]; intros HP HS.
  { cbn [insert filter]. now destruct (p x). }
  inversion HP as [|? ? Py Pys]; subst.
  inversion HS as [|? ? HSys Hy]; subst.
  cbn [insert]. destruct (after comparefn y x) eqn:E.
  - cbn [filter]. rewrite (IH Pys HSys).
    destruct (p y) eqn:Ey, (p x) eqn:Ex; try reflexivity.
    cbn [insert]. now rewrite E.
  - cbn [filter]. destruct (p x) eqn:Ex; [|reflexivity].
    destruct (p y) eqn:Ey.
    + cbn [insert]. now rewrite E.
    + symmetry. apply insert_first. intros z Hz.
      apply filter_In in Hz. destruct Hz as [Hz _].
      rewrite Forall_forall in Hy, Pys.
      apply after_trans with y; auto.
Qed.

Lemma filter_fold_insert l acc :
  Forall P l -> Forall P acc ->
  StronglySorted (fun y z => after comparefn z y = false) acc ->
  filter p (fold_left (fun q x => insert comparefn x q) l acc)
  = fold_left (fun q x => insert comparefn x q) (filter p l) (filter p acc).
Proof.
  revert acc. induction l as [|x l IH]; intros acc Hl Hacc HS; [reflexivity|].
  inversion Hl as [|? ? Px Pl]; subst. cbn [fold_left filter].
  rewrite IH.
  - rewrite (filter_insert Px Hacc HS). now destruct (p x).
  - exact Pl.
  - apply (Permutation_Forall (Permutation_sym (insert_perm comparefn x acc))).
    now constructor.
  - now apply insert_sorted with (P := P).
Qed.

(** Sorting what the filter leaves gives what the filter leaves of the
    sorted list. *)
Lemma filter_sort l :
  Forall P l -> sort comparefn (filter p l) = filter p (sort comparefn l).
Proof.
  intros Hl. unfold sort.
  rewrite filter_rev, filter_fold_insert; auto; constructor.
Qed.

End SortFilter.

Section RowOrder.

Context {L : Locale} {C : Collation L}.

Lemma filter_sort_numeric k (asc : bool) p rows :
  numeric_column k rows ->
  sort (compareRows k asc) (filter p rows)
  = filter p (sort (compareRows k asc) rows).
Proof.
  intros Hnum.
  apply filter_sort
    with (P := fun r => exists x, get r k = VNumber x /\ Number.isNaN x = false).
  - intros a b (x & Hx & Hnx) (y & Hy & Hny).
    rewrite (@after_numeric _ k asc a b x y Hx Hnx Hy Hny),
      (@after_numeric _ k asc b a y x Hy Hny Hx Hnx).
    destruct asc; now apply NumberOrder.gtb_asym.
  - intros a b c (x & Hx & Hnx) (y & Hy & Hny) (z & Hz & Hnz).
    rewrite (@after_numeric _ k asc a b x y Hx Hnx Hy Hny),
      (@after_numeric _ k asc b c y z Hy Hny Hz Hnz),
      (@after_numeric _ k asc a c x z Hx Hnx Hz Hnz).
    destruct asc; intros H1 H2.
    + now apply NumberOrder.gtb_false_trans with y.
    + now apply NumberOrder.gtb_false_trans with y.
  - apply Forall_forall. exact Hnum.
Qed.

Lemma filter_sort_textual k (asc : bool) p rows :
  textual_column k rows ->
  sort (compareRows k asc) (filter p rows)
  = filter p (sort (compareRows k asc) rows).
Proof.
  intros Htxt.
  apply filter_sort with (P := fun r => forall x, get r k <> VNumber x).
  - intros a b Ha Hb H. apply not_true_false.
    rewrite (@after_textual _ k asc a b Ha).
    rewrite (@after_textual _ k asc b a Hb) in H.
    destruct asc.
    + rewrite collate_sym, H. discriminate.
    + rewrite collate_sym, H. discriminate.
  - intros a b c Ha Hb Hc H1 H2. apply not_true_false.
    assert (N1 : ~ after (compareRows k asc) a b = true) by congruence.
    assert (N2 : ~ after (compareRows k asc) b c = true) by congruence.
    rewrite (@after_textual _ k asc a b Ha) in N1.
    rewrite (@after_textual _ k asc b c Hb) in N2.
    rewrite (@after_textual _ k asc a c Ha).
    destruct asc.
    + now apply collate_trans with (ToString (get b k)).
    + now apply collate_trans with (ToString (get b k)).
  - apply Forall_forall. exact Htxt.
Qed.

End RowOrder.

(** X13.  The filter does not touch the order.  When the keys of the
    dataset under the sort column are all numbers other than NaN, or
    none of them numbers, the rows shown are the rows of the table
    without any filter, with the rows that do not pass left out: two
    rows that are both shown stand in the same order whatever the
    controls hold. *)
Theorem filter_keeps_order `{L : Locale} `{!Collation L} (w : Widget) :
  homogeneous (sortKey w) (allRows w) ->
  visible_rows w
  = filter (keep (controls w)) (visible_rows (with_controls no_input w)).
Proof.
  intros H. unfold visible_rows.
  cbn [with_controls controls allRows sortKey sortAsc].
  rewrite (@filter_all _ (keep no_input) (allRows w) keep_no_input).
  destruct (JsString.truthy (sortKey w)
            && negb (JsString.eqb (sortKey w) (utf16 "#"))); [|reflexivity].
  destruct H as [H|H].
  - now apply filter_sort_numeric.
  - now apply filter_sort_textual.
Qed.

Lemma filter_keeps_order_witness :
  let w := handle (SearchInput (utf16 "s")) three_rows in
  visible_rows w
  = filter (keep (controls w)) (visible_rows (with_controls no_input w)).
Proof.
  apply (@filter_keeps_order ascii_locale ascii_collation
           (handle (SearchInput (utf16 "s")) three_rows)).
  left. intros r Hr.
  destruct Hr as [<-|[<-|[<-|[]]]]; eexists; (split; [reflexivity|reflexivity]).
Defined.

(** X14.  Without a header row, that is while the request is under way
    and for good once it has failed, the sort state is the initial one
    and a click on the header row changes nothing.  While the request
    is under way the dataset is empty, and no row is shown whatever
    the controls hold. *)
Theorem nothing_before_load `{L : Locale} (w : Widget) :
  reachable w ->
  kw_thead (page w) = [] ->
  sortKey w = utf16 "시가총액(억)" /\ sortAsc w = false
  /\ (forall i, handle (HeaderClick i) w = w)
  /\ (pending w = true -> allRows w = [] /\ visible_rows w = []).
Proof.
  intros Hr Ht. destruct (unbuilt_initial Hr Ht) as (Hk & Hs & Ha).
  split; [exact Hk|]. split; [exact Hs|]. split.
  - intros i. cbn [handle]. rewrite Ht. now destruct i.
  - intros Hp. specialize (Ha Hp). split; [exact Ha|].
    apply Permutation_nil. symmetry.
    rewrite (visible_rows_perm w), Ha. reflexivity.
Qed.

Lemma nothing_before_load_witness :
  let w := handle (SearchInput (utf16 "s"))
             (handle (FetchSettled (Response 404 (Parsed (utf16 "20240131") [samsung])))
                (boot no_input blank_page)) in
  sortKey w = utf16 "시가총액(억)" /\ sortAsc w = false
  /\ (forall i, handle (HeaderClick i) w = w)
  /\ (pending w = true -> allRows w = [] /\ visible_rows w = []).
Proof.
  apply (@nothing_before_load ascii_locale
           (handle (SearchInput (utf16 "s"))
              (handle (FetchSettled
                         (Response 404 (Parsed (utf16 "20240131") [samsung])))
                 (boot no_input blank_page)))).
  - apply reach_step, reach_step, reach_boot.
  - reflexivity.
Defined.

(** ** Body rows *)

Lemma nth_error_mapi_from {A B : Type} (f : nat -> A -> B) l j i x :
  nth_error l i = Some x ->
  nth_error (mapi_from j f l) i = Some (f (j + i)%nat x).
Proof.
  revert j i. induction l as [|y l IH]; intros j [|i] H; try discriminate H.
  - injection H as ->. cbn [mapi_from nth_error]. now rewrite Nat.add_0_r.
  - cbn [mapi_from nth_error]. rewrite (IH (S j) i H). f_equal. f_equal. lia.
Qed.

(** X15.  The rank is the place in the table: once the header is
    built, the body row at place i, counted from 0, is the row of the
    i-th shown row, and it begins with the rank cell holding i + 1,
    the ticker cell and the name cell of that row. *)
Theorem display_rank `{L : Locale} (w : Widget) (i : nat) (r : Row) :
  reachable w ->
  header_built w ->
  nth_error (visible_rows w) i = Some r ->
  nth_error (kw_tbody (page w)) i = Some (tr i r)
  /\ exists rest,
       tr i r
       = td_class (utf16 "kw-left kw-rank") (JsString.decimal (N.of_nat (i + 1)))
         ++ td_class (utf16 "kw-left kw-ticker") (ticker r)
         ++ td_class (utf16 "kw-left kw-name") (name r)
         ++ rest.
Proof.
  intros Hr Hb Hi. split.
  - rewrite <- (rendered Hr Hb). cbn [render with_page page kw_tbody].
    unfold mapi. now rewrite (nth_error_mapi_from tr _ 0 _ Hi).
  - unfold tr. cbv zeta. eexists. reflexivity.
Qed.

Lemma display_rank_witness :
  nth_error (kw_tbody (page three_rows)) 1 = Some (tr 1 hynix)
  /\ exists rest,
       tr 1 hynix
       = td_class (utf16 "kw-left kw-rank") (JsString.decimal (N.of_nat (1 + 1)))
         ++ td_class (utf16 "kw-left kw-ticker") (ticker hynix)
         ++ td_class (utf16 "kw-left kw-name") (name hynix)
         ++ rest.
Proof.
  apply (@display_rank ascii_locale three_rows 1 hynix).
  - unfold three_rows. apply reach_step, reach_boot.
  - vm_compute. reflexivity.
  - vm_compute. reflexivity.
Defined.

(** X16.  A row without a sector, or with an empty one, adds no option
    to the dropdown and is hidden as soon as a sector is selected; the
    sector cell of a row without a sector holds the text "undefined". *)
Theorem missing_sector `{L : Locale} (r : Row) :
  sector r = None \/ sector r = Some [] ->
  (forall rows, sectors (r :: rows) = sectors rows)
  /\ (forall c, kw_sector c <> [] -> keep c r = false)
  /\ (forall i, sector r = None ->
        JsString.occurs_in
          (td_class (utf16 "kw-left kw-sector") (utf16 "undefined")) (tr i r)).
Proof.
  intros H. split; [|split].
  - intros rows. unfold sectors. cbn [flat_map].
    now destruct H as [-> | ->].
  - intros c Hc. unfold keep. cbv zeta. rewrite get_sector.
    apply JsStringFacts.truthy_spec in Hc. rewrite Hc.
    destruct H as [-> | ->]; cbn [of_option_string differs andb]; [reflexivity|].
    destruct (kw_sector c); [discriminate Hc | reflexivity].
  - intros i Hn. unfold tr. cbv zeta. rewrite get_sector, Hn.
    cbn [of_option_string ToString].
    exists (td_class (utf16 "kw-left kw-rank") (JsString.decimal (N.of_nat (i + 1)))
            ++ td_class (utf16 "kw-left kw-ticker") (ticker r)
            ++ td_class (utf16 "kw-left kw-name") (name r)).
    eexists. now rewrite <- !app_assoc.
Qed.

Lemma missing_sector_witness :
  let r := {| ticker := ticker naver; name := name naver; sector := None;
              marketCap := marketCap naver; PER := PER naver; PBR := PBR naver;
              EPS := EPS naver; BPS := BPS naver |} in
  (forall rows, sectors (r :: rows) = sectors rows)
  /\ (forall c, kw_sector c <> [] -> keep (L := ascii_locale) c r = false)
  /\ (forall i, sector r = None ->
        JsString.occurs_in
          (td_class (utf16 "kw-left kw-sector") (utf16 "undefined")) (tr i r)).
Proof.
  apply (@missing_sector ascii_locale
           {| ticker := ticker naver; name := name naver; sector := None;
              marketCap := marketCap naver; PER := PER naver; PBR := PBR naver;
              EPS := EPS naver; BPS := BPS naver |}).
  left. reflexivity.
Defined.

(** ** Narrowing the filter *)

Section Narrowing.

Context {L : Locale}.

Lemma leb_not_NaN x y :
  Number.leb x y = true -> Number.isNaN x = false /\ Number.isNaN y = false.
Proof. destruct x, y; try discriminate; now split. Qed.

Lemma leb_trans x y z :
  Number.leb x y = true -> Number.leb y z = true -> Number.leb x z = true.
Proof.
  intros H1 H2.
  destruct (leb_not_NaN _ _ H1) as [Hx Hy], (leb_not_NaN _ _ H2) as [_ Hz].
  rewrite NumberOrder.leb_gtb in * by assumption.
  apply negb_true_iff in H1, H2. apply negb_true_iff.
  now apply NumberOrder.gtb_false_trans with y.
Qed.

Lemma at_least_lower lo lo' x :
  Number.leb lo lo' = true -> at_least lo' x -> at_least lo x.
Proof.
  intros H [Hx|Hx]; [now left|]. right. now apply leb_trans with lo'.
Qed.

Lemma at_most_higher hi hi' x :
  Number.leb hi' hi = true -> at_most hi' x -> at_most hi x.
Proof.
  intros H [Hx|Hx]; [now left|]. right. now apply leb_trans with hi'.
Qed.

Lemma occurs_in_trans p q s :
  JsString.occurs_in p q -> JsString.occurs_in q s -> JsString.occurs_in p s.
Proof.
  intros (a & b & ->) (c & d & ->).
  exists (c ++ a), (b ++ d). now rewrite <- !app_assoc.
Qed.

Lemma occurs_in_nil p : JsString.occurs_in p [] -> p = [].
Proof.
  intros (a & b & H). symmetry in H.
  apply app_eq_nil in H. destruct H as [_ H].
  now apply app_eq_nil in H.
Qed.

Lemma keep_narrowed c e r :
  narrows c e -> keep (edit e c) r = true -> keep c r = true.
Proof.
  intros Hn. rewrite !keep_spec.
  unfold passes, sector_ok, search_ok, per_ok, pbr_ok, cap_ok.
  intros (H1 & H2 & [H3 H4] & [H5 H6] & H7).
  destruct e as [v|v|v|v|v|v|v|i| |res]; cbn [narrows] in Hn;
    try contradiction;
    cbn [edit kw_sector kw_search kw_per_min kw_per_max kw_pbr_min
         kw_pbr_max kw_cap_min] in *.
  - repeat split; try assumption. intros Hc. now destruct Hc.
  - repeat split; try assumption. intros Hc.
    eapply occurs_in_trans; [exact Hn|].
    apply H2. intros E. rewrite E in Hn. apply occurs_in_nil in Hn.
    now apply Hc.
  - repeat split; try assumption. intros lo Hlo.
    destruct (Hn lo Hlo) as (lo' & Hb & Hle).
    apply at_least_lower with lo'; [exact Hle | now apply H3].
  - repeat split; try assumption. intros hi Hhi.
    destruct (Hn hi Hhi) as (hi' & Hb & Hle).
    apply at_most_higher with hi'; [exact Hle | now apply H4].
  - repeat split; try assumption. intros lo Hlo.
    destruct (Hn lo Hlo) as (lo' & Hb & Hle).
    apply at_least_lower with lo'; [exact Hle | now apply H5].
  - repeat split; try assumption. intros hi Hhi.
    destruct (Hn hi Hhi) as (hi' & Hb & Hle).
    apply at_most_higher with hi'; [exact Hle | now apply H6].
Qed.

End Narrowing.

(** X17.  Narrowing the filter never brings a row in: after a sector
    is chosen where none was, after the search text is replaced by one
    that contains it, after a PER or PBR minimum is raised or a maximum
    lowered, every row shown was shown before, and the table is not
    longer. *)
Theorem narrowing_hides_only `{L : Locale} (w : Widget) (e : Event) :
  narrows (controls w) e ->
  (forall r, In r (visible_rows (handle e w)) -> In r (visible_rows w))
  /\ (length (visible_rows (handle e w)) <= length (visible_rows w))%nat.
Proof.
  intros Hn.
  assert (H : allRows (handle e w) = allRows w
              /\ controls (handle e w) = edit e (controls w)).
  { destruct e as [v|v|v|v|v|v|v|i| |res]; cbn [narrows] in Hn;
      try contradiction; now split. }
  destruct H as [Ha Hc]. split.
  - intros r Hr.
    apply (Permutation_in _ (visible_rows_perm (handle e w))) in Hr.
    apply (Permutation_in _ (Permutation_sym (visible_rows_perm w))).
    rewrite Ha, Hc in Hr. apply filter_In in Hr. apply filter_In.
    split; [tauto|]. apply (keep_narrowed _ _ _ Hn). tauto.
  - rewrite (Permutation_length (visible_rows_perm w)),
      (Permutation_length (visible_rows_perm (handle e w))), Ha, Hc.
    apply filter_incl_length. intros r. now apply keep_narrowed.
Qed.

Lemma narrowing_hides_only_witness :
  let w := handle (PerMinInput (utf16 "5")) three_rows in
  let e := PerMinInput (utf16 "10") in
  (forall r, In r (visible_rows (handle e w)) -> In r (visible_rows w))
  /\ (length (visible_rows (handle e w)) <= length (visible_rows w))%nat.
Proof.
  apply (@narrowing_hides_only ascii_locale
           (handle (PerMinInput (utf16 "5")) three_rows)
           (PerMinInput (utf16 "10"))).
  intros lo Hlo. exists (Number.of_N 10). split; [reflexivity|].
  vm_compute in Hlo. injection Hlo as <-. vm_compute. reflexivity.
Defined.

(** ** A body without a date *)

(** X19.  When the body parses but its date cannot be sliced, the rows
    have been assigned before the error is thrown: the error message
    is shown, the date label, the sector options and the header row
    stay as they were, yet the dataset holds the rows of the body, and
    the next reset writes all of them into the table body, which is
    still hidden, and their number into the count label. *)
Theorem undated_body_keeps_rows `{L : Locale}
    (w : Widget) (status : N) (message : jsstring) (rows : list Row) :
  reachable w ->
  pending w = true ->
  (200 <= status <= 299)%N ->
  let w1 := handle (FetchSettled (Response status (Undated message rows))) w in
  let w2 := handle ResetClick w1 in
  allRows w1 = rows
  /\ kw_status_text (page w1)
     = utf16 "데이터를 불러오지 못했습니다. (" ++ message ++ utf16 ")"
  /\ kw_date (page w1) = kw_date (page w)
  /\ kw_sector_options (page w1) = kw_sector_options (page w)
  /\ kw_thead (page w2) = []
  /\ kw_table_wrap_display (page w2) = kw_table_wrap_display (page w)
  /\ Permutation (visible_rows w2) rows
  /\ length (kw_tbody (page w2)) = length rows
  /\ kw_count (page w2)
     = JsString.decimal (N.of_nat (length rows)) ++ utf16 "개 종목".
Proof.
  intros Hr Hp Hs. cbv zeta.
  assert (Hok : ok status = true) by now apply ok_range.
  assert (E : handle (FetchSettled (Response status (Undated message rows))) w
              = catch message (with_allRows rows (settled w))).
  { cbn [handle]. rewrite Hp. unfold init_resume. cbn [load].
    now rewrite Hok. }
  rewrite E. clear E.
  pose proof (reachable_invariant Hr) as (_ & _ & Ht & _). specialize (Ht Hp).
  assert (Hv : Permutation
                 (visible_rows
                    (handle ResetClick (catch message (with_allRows rows (settled w)))))
                 rows).
  { cbn [handle]. unfold on_reset. rewrite visible_rows_render.
    rewrite visible_rows_perm.
    cbn [with_controls controls allRows catch with_page with_allRows].
    fold no_input.
    now rewrite (@filter_all _ (keep no_input) rows keep_no_input). }
  repeat split; try reflexivity.
  - cbn [handle on_reset render with_page page kw_thead with_controls catch
         with_allRows settled]. now rewrite Ht.
  - exact Hv.
  - cbn [handle on_reset render with_page page kw_tbody]. unfold mapi.
    rewrite mapi_from_length. apply (Permutation_length Hv).
  - cbn [handle on_reset render with_page page kw_count].
    do 3 f_equal. apply (Permutation_length Hv).
Qed.

Lemma undated_body_keeps_rows_witness :
  let w := boot no_input blank_page in
  let w1 := handle (FetchSettled
                      (Response 200 (Undated (utf16 "d is undefined") [samsung]))) w in
  let w2 := handle ResetClick w1 in
  allRows w1 = [samsung]
  /\ kw_status_text (page w1)
     = utf16 "데이터를 불러오지 못했습니다. (" ++ utf16 "d is undefined" ++ utf16 ")"
  /\ kw_date (page w1) = kw_date (page w)
  /\ kw_sector_options (page w1) = kw_sector_options (page w)
  /\ kw_thead (page w2) = []
  /\ kw_table_wrap_display (page w2) = kw_table_wrap_display (page w)
  /\ Permutation (visible_rows w2) [samsung]
  /\ length (kw_tbody (page w2)) = length [samsung]
  /\ kw_count (page w2)
     = JsString.decimal (N.of_nat (length [samsung])) ++ utf16 "개 종목".
Proof.
  apply (@undated_body_keeps_rows ascii_locale (boot no_input blank_page) 200
           (utf16 "d is undefined") [samsung]).
  - apply reach_boot.
  - reflexivity.
  - lia.
Defined.
